(** * Chat history backup: a shallow embedding of [index.js]

    The plugin snapshots the active chat into an IndexedDB object store,
    de-duplicates snapshots on the index of the last message, bounds the
    total number of snapshots, and rebuilds a stored snapshot into a chat
    file on restore.

    Conventions of the embedding.
    - JavaScript values that travel through JSON (fetch responses, chat
      messages, stored payloads) are [JValue]; [option JValue] adds
      [undefined] as [None].
    - Strings are [string].  An ASCII character is one [ascii], as it is
      one code unit of the JavaScript string; the texts of the plugin
      that are not ASCII are held as their UTF-8 bytes, and what depends
      on the length of a text or on a position in it is stated for ASCII
      text.  Numbers are integers ([Z]); fractional numbers and [NaN]
      are outside the model.
    - Every [async] function is a computation in the monad [M]: it reads
      and writes a [World] (object store, module variables, pending timers,
      effect trace) and ends in a value or a thrown exception.  A
      computation runs to completion; the one interleaving that is
      represented is that of the timer callback, split at its [await]
      ([FineEvent]).
    - What the browser and the host application answer (fetch responses,
      IndexedDB failures per operation, dialog results, clock) is an
      [Env], over which the theorems quantify.
    - What [previewBackup] hands to its popup, and whether the delete
      button takes its item out of the list, are the values of the
      functions that model them; the patterns of [processMessage] are
      matched by structural recursion on the text.
    - [logDebug], [console.*] output is not represented. *)

From Stdlib Require Import ZArith List String Ascii Bool Lia DecimalString.
From Stdlib Require Import Sorting.Sorted Sorting.Permutation.
Import ListNotations.
Open Scope string_scope.
Open Scope Z_scope.

(* ================================================================= *)
(** ** JavaScript values *)

#[warnings="-register-all"]
Inductive JValue : Type :=
| JNull
| JBool (b : bool)
| JNum (z : Z)
| JStr (s : string)
| JArr (items : list JValue)
| JObj (fields : list (string * JValue)).

(** [String(n)] and template-literal rendering of an integer. *)
Definition string_of_Z (z : Z) : string := NilZero.string_of_int (Z.to_int z).
Definition string_of_nat (n : nat) : string := string_of_Z (Z.of_nat n).

(** Rendering of a possibly-undefined string in a template literal. *)
Definition show_opt (o : option string) : string :=
  match o with Some s => s | None => "undefined" end.

(** Truthiness of a string-or-undefined ([x || default], [if (x)]). *)
Definition truthy_str (o : option string) : bool :=
  match o with Some s => negb (s =? "")%string | None => false end.

Definition or_str (o : option string) (d : string) : string :=
  match o with
  | Some s => if (s =? "")%string then d else s
  | None => d
  end.

Definition truthy (v : option JValue) : bool :=
  match v with
  | None => false
  | Some JNull => false
  | Some (JBool b) => b
  | Some (JNum z) => negb (z =? 0)
  | Some (JStr s) => negb (s =? "")%string
  | Some (JArr _) => true
  | Some (JObj _) => true
  end.

Definition isArray (v : JValue) : bool :=
  match v with JArr _ => true | _ => false end.

Fixpoint assoc {A : Type} (k : string) (l : list (string * A)) : option A :=
  match l with
  | [] => None
  | (k', v) :: r => if (k =? k')%string then Some v else assoc k r
  end.

(** [obj[k] = v] on own properties: overwrite in place, else append. *)
Fixpoint assoc_set {A : Type} (k : string) (v : A) (l : list (string * A))
  : list (string * A) :=
  match l with
  | [] => [(k, v)]
  | (k', v') :: r =>
      if (k =? k')%string then (k, v) :: r else (k', v') :: assoc_set k v r
  end.

(* ----------------------------------------------------------------- *)
(** *** Exceptions and results *)

Inductive ExnKind := KError | KTypeError | KHost | KStorage.

Record Exn := mkExn { exn_kind : ExnKind; exn_msg : string }.

Inductive Res (A : Type) : Type :=
| Ret (a : A)
| Throw (e : Exn).
Arguments Ret {A} a.
Arguments Throw {A} e.

Definition typeError {A : Type} (msg : string) : Res A :=
  Throw (mkExn KTypeError msg).

(** [error.message || error] inside a template literal. *)
Definition err_text (e : Exn) : string :=
  if (exn_msg e =? "")%string then "Error" else exn_msg e.

(** [error.message || '未知错误']. *)
Definition err_or_unknown (e : Exn) : string :=
  if (exn_msg e =? "")%string then "未知错误" else exn_msg e.

(* ----------------------------------------------------------------- *)
(** *** Property access *)

Definition str_char_at (s : string) (i : nat) : option JValue :=
  match String.get i s with
  | Some c => Some (JStr (String c EmptyString))
  | None => None
  end.

(** [v.name] for a named (non-index) property. *)
Definition js_prop (v : option JValue) (name : string) : Res (option JValue) :=
  match v with
  | None => typeError "Cannot read properties of undefined"
  | Some JNull => typeError "Cannot read properties of null"
  | Some (JObj fs) => Ret (assoc name fs)
  | Some (JArr l) =>
      if (name =? "length")%string
      then Ret (Some (JNum (Z.of_nat (List.length l)))) else Ret None
  | Some (JStr s) =>
      if (name =? "length")%string
      then Ret (Some (JNum (Z.of_nat (String.length s)))) else Ret None
  | Some (JBool _) | Some (JNum _) => Ret None
  end.

(** [v[i]] for a numeric index. *)
Definition js_index (v : option JValue) (i : nat) : Res (option JValue) :=
  match v with
  | None => typeError "Cannot read properties of undefined"
  | Some JNull => typeError "Cannot read properties of null"
  | Some (JArr l) => Ret (nth_error l i)
  | Some (JObj fs) => Ret (assoc (string_of_nat i) fs)
  | Some (JStr s) => Ret (str_char_at s i)
  | Some (JBool _) | Some (JNum _) => Ret None
  end.

(** [v?.name]. *)
Definition js_prop_opt (v : option JValue) (name : string) : option JValue :=
  match js_prop v name with
  | Ret r => r
  | Throw _ => None
  end.

Fixpoint list_set {A : Type} (i : nat) (x : A) (l : list A) : list A :=
  match i, l with
  | O, _ :: r => x :: r
  | O, [] => [x]
  | S j, y :: r => y :: list_set j x r
  | S j, [] => [x]
  end.

(** [v[0] = x] in strict mode (module code), giving the updated [v]. *)
Definition js_set_index0 (v : JValue) (x : JValue) : Res JValue :=
  match v with
  | JNull => typeError "Cannot set properties of null"
  | JArr l => Ret (JArr (list_set 0 x l))
  | JObj fs => Ret (JObj (assoc_set "0" x fs))
  | JStr _ => typeError "Cannot assign to read only property of string"
  | JBool _ | JNum _ => typeError "Cannot create property on primitive"
  end.

(** [v.length === 0]. *)
Definition length_is_zero (v : JValue) : Res bool :=
  match js_prop (Some v) "length" with
  | Ret (Some (JNum 0)) => Ret true
  | Ret _ => Ret false
  | Throw e => Throw e
  end.

(* ----------------------------------------------------------------- *)
(** *** [JSON.stringify] *)

Definition hex_digit (n : nat) : ascii :=
  match n with
  | 0 => "0" | 1 => "1" | 2 => "2" | 3 => "3" | 4 => "4" | 5 => "5"
  | 6 => "6" | 7 => "7" | 8 => "8" | 9 => "9" | 10 => "a" | 11 => "b"
  | 12 => "c" | 13 => "d" | 14 => "e" | _ => "f"
  end%char%nat.

Definition dquote : string := String (ascii_of_nat 34) "".
Definition backslash : string := String (ascii_of_nat 92) "".

Definition escape_char (c : ascii) : string :=
  let n := nat_of_ascii c in
  if (n =? 34)%nat then backslash ++ dquote
  else if (n =? 92)%nat then backslash ++ backslash
  else if (n =? 8)%nat then backslash ++ "b"
  else if (n =? 9)%nat then backslash ++ "t"
  else if (n =? 10)%nat then backslash ++ "n"
  else if (n =? 12)%nat then backslash ++ "f"
  else if (n =? 13)%nat then backslash ++ "r"
  else if (n <? 32)%nat then
    backslash ++ "u00"
      ++ String (hex_digit (n / 16)) (String (hex_digit (n mod 16)) "")
  else String c "".

Fixpoint escape (s : string) : string :=
  match s with
  | EmptyString => ""
  | String c r => escape_char c ++ escape r
  end.

Definition quote (s : string) : string := dquote ++ escape s ++ dquote.

Fixpoint stringify (v : JValue) : string :=
  match v with
  | JNull => "null"
  | JBool true => "true"
  | JBool false => "false"
  | JNum z => string_of_Z z
  | JStr s => quote s
  | JArr l =>
      "[" ++ (fix elems (l : list JValue) : string :=
                match l with
                | [] => ""
                | x :: r =>
                    match r with
                    | [] => stringify x
                    | _ :: _ => stringify x ++ "," ++ elems r
                    end
                end) l ++ "]"
  | JObj fs =>
      "{" ++ (fix members (fs : list (string * JValue)) : string :=
                match fs with
                | [] => ""
                | (k, x) :: r =>
                    match r with
                    | [] => quote k ++ ":" ++ stringify x
                    | _ :: _ => quote k ++ ":" ++ stringify x ++ "," ++ members r
                    end
                end) fs ++ "}"
  end.

Definition newline : string := String (ascii_of_nat 10) "".

(** [s] has no character [c0]. *)
Fixpoint lacks (c0 : ascii) (s : string) : bool :=
  match s with
  | EmptyString => true
  | String c r => negb (Ascii.eqb c c0) && lacks c0 r
  end.

(* ----------------------------------------------------------------- *)
(** *** String helpers used for names and previews *)

(** [s.replace(pat, rep)] with a string pattern: first occurrence only. *)
Fixpoint replace_first (pat rep s : string) : string :=
  if prefix pat s
  then rep ++ substring (String.length pat) (String.length s - String.length pat) s
  else match s with
       | EmptyString => EmptyString
       | String c r => String c (replace_first pat rep r)
       end.

(** Position just after the last ['/'], or [0]: [lastIndexOf('/') + 1]. *)
Fixpoint after_last_slash (s : string) (pos : nat) (acc : nat) : nat :=
  match s with
  | EmptyString => acc
  | String c r =>
      if (nat_of_ascii c =? 47)%nat
      then after_last_slash r (S pos) (S pos)
      else after_last_slash r (S pos) acc
  end.

(** [s.substring(s.lastIndexOf('/') + 1).replace('.jsonl', '')]. *)
Definition chat_file_base (chatFile : string) : string :=
  let start := after_last_slash chatFile 0 0 in
  replace_first ".jsonl" ""
    (substring start (String.length chatFile - start) chatFile).

(** [s.replace(/[:.]/g, '-')]. *)
Fixpoint replace_colon_dot (s : string) : string :=
  match s with
  | EmptyString => EmptyString
  | String c r =>
      let n := nat_of_ascii c in
      String (if ((n =? 58) || (n =? 46))%nat then "-"%char else c)
             (replace_colon_dot r)
  end.

Definition is_space (c : ascii) : bool :=
  let n := nat_of_ascii c in
  ((n =? 32) || (n =? 9) || (n =? 10) || (n =? 11) || (n =? 12) || (n =? 13))%nat.

(** [s.replace(/\s+/g, '_')]: each maximal run of white space becomes one
    underscore. *)
Fixpoint replace_spaces (s : string) (in_run : bool) : string :=
  match s with
  | EmptyString => EmptyString
  | String c r =>
      if is_space c
      then (if in_run then replace_spaces r true
            else String "_"%char (replace_spaces r true))
      else String c (replace_spaces r false)
  end.

(* ================================================================= *)
(** ** Data model *)

(** The backup object built by [executeBackupLogic_Core] and kept in the
    object store. *)
Record Backup := mkBackup {
  timestamp : Z;
  chatKey : string;
  entityName : string;
  chatName : string;
  entityId : option string;
  isGroup : bool;
  lastMessageId : Z;
  lastMessagePreview : string;
  rawChatData : option JValue;
  groupMetadata : option JValue
}.

(** Primary key of the object store: [keyPath: ['chatKey', 'timestamp']]. *)
Definition Key : Type := (string * Z)%type.

Definition key_of (b : Backup) : Key := (chatKey b, timestamp b).

Definition key_eqb (k1 k2 : Key) : bool :=
  (fst k1 =? fst k2)%string && (snd k1 =? snd k2).

(** IndexedDB key order on arrays: component by component. *)
Definition key_ltb (k1 k2 : Key) : bool :=
  match String.compare (fst k1) (fst k2) with
  | Lt => true
  | Eq => snd k1 <? snd k2
  | Gt => false
  end.

(** What [getContext()] returns. *)
Record Context := mkContext {
  groupId : option string;
  characterId : option nat;
  chatId : option string;
  chat : option (list JValue);
  name2 : option string;
  chatMetadata : option JValue
}.

Record Character := mkCharacter {
  char_name : string;
  char_chat : option string;
  char_avatar : string;
  char_id : option string
}.

Record Group := mkGroup {
  group_id : string;
  group_name : string;
  group_chat_metadata : option JValue
}.

(** State of the host application read by the plugin. *)
Record Host := mkHost {
  context : Context;
  characters : option (list Character);
  groups : option (list Group)
}.

(** [extension_settings[PLUGIN_NAME]]; a delay that is not a number is
    [None]. *)
Record Settings := mkSettings {
  maxTotalBackups : Z;
  backupDebounceDelay : option Z;
  debug : bool
}.

(** A timer set by [setTimeout] and not yet fired or cleared, with the
    chat key its callback closed over. *)
Record Timer := mkTimer {
  timer_id : nat;
  scheduledChatKey : string;
  timer_delay : Z
}.

(* ----------------------------------------------------------------- *)
(** *** Effects *)

Inductive DbOp :=
| OpPut (k : Key)
| OpGet (k : Key)
| OpGetAll (ck : string)
| OpGetAllKeys
| OpDelete (k : Key).

(** How an IndexedDB call can go wrong: the connection cannot be opened
    ([getDB] rejects) or the transaction reports an error. *)
Inductive Fault :=
| NoFault
| OpenFails (e : Exn)
| TxFails (e : Exn).

Inductive ReqBody :=
| BodyJson (v : JValue)
| BodyForm (file_name file_content file_type : string) (group_id : option string).

Record Request := mkRequest { req_url : string; req_body : ReqBody }.

Record Response := mkResponse {
  resp_ok : bool;
  resp_status : Z;
  resp_json : Res JValue
}.

Inductive FetchOutcome :=
| FetchRejected (e : Exn)
| FetchResponse (r : Response).

Inductive PopupResult := PopAffirmative | PopCancelled | PopCustom2 | PopOther.

Inductive HostCall :=
| HSaveChatConditional
| HSelectGroupChats (g : option string) (c : option string)
| HSelectCharacterById (i : nat)
| HOpenCharacterChat (f : string).

Inductive ToastLevel := ToastError | ToastInfo | ToastSuccess.

Inductive Render :=
| RLoading
| REmpty
| RList (l : list Backup)
| RFailed (msg : string).

Inductive Event :=
| EvGetContext
| EvFetch (r : Request)
| EvDb (op : DbOp)
| EvToast (lvl : ToastLevel) (msg : string)
| EvPopupConfirm
| EvHostCall (c : HostCall)
| EvRender (r : Render)
| EvSetTimeout (id : nat) (delay : Z)
| EvClearTimeout (id : option nat)
| EvPopupClose.

(** Answers of the environment. *)
Record Env := mkEnv {
  now : Z;
  iso_now : string;
  fetch : Request -> FetchOutcome;
  db_fault : DbOp -> Fault;
  popup_confirm : Res PopupResult;
  saveChatConditional : Res unit;
  select_group_chats : option string -> option string -> Res unit;
  selectCharacterById : nat -> Res unit;
  openCharacterChat : string -> Res unit;
  host_effect : HostCall -> Host -> Host;
  list_container_present : bool
}.

(** Module variables, object store, host state and the effect trace. *)
Record World := mkWorld {
  store : list Backup;
  isBackupInProgress : bool;
  backupTimeout : option nat;
  timers : list Timer;
  next_timer_id : nat;
  backupManagerPopup : bool;
  host : Host;
  extension_settings : option Settings;
  trace : list Event
}.

Definition set_store (s : list Backup) (w : World) : World :=
  mkWorld s (isBackupInProgress w) (backupTimeout w) (timers w)
          (next_timer_id w) (backupManagerPopup w) (host w)
          (extension_settings w) (trace w).

Definition set_isBackupInProgress (b : bool) (w : World) : World :=
  mkWorld (store w) b (backupTimeout w) (timers w)
          (next_timer_id w) (backupManagerPopup w) (host w)
          (extension_settings w) (trace w).

Definition set_backupTimeout (t : option nat) (w : World) : World :=
  mkWorld (store w) (isBackupInProgress w) t (timers w)
          (next_timer_id w) (backupManagerPopup w) (host w)
          (extension_settings w) (trace w).

Definition set_timers (ts : list Timer) (n : nat) (w : World) : World :=
  mkWorld (store w) (isBackupInProgress w) (backupTimeout w) ts
          n (backupManagerPopup w) (host w)
          (extension_settings w) (trace w).

Definition set_backupManagerPopup (b : bool) (w : World) : World :=
  mkWorld (store w) (isBackupInProgress w) (backupTimeout w) (timers w)
          (next_timer_id w) b (host w)
          (extension_settings w) (trace w).

Definition set_host (h : Host) (w : World) : World :=
  mkWorld (store w) (isBackupInProgress w) (backupTimeout w) (timers w)
          (next_timer_id w) (backupManagerPopup w) h
          (extension_settings w) (trace w).

Definition add_event (e : Event) (w : World) : World :=
  mkWorld (store w) (isBackupInProgress w) (backupTimeout w) (timers w)
          (next_timer_id w) (backupManagerPopup w) (host w)
          (extension_settings w) (trace w ++ [e]).

(* ----------------------------------------------------------------- *)
(** *** The monad of asynchronous functions *)

Definition M (A : Type) : Type := World -> Res A * World.

Definition ret {A : Type} (a : A) : M A := fun w => (Ret a, w).

Definition throw {A : Type} (e : Exn) : M A := fun w => (Throw e, w).

(** [throw new Error(msg)]. *)
Definition throw_error {A : Type} (msg : string) : M A :=
  throw (mkExn KError msg).

Definition bind {A B : Type} (m : M A) (f : A -> M B) : M B :=
  fun w =>
    match m w with
    | (Ret a, w') => f a w'
    | (Throw e, w') => (Throw e, w')
    end.

Definition lift {A : Type} (r : Res A) : M A := fun w => (r, w).

(** [try { m } catch (e) { h e }]. *)
Definition try_catch {A : Type} (m : M A) (h : Exn -> M A) : M A :=
  fun w =>
    match m w with
    | (Ret a, w') => (Ret a, w')
    | (Throw e, w') => h e w'
    end.

(** [try { m } finally { f }]: [f] runs on every exit of [m]; the result
    of [m] stands unless [f] itself throws. *)
Definition finally {A : Type} (m : M A) (f : M unit) : M A :=
  fun w =>
    match m w with
    | (r, w') =>
        match f w' with
        | (Ret _, w'') => (r, w'')
        | (Throw e, w'') => (Throw e, w'')
        end
    end.

Definition get_world : M World := fun w => (Ret w, w).

Definition modify (f : World -> World) : M unit := fun w => (Ret tt, f w).

Definition emit (e : Event) : M unit := modify (add_event e).

Declare Scope js_scope.
Delimit Scope js_scope with js.
Notation "x <- m ;; k" := (bind m (fun x => k))
  (at level 100, m at next level, right associativity) : js_scope.
Notation "m ;;; k" := (bind m (fun _ => k))
  (at level 100, right associativity) : js_scope.
Open Scope js_scope.

Fixpoint mapM {A B : Type} (f : A -> M B) (l : list A) : M (list B) :=
  match l with
  | [] => ret []
  | x :: r => y <- f x ;; ys <- mapM f r ;; ret (y :: ys)
  end.

(** [Array.prototype.sort] with a comparator: a stable sort. [le x y]
    says that the comparator does not put [y] before [x]. *)
Fixpoint insert_sorted {A : Type} (le : A -> A -> bool) (x : A) (l : list A)
  : list A :=
  match l with
  | [] => [x]
  | y :: r => if le x y then x :: y :: r else y :: insert_sorted le x r
  end.

Fixpoint stable_sort {A : Type} (le : A -> A -> bool) (l : list A) : list A :=
  match l with
  | [] => []
  | x :: r => insert_sorted le x (stable_sort le r)
  end.

(** [Promise.all]: every computation is started; the first rejection, if
    any, is the outcome. *)
Fixpoint promise_all {A : Type} (ms : list (M A)) : M (list A) :=
  match ms with
  | [] => ret []
  | m :: r =>
      fun w =>
        match m w with
        | (Ret a, w1) =>
            match promise_all r w1 with
            | (Ret l, w2) => (Ret (a :: l), w2)
            | (Throw e, w2) => (Throw e, w2)
            end
        | (Throw e, w1) => (Throw e, snd (promise_all r w1))
        end
  end.

(* ================================================================= *)
(** ** The object store *)

Definition has_key (k : Key) (s : list Backup) : bool :=
  existsb (fun b => key_eqb (key_of b) k) s.

Fixpoint insert_by_key (b : Backup) (s : list Backup) : list Backup :=
  match s with
  | [] => [b]
  | x :: r =>
      if key_ltb (key_of b) (key_of x) then b :: x :: r
      else x :: insert_by_key b r
  end.

Definition replace_key (b : Backup) (s : list Backup) : list Backup :=
  map (fun x => if key_eqb (key_of x) (key_of b) then b else x) s.

(** [store.put(backup)]: overwrite the record under the same key, or add. *)
Definition store_put (b : Backup) (s : list Backup) : list Backup :=
  if has_key (key_of b) s then replace_key b s else insert_by_key b s.

(** [store.delete([chatKey, timestamp])]. *)
Definition store_delete (k : Key) (s : list Backup) : list Backup :=
  filter (fun b => negb (key_eqb (key_of b) k)) s.

(** [store.get([chatKey, timestamp])]. *)
Definition store_get (k : Key) (s : list Backup) : option Backup :=
  find (fun b => key_eqb (key_of b) k) s.

(** [store.index('chatKey').getAll(chatKey)]. *)
Definition store_by_chatKey (ck : string) (s : list Backup) : list Backup :=
  filter (fun b => (chatKey b =? ck)%string) s.

(** [store.getAllKeys()]. *)
Definition store_keys (s : list Backup) : list Key := map key_of s.

(** What [getBackupFromDB] resolves to: the record, [undefined] when the
    key is absent, [null] after a failed transaction. *)
Inductive Fetched :=
| FFound (b : Backup)
| FUndefined
| FNull.

(* ================================================================= *)
(** ** Settings *)

(** The settings object as it comes from the saved extension settings:
    any property may be missing or hold any value. *)
Record StoredSettings := mkStoredSettings {
  stored_maxTotalBackups : option JValue;
  stored_backupDebounceDelay : option JValue;
  stored_debug : option JValue
}.

(** [x ?? d] followed by the check [typeof x !== 'number' || x < low],
    which resets to [d]. *)
Definition number_at_least (low : Z) (x : option JValue) (d : Z) : Z :=
  match x with
  | Some (JNum z) => if z <? low then d else z
  | Some JNull | None => d
  | Some _ => d
  end.

(** [initSettings]; [defaults] stands for the constant
    [DEFAULT_SETTINGS], which the source file uses but does not declare. *)
Definition initSettings (defaults : Settings) (stored : option StoredSettings)
  : Settings :=
  let settings :=
    match stored with
    | Some s => s
    | None =>
        mkStoredSettings
          (Some (JNum (maxTotalBackups defaults)))
          match backupDebounceDelay defaults with
          | Some d => Some (JNum d)
          | None => None
          end
          (Some (JBool (debug defaults)))
    end in
  mkSettings
    (number_at_least 1 (stored_maxTotalBackups settings)
                     (maxTotalBackups defaults))
    match backupDebounceDelay defaults with
    | Some d =>
        Some (number_at_least 300 (stored_backupDebounceDelay settings) d)
    | None =>
        match stored_backupDebounceDelay settings with
        | Some (JNum z) => if z <? 300 then None else Some z
        | _ => None
        end
    end
    match stored_debug settings with
    | Some JNull | None => debug defaults
    | Some v => truthy (Some v)
    end.

(** The handler of the input [#chat_backup_max_total]: [total] is the
    result of [parseInt], [None] for [NaN]. *)
Definition on_max_total_input (defaults : Settings) (total : option Z) : Z :=
  match total with
  | Some t =>
      if (1 <=? t) && (t <=? 10) then t
      else Z.max 1 (Z.min 10 t)
  | None => Z.max 1 (Z.min 10 (maxTotalBackups defaults))
  end.

Section Plugin.

Variable env : Env.

(** [getDB]: the connection, or the rejection of [initDatabase]. *)
Definition getDB (op : DbOp) : M unit :=
  match db_fault env op with
  | OpenFails e => throw e
  | _ => ret tt
  end.

(** One transaction on the store: it fails as the environment says, or
    runs [body]. *)
Definition transaction {A : Type} (op : DbOp) (body : M A) : M A :=
  emit (EvDb op) ;;;
  match db_fault env op with
  | TxFails e => throw e
  | _ => body
  end.

Definition saveBackupToDB (backup : Backup) : M unit :=
  let op := OpPut (key_of backup) in
  getDB op ;;;
  try_catch
    (transaction op (modify (fun w => set_store (store_put backup (store w)) w)))
    (fun error => throw error).

Definition getBackupFromDB (chatKey : string) (timestamp : Z) : M Fetched :=
  let op := OpGet (chatKey, timestamp) in
  getDB op ;;;
  try_catch
    (transaction op
       (w <- get_world ;;
        ret (match store_get (chatKey, timestamp) (store w) with
             | Some b => FFound b
             | None => FUndefined
             end)))
    (fun _ => ret FNull).

Definition getBackupsForChat (chatKey : string) : M (list Backup) :=
  let op := OpGetAll chatKey in
  getDB op ;;;
  try_catch
    (transaction op
       (w <- get_world ;; ret (store_by_chatKey chatKey (store w))))
    (fun _ => ret []).

Definition getAllBackupKeys : M (list Key) :=
  getDB OpGetAllKeys ;;;
  try_catch
    (transaction OpGetAllKeys (w <- get_world ;; ret (store_keys (store w))))
    (fun _ => ret []).

Definition deleteBackup (chatKey : string) (timestamp : Z) : M unit :=
  let op := OpDelete (chatKey, timestamp) in
  getDB op ;;;
  try_catch
    (transaction op
       (modify (fun w => set_store (store_delete (chatKey, timestamp) (store w)) w)))
    (fun error => throw error).

(* ================================================================= *)
(** ** Chat information *)

Definition getContext : M Context :=
  emit EvGetContext ;;; w <- get_world ;; ret (context (host w)).

(** The key computed by [getCurrentChatKey] from the context. *)
Definition chat_key_of (context : Context) : option string :=
  if truthy_str (groupId context) then
    Some ("group_" ++ show_opt (groupId context) ++ "_"
            ++ show_opt (chatId context))
  else
    match characterId context with
    | Some cid =>
        if truthy_str (chatId context) then
          Some ("char_" ++ string_of_nat cid ++ "_"
                  ++ show_opt (chatId context))
        else None
    | None => None
    end.

Definition getCurrentChatKey : M (option string) :=
  context <- getContext ;;
  ret (chat_key_of context).

Record ChatInfo := mkChatInfo {
  ci_entityName : string;
  ci_chatName : string;
  ci_entityId : option string;
  ci_isGroup : bool
}.

Definition find_group (gs : option (list Group)) (id : option string)
  : option Group :=
  match gs, id with
  | Some l, Some g => find (fun x => (group_id x =? g)%string) l
  | _, _ => None
  end.

Definition getCurrentChatInfo : M ChatInfo :=
  context <- getContext ;;
  w <- get_world ;;
  if truthy_str (groupId context) then
    let group := find_group (groups (host w)) (groupId context) in
    let entityName :=
      match group with
      | Some g => group_name g
      | None => "群组 " ++ show_opt (groupId context)
      end in
    ret (mkChatInfo entityName (or_str (chatId context) "新聊天")
                    (groupId context) true)
  else
    match characterId context with
    | Some cid =>
        let entityName := or_str (name2 context) ("角色 " ++ string_of_nat cid) in
        let character :=
          match characters (host w) with
          | Some cs => nth_error cs cid
          | None => None
          end in
        let chatName :=
          match character with
          | Some c =>
              if truthy_str (chatId context)
              then chat_file_base (or_str (char_chat c) (show_opt (chatId context)))
              else or_str (chatId context) "新聊天"
          | None => or_str (chatId context) "新聊天"
          end in
        ret (mkChatInfo entityName chatName (Some (string_of_nat cid)) false)
    | None => ret (mkChatInfo "未知实体" "当前聊天" None false)
    end.

(* ================================================================= *)
(** ** The backup cycle *)

Definition js_fetch (r : Request) : M Response :=
  emit (EvFetch r) ;;;
  match fetch env r with
  | FetchRejected e => throw e
  | FetchResponse resp => ret resp
  end.

(** A property that [JSON.stringify] drops when its value is [undefined]. *)
Definition opt_field (name : string) (v : option string)
  : list (string * JValue) :=
  match v with
  | Some s => [(name, JStr s)]
  | None => []
  end.

(** [lastMessage?.mes?.substring(0, 100) || '(空消息)']; the cut counts
    the units of the [string], which are the characters of an ASCII
    text. *)
Definition message_preview (lastMessage : option JValue) : Res string :=
  match js_prop_opt lastMessage "mes" with
  | None | Some JNull => Ret "(空消息)"
  | Some (JStr s) =>
      let p := substring 0 100 s in
      Ret (if (p =? "")%string then "(空消息)" else p)
  | Some _ => typeError "lastMessage.mes.substring is not a function"
  end.

Definition rbind {A B : Type} (r : Res A) (f : A -> Res B) : Res B :=
  match r with
  | Ret a => f a
  | Throw e => Throw e
  end.

(** [!Array.isArray(raw) || raw.length === 0 || !raw[0].chat_metadata]. *)
Definition structure_is_abnormal (raw : JValue) : Res bool :=
  if negb (isArray raw) then Ret true
  else
    rbind (length_is_zero raw) (fun z =>
    if z then Ret true
    else
      rbind (js_index (Some raw) 0) (fun first =>
      rbind (js_prop first "chat_metadata") (fun md =>
      Ret (negb (truthy md))))).

(** [context.chatMetadata || {}]. *)
Definition fallback_metadata (context : Context) : JValue :=
  match chatMetadata context with
  | Some v => if truthy (Some v) then v else JObj []
  | None => JObj []
  end.

(** The check of the character chat file and its fallback (the block
    under "验证数据结构"). *)
Definition validate_character_data (context : Context) (raw : JValue)
  : Res JValue :=
  rbind (structure_is_abnormal raw) (fun abnormal =>
  if abnormal then
    let fallbackMetadata := fallback_metadata context in
    rbind (length_is_zero raw) (fun z =>
    if z then Ret (JArr [fallbackMetadata])
    else
      rbind (js_index (Some raw) 0) (fun first =>
      rbind (js_prop first "chat_metadata") (fun md =>
      js_set_index0 raw
        (if truthy md
         then match first with Some v => v | None => fallbackMetadata end
         else fallbackMetadata))))
  else Ret raw).

(** The local [rawChatData]: for a group the pair built at
    [{ messages: rawChatData, metadata: groupMetadata }]. *)
Inductive RawChat :=
| RawGroup (messages : JValue) (metadata : JValue)
| RawChar (v : JValue).

Definition raw_truthy (r : RawChat) : bool :=
  match r with
  | RawGroup _ _ => true
  | RawChar v => truthy (Some v)
  end.

(** Step 1: the raw content of the chat through the backend API. *)
Definition fetch_raw_chat (context : Context) (info : ChatInfo) : M RawChat :=
  if ci_isGroup info then
    messagesResponse <-
      js_fetch (mkRequest "/api/chats/group/get"
                  (BodyJson (JObj (opt_field "id" (chatId context))))) ;;
    if negb (resp_ok messagesResponse) then
      throw_error ("获取群组聊天消息失败! 状态: "
                     ++ string_of_Z (resp_status messagesResponse))
    else
      messages <- lift (resp_json messagesResponse) ;;
      w <- get_world ;;
      let group := find_group (groups (host w)) (ci_entityId info) in
      let groupMetadata :=
        match group with
        | Some g =>
            match group_chat_metadata g with
            | Some v => if truthy (Some v) then v else JObj []
            | None => JObj []
            end
        | None => JObj []
        end in
      ret (RawGroup messages groupMetadata)
  else
    w <- get_world ;;
    let character :=
      match characters (host w), characterId context with
      | Some cs, Some cid => nth_error cs cid
      | _, _ => None
      end in
    match character with
    | None =>
        throw_error ("找不到角色 "
                       ++ match characterId context with
                          | Some cid => string_of_nat cid
                          | None => "undefined"
                          end ++ " 的信息")
    | Some character =>
        let chatFile :=
          if truthy_str (char_chat character) then char_chat character
          else chatId context in
        fileContentResponse <-
          js_fetch (mkRequest "/api/chats/get"
                      (BodyJson (JObj ([("ch_name", JStr (char_name character))]
                                         ++ opt_field "file_name" chatFile
                                         ++ [("avatar_url",
                                              JStr (char_avatar character))])))) ;;
        if negb (resp_ok fileContentResponse) then
          throw_error ("获取角色聊天文件内容失败! 状态: "
                         ++ string_of_Z (resp_status fileContentResponse))
        else
          rawChatData <- lift (resp_json fileContentResponse) ;;
          rawChatData <- lift (validate_character_data context rawChatData) ;;
          ret (RawChar rawChatData)
    end.

Definition ts_le (a b : Key) : bool := snd a <=? snd b.

(** Step 6: the bound on the total number of backups. *)
Definition cleanup_old_backups (settings : Settings) : M unit :=
  allBackupKeys <- getAllBackupKeys ;;
  if Z.of_nat (List.length allBackupKeys) >? maxTotalBackups settings then
    let sorted := stable_sort ts_le allBackupKeys in
    let numToDelete :=
      Z.of_nat (List.length allBackupKeys) - maxTotalBackups settings in
    let keysToDelete := firstn (Z.to_nat numToDelete) sorted in
    promise_all (map (fun key => deleteBackup (fst key) (snd key)) keysToDelete) ;;;
    ret tt
  else ret tt.

(** Steps 3 to 6: de-duplication on [lastMessageId], save, cleanup. *)
Definition store_backup (settings : Settings) (backup : Backup) : M bool :=
  existingBackups <- getBackupsForChat (chatKey backup) ;;
  needsSave <-
    match find (fun b => lastMessageId b =? lastMessageId backup)
               existingBackups with
    | Some existing =>
        let existingTimestamp := timestamp existing in
        if timestamp backup >? existingTimestamp then
          deleteBackup (chatKey backup) existingTimestamp ;;; ret true
        else ret false
    | None => ret true
    end ;;
  if negb needsSave then ret false
  else
    saveBackupToDB backup ;;;
    cleanup_old_backups settings ;;;
    ret true.

Definition executeBackupLogic_Core (settings : Settings) : M bool :=
  let currentTimestamp := now env in
  chatKey <- getCurrentChatKey ;;
  match chatKey with
  | None => ret false
  | Some chatKey =>
      info <- getCurrentChatInfo ;;
      context <- getContext ;;
      match chat context with
      | None | Some [] => ret false
      | Some (m :: ms) =>
          let lastMsgIndex := Z.of_nat (List.length (m :: ms)) - 1 in
          let lastMessage := nth_error (m :: ms) (List.length ms) in
          lastMessagePreview <- lift (message_preview lastMessage) ;;
          finally
            (try_catch
               (rawChatData <- fetch_raw_chat context info ;;
                if negb (raw_truthy rawChatData) then
                  throw_error "未能从API获取有效的聊天数据"
                else
                  let backup :=
                    mkBackup currentTimestamp chatKey
                      (ci_entityName info) (ci_chatName info)
                      (ci_entityId info) (ci_isGroup info)
                      lastMsgIndex lastMessagePreview
                      (Some match rawChatData with
                            | RawGroup messages _ => messages
                            | RawChar v => v
                            end)
                      match rawChatData with
                      | RawGroup _ metadata => Some metadata
                      | RawChar _ => None
                      end in
                  store_backup settings backup)
               (fun error => throw error))
            (ret tt)
      end
  end.

(* ================================================================= *)
(** ** The list of backups in the UI *)

Definition ts_ge (a b : Backup) : bool := timestamp b <=? timestamp a.

Fixpoint valid_backups (l : list Fetched) : Res (list Backup) :=
  match l with
  | [] => Ret []
  | FNull :: r => valid_backups r
  | FUndefined :: _ => typeError "Cannot read properties of undefined"
  | FFound b :: r => rbind (valid_backups r) (fun bs => Ret (b :: bs))
  end.

Definition updateBackupsList : M unit :=
  if negb (list_container_present env) then ret tt
  else
    emit (EvRender RLoading) ;;;
    try_catch
      (allBackupKeys <- getAllBackupKeys ;;
       allBackups <-
         promise_all (map (fun key => getBackupFromDB (fst key) (snd key))
                          allBackupKeys) ;;
       if forallb (fun f => match f with FNull => true | _ => false end)
                  allBackups
       then emit (EvRender REmpty)
       else
         validBackups <- lift (valid_backups allBackups) ;;
         emit (EvRender (RList (stable_sort ts_ge validBackups))))
      (fun error => emit (EvRender (RFailed (exn_msg error)))).

(* ================================================================= *)
(** ** The coordinator *)

(** The [try]/[catch]/[finally] statement of [performBackupConditional],
    entered with the flag set. *)
Definition backup_under_lock (currentSettings : Settings) : M (option bool) :=
  finally
    (try_catch
       (success <- executeBackupLogic_Core currentSettings ;;
        (if success then updateBackupsList else ret tt) ;;;
        ret (Some success))
       (fun error =>
          emit (EvToast ToastError ("备份失败: " ++ err_or_unknown error)) ;;;
          ret (Some false)))
    (modify (set_isBackupInProgress false)).

(** The value [performBackupConditional] resolves to: [None] is
    [undefined] (the bare [return]). *)
Definition performBackupConditional : M (option bool) :=
  w <- get_world ;;
  if isBackupInProgress w then ret None
  else
    context <- getContext ;;
    chatKey <- getCurrentChatKey ;;
    match chatKey, chat context with
    | None, _ | _, None | _, Some [] => ret (Some false)
    | Some _, Some (_ :: _) =>
        w <- get_world ;;
        match extension_settings w with
        | None => ret (Some false)
        | Some currentSettings =>
            modify (set_isBackupInProgress true) ;;;
            backup_under_lock currentSettings
        end
    end.

Definition clearTimeout (id : option nat) : M unit :=
  emit (EvClearTimeout id) ;;;
  match id with
  | Some i =>
      modify (fun w =>
        set_timers (filter (fun t => negb (timer_id t =? i)%nat) (timers w))
                   (next_timer_id w) w)
  | None => ret tt
  end.

(** [setTimeout(callback, delay)]: the callback is kept as the chat key
    it closed over; the fresh identifier is returned. *)
Definition setTimeout (scheduled : string) (delay : Z) : M nat :=
  w <- get_world ;;
  let id := next_timer_id w in
  emit (EvSetTimeout id delay) ;;;
  modify (fun w =>
    set_timers (timers w ++ [mkTimer id scheduled delay]) (S id) w) ;;;
  ret id.

Definition performBackupDebounced : M unit :=
  scheduledChatKey <- getCurrentChatKey ;;
  w <- get_world ;;
  let currentSettings := extension_settings w in
  match scheduledChatKey with
  | None =>
      clearTimeout (backupTimeout w) ;;;
      modify (set_backupTimeout None)
  | Some scheduledChatKey =>
      match currentSettings with
      | Some (mkSettings _ (Some delay) _) =>
          clearTimeout (backupTimeout w) ;;;
          id <- setTimeout scheduledChatKey delay ;;
          modify (set_backupTimeout (Some id))
      | _ =>
          clearTimeout (backupTimeout w) ;;;
          modify (set_backupTimeout None)
      end
  end.

(** The callback handed to [setTimeout] by [performBackupDebounced], in
    the three pieces that its [await] separates: the check of the chat
    key ([false]: the backup is discarded), the awaited backup, and the
    statement after the [await]. *)
Definition debounce_callback_head (scheduledChatKey : string) : M bool :=
  currentChatKey <- getCurrentChatKey ;;
  if negb match currentChatKey with
          | Some k => (k =? scheduledChatKey)%string
          | None => false
          end
  then modify (set_backupTimeout None) ;;; ret false
  else ret true.

Definition debounce_callback_tail : M unit :=
  modify (set_backupTimeout None).

Definition debounce_callback (scheduledChatKey : string) : M unit :=
  go <- debounce_callback_head scheduledChatKey ;;
  if go then performBackupConditional ;;; debounce_callback_tail
  else ret tt.

(** The timer [id] elapses: it leaves the pending timers and its
    callback runs.  An identifier that is not pending does nothing. *)
Definition fire_timer (id : nat) : M unit :=
  w <- get_world ;;
  match find (fun t => (timer_id t =? id)%nat) (timers w) with
  | None => ret tt
  | Some t =>
      modify (fun w =>
        set_timers (filter (fun t => negb (timer_id t =? id)%nat) (timers w))
                   (next_timer_id w) w) ;;;
      debounce_callback (scheduledChatKey t)
  end.

Definition performManualBackup : M unit :=
  try_catch
    (success <- performBackupConditional ;;
     match success with
     | Some true => emit (EvToast ToastSuccess "已手动备份当前聊天")
     | _ => emit (EvToast ToastInfo "手动备份已跳过 (聊天为空或无新变化)")
     end)
    (fun _ => ret tt).

(* ================================================================= *)
(** ** Restore *)

(** A call into the host application: it is recorded, the host state
    moves as the environment says, and the call resolves or rejects. *)
Definition host_call (c : HostCall) (r : Res unit) : M unit :=
  emit (EvHostCall c) ;;;
  modify (fun w => set_host (host_effect env c (host w)) w) ;;;
  lift r.

(** [String(v)] of a value inside a template literal. *)
Fixpoint js_to_string (v : JValue) : string :=
  match v with
  | JNull => "null"
  | JBool true => "true"
  | JBool false => "false"
  | JNum z => string_of_Z z
  | JStr s => s
  | JArr l =>
      (fix join (l : list JValue) : string :=
         match l with
         | [] => ""
         | x :: r =>
             let sx := match x with JNull => "" | _ => js_to_string x end in
             match r with
             | [] => sx
             | _ :: _ => sx ++ "," ++ join r
             end
         end) l
  | JObj _ => "[object Object]"
  end.

(** A [null] entity id inside a template literal. *)
Definition show_null (o : option string) : string :=
  match o with Some s => s | None => "null" end.

(** [characters.findIndex(char => String(char.id) === target ||
    String(characters.indexOf(char)) === target)]; the characters are
    distinct objects, so [indexOf] gives each its own position. *)
Fixpoint find_character_from (i : nat) (cs : list Character)
  (target : option string) : option (nat * Character) :=
  match cs with
  | [] => None
  | c :: r =>
      match target with
      | Some t =>
          if ((show_opt (char_id c) =? t) || (string_of_nat i =? t))%string
          then Some (i, c)
          else find_character_from (S i) r target
      | None => find_character_from (S i) r target
      end
  end.

Definition find_character (cs : option (list Character))
  (target : option string) : Res (option (nat * Character)) :=
  match cs with
  | None => typeError "Cannot read properties of undefined"
  | Some l => Ret (find_character_from 0 l target)
  end.

(** Step 2 of [restoreBackup]: the [.jsonl] text, with the metadata and
    the messages that go into it. *)
Fixpoint jsonl_lines (msgs : list JValue) : string :=
  match msgs with
  | [] => ""
  | msg :: r => stringify msg ++ newline ++ jsonl_lines r
  end.

Record Jsonl := mkJsonl {
  jsonlString : string;
  metadataToImport : JValue;
  messagesToImport : list JValue
}.

Definition build_jsonl (backupData : Backup) : Res Jsonl :=
  if isGroup backupData then
    let metadataToImport :=
      match groupMetadata backupData with
      | Some v => if truthy (Some v) then v else JObj []
      | None => JObj []
      end in
    let messagesToImport :=
      match rawChatData backupData with
      | Some v => if truthy (Some v) then v else JArr []
      | None => JArr []
      end in
    match messagesToImport with
    | JArr msgs =>
        Ret (mkJsonl (stringify metadataToImport ++ newline ++ jsonl_lines msgs)
                     metadataToImport msgs)
    | _ => typeError "messagesToImport.forEach is not a function"
    end
  else
    match rawChatData backupData with
    | Some (JArr (first :: rest)) =>
        let md := js_prop_opt (Some first) "chat_metadata" in
        let metadataToImport :=
          match md with
          | Some v => if truthy md then v else JObj []
          | None => JObj []
          end in
        let messagesToImport := rest in
        Ret (mkJsonl
               (stringify (JObj [("chat_metadata", metadataToImport)])
                  ++ newline ++ jsonl_lines messagesToImport)
               metadataToImport messagesToImport)
    | _ => Throw (mkExn KError "角色备份数据结构异常，无法构建 .jsonl")
    end.

(** [errorData.error || '未知错误'] inside a template literal. *)
Definition error_field (errorData : JValue) : Res string :=
  rbind (js_prop (Some errorData) "error") (fun e =>
  Ret match e with
      | Some v => if truthy e then js_to_string v else "未知错误"
      | None => "未知错误"
      end).

(** Step 4 for a group: the import API; gives the id of the new chat. *)
Definition import_group_chat (file_name file_content : string)
  (targetEntityId : option string) : M string :=
  try_catch
    (response <-
       js_fetch (mkRequest "/api/chats/group/import"
                   (BodyForm file_name file_content "jsonl"
                             (Some (show_null targetEntityId)))) ;;
     if negb (resp_ok response) then
       errorData <- lift (resp_json response) ;;
       msg <- lift (error_field errorData) ;;
       throw_error ("群组聊天导入API调用失败! 状态: "
                      ++ string_of_Z (resp_status response) ++ " - " ++ msg)
     else
       importResult <- lift (resp_json response) ;;
       res <- lift (js_prop (Some importResult) "res") ;;
       match res with
       | Some v =>
           if truthy res then ret (js_to_string v)
           else throw_error "群组聊天导入API未返回预期的聊天ID。"
       | None => throw_error "群组聊天导入API未返回预期的聊天ID。"
       end)
    (fun error => throw_error ("群组聊天导入失败: " ++ err_text error)).

(** Step 4 for a character: the save API writes the backup as a new
    chat file; the file name is the id of the new chat. *)
Definition save_character_chat (restoredFilename : string) (j : Jsonl)
  (targetEntityId : option string) : M string :=
  w <- get_world ;;
  found <- lift (find_character (characters (host w)) targetEntityId) ;;
  match found with
  | None =>
      throw_error ("找不到索引或ID为 " ++ show_null targetEntityId
                     ++ " 的目标角色信息")
  | Some (_, character) =>
      let newChatIdForRole := replace_first ".jsonl" "" restoredFilename in
      try_catch
        (saveResponse <-
           js_fetch (mkRequest "/api/chats/save"
             (BodyJson (JObj
                [("ch_name", JStr (char_name character));
                 ("file_name", JStr newChatIdForRole);
                 ("chat", JArr (JObj [("chat_metadata", metadataToImport j)]
                                  :: messagesToImport j));
                 ("avatar_url", JStr (char_avatar character));
                 ("force", JBool true)]))) ;;
         if negb (resp_ok saveResponse) then
           errorData <- lift (resp_json saveResponse) ;;
           msg <- lift (error_field errorData) ;;
           throw_error ("保存角色聊天文件失败! 状态: "
                          ++ string_of_Z (resp_status saveResponse)
                          ++ " - " ++ msg)
         else ret newChatIdForRole)
        (fun error => throw_error ("保存角色聊天文件失败: " ++ err_text error))
  end.

(** Step 1: switch the host to the entity of the backup when it is not
    the current one.  [inl] is the early [return false] of the inner
    [catch]; [inr] carries the updated [targetEntityId]. *)
Definition switch_to_target (backupData : Backup) (initialContext : Context)
  : M (unit + option string) :=
  let targetEntityId := entityId backupData in
  let needsContextSwitch :=
    if isGroup backupData then
      negb match groupId initialContext, targetEntityId with
           | Some a, Some b => (a =? b)%string
           | None, None => true
           | _, _ => false
           end
    else
      negb match targetEntityId with
           | Some t =>
               (match characterId initialContext with
                | Some n => string_of_nat n
                | None => "undefined"
                end =? t)%string
           | None => false
           end in
  if needsContextSwitch then
    try_catch
      (if isGroup backupData then
         host_call (HSelectGroupChats targetEntityId None)
                   (select_group_chats env targetEntityId None) ;;;
         ret (inr targetEntityId)
       else
         w <- get_world ;;
         found <- lift (find_character (characters (host w)) targetEntityId) ;;
         match found with
         | None =>
             throw_error ("找不到 ID 或索引为 " ++ show_null targetEntityId
                            ++ " 的目标角色")
         | Some (charIndex, _) =>
             host_call (HSelectCharacterById charIndex)
                       (selectCharacterById env charIndex) ;;;
             ret (inr (Some (string_of_nat charIndex)))
         end)
      (fun switchError =>
         emit (EvToast ToastError
                 ("切换到目标"
                    ++ (if isGroup backupData then "群组" else "角色")
                    ++ "失败: " ++ err_text switchError)) ;;;
         ret (inl tt))
  else
    ret (inr (if isGroup backupData then targetEntityId
              else match characterId initialContext with
                   | Some n => Some (string_of_nat n)
                   | None => targetEntityId
                   end)).

Definition restoreBackup (backupData : Backup) : M bool :=
  if negb (truthy (rawChatData backupData))
     && negb (truthy (groupMetadata backupData))
  then
    emit (EvToast ToastError "备份数据无效或不完整") ;;; ret false
  else
    emit EvPopupConfirm ;;;
    confirmSave <- lift (popup_confirm env) ;;
    match confirmSave with
    | PopCancelled => ret false
    | PopOther => ret false
    | PopAffirmative | PopCustom2 =>
        (match confirmSave with
         | PopAffirmative =>
             host_call HSaveChatConditional (saveChatConditional env)
         | _ => ret tt
         end) ;;;
        try_catch
          (initialContext <- getContext ;;
           switched <- switch_to_target backupData initialContext ;;
           match switched with
           | inl _ => ret false
           | inr targetEntityId =>
               j <- lift (build_jsonl backupData) ;;
               let timestamp := replace_colon_dot (iso_now env) in
               let restoredFilename :=
                 replace_spaces (entityName backupData) false
                   ++ "_restored_" ++ timestamp ++ ".jsonl" in
               newChatIdAfterImport <-
                 (if isGroup backupData then
                    import_group_chat restoredFilename (jsonlString j)
                                      targetEntityId
                  else
                    save_character_chat restoredFilename j targetEntityId) ;;
               (if negb (newChatIdAfterImport =? "")%string then
                  try_catch
                    (if isGroup backupData then
                       host_call
                         (HSelectGroupChats targetEntityId
                                            (Some newChatIdAfterImport))
                         (select_group_chats env targetEntityId
                                             (Some newChatIdAfterImport))
                     else
                       host_call (HOpenCharacterChat newChatIdAfterImport)
                                 (openCharacterChat env newChatIdAfterImport))
                    (fun loadError =>
                       throw_error ("加载恢复的聊天失败: " ++ err_text loadError))
                else throw_error "未能获取新创建/导入聊天的ID") ;;;
               emit (EvToast ToastSuccess "聊天备份已成功恢复！") ;;;
               try_catch updateBackupsList (fun _ => ret tt) ;;;
               w <- get_world ;;
               (if backupManagerPopup w then
                  emit EvPopupClose ;;;
                  modify (set_backupManagerPopup false)
                else ret tt) ;;;
               ret true
           end)
          (fun error =>
             emit (EvToast ToastError ("恢复失败: " ++ err_or_unknown error)) ;;;
             ret false)
    end.

End Plugin.

(* ================================================================= *)
(** ** The settings form *)

(** The handler of the input [#chat_backup_debounce_delay]: [delay] is
    the result of [parseInt], [None] for [NaN].  The default delay is
    taken to be a number. *)
Definition on_debounce_delay_input (default_delay : Z) (delay : option Z) : Z :=
  match delay with
  | Some d =>
      if (300 <=? d) && (d <=? 10000) then d
      else Z.max 300 (Z.min 10000 d)
  | None => Z.max 300 (Z.min 10000 default_delay)
  end.

(** The settings object that [initSettings] leaves in
    [extension_settings], every property set. *)
Definition stored_of (s : Settings) : StoredSettings :=
  mkStoredSettings
    (Some (JNum (maxTotalBackups s)))
    match backupDebounceDelay s with
    | Some d => Some (JNum d)
    | None => None
    end
    (Some (JBool (debug s))).

(* ================================================================= *)
(** ** Preview *)

(** [s] without its first [n] characters. *)
Fixpoint string_drop (n : nat) (s : string) : string :=
  match n, s with
  | O, _ => s
  | S k, String _ r => string_drop k r
  | S _, EmptyString => EmptyString
  end.

(** A lazy run [X*?] followed by the literal [close], read at the start
    of [s]: the characters taken by the run and the number of characters
    consumed, [close] included.  The run stops at the first place where
    [close] is found; it fails on a character outside the class [cls]. *)
Fixpoint lazy_until (cls : ascii -> bool) (close : string) (s : string)
  : option (string * nat) :=
  if prefix close s then Some (EmptyString, String.length close)
  else
    match s with
    | EmptyString => None
    | String c r =>
        if cls c then
          match lazy_until cls close r with
          | Some (body, n) => Some (String c body, S n)
          | None => None
          end
        else None
    end.

(** A match of [open X*? close] at the start of [s]: the captured run and
    the length of the match. *)
Definition match_delimited (open close : string) (cls : ascii -> bool)
  (s : string) : option (string * nat) :=
  if prefix open s then
    match lazy_until cls close (string_drop (String.length open) s) with
    | Some (body, n) => Some (body, (String.length open + n)%nat)
    | None => None
    end
  else None.

(** [s.replace(re, rep)] for a global regular expression whose matches
    are never empty: [matcher] gives the match at the start of a string,
    [rep] the replacement for the captured run; [skip] counts the
    characters of the current match still to be passed over. *)
Fixpoint replace_matches (matcher : string -> option (string * nat))
  (rep : string -> string) (s : string) (skip : nat) : string :=
  match s with
  | EmptyString => EmptyString
  | String c r =>
      match skip with
      | S k => replace_matches matcher rep r k
      | O =>
          match matcher s with
          | Some (body, n) => rep body ++ replace_matches matcher rep r (n - 1)
          | None => String c (replace_matches matcher rep r 0)
          end
      end
  end.

(** The classes [[\s\S]], [.] and [[\s\\S]]; [\s] is the white space
    of ASCII and the no-break space. *)
Definition any_char (c : ascii) : bool := true.

Definition not_line_terminator (c : ascii) : bool :=
  let n := nat_of_ascii c in negb ((n =? 10) || (n =? 13))%nat.

Definition white_space (c : ascii) : bool :=
  (is_space c || (nat_of_ascii c =? 160))%nat.

Definition space_backslash_or_S (c : ascii) : bool :=
  let n := nat_of_ascii c in (white_space c || (n =? 92) || (n =? 83))%nat.

Definition remove_delimited (open close : string) (cls : ascii -> bool)
  (s : string) : string :=
  replace_matches (match_delimited open close cls) (fun _ => EmptyString) s 0.

(** [s.replace(/d(.*?)d/g, '<tag>$1</tag>')] for a literal [d]. *)
Definition wrap_delimited (d tag : string) (s : string) : string :=
  replace_matches (match_delimited d d not_line_terminator)
    (fun body => "<" ++ tag ++ ">" ++ body ++ "</" ++ tag ++ ">") s 0.

Fixpoint newline_run (s : string) : nat :=
  match s with
  | String c r => if (nat_of_ascii c =? 10)%nat then S (newline_run r) else O
  | EmptyString => O
  end.

(** [s.replace(/\n\n+/g, '\n')]. *)
Definition collapse_newlines (s : string) : string :=
  replace_matches
    (fun s => if (2 <=? newline_run s)%nat
              then Some (EmptyString, newline_run s) else None)
    (fun _ => newline) s 0.

(** [s.replace(/\n/g, '<br>')]. *)
Definition newlines_to_br (s : string) : string :=
  replace_matches
    (fun s => if (1 <=? newline_run s)%nat
              then Some (EmptyString, 1%nat) else None)
    (fun _ => "<br>") s 0.

(** The body of [processMessage] for a string that is not empty. *)
Definition process_text (messageText : string) : string :=
  let processed :=
    remove_delimited "<thinking>" "</thinking>" space_backslash_or_S
      (remove_delimited "<think>" "</think>" any_char messageText) in
  let processed :=
    remove_delimited "`" "`" any_char
      (remove_delimited "```" "```" any_char processed) in
  newlines_to_br
    (collapse_newlines
       (wrap_delimited "*" "em" (wrap_delimited "**" "strong" processed))).

(** [processMessage] of [previewBackup], applied to [msg.mes]. *)
Definition processMessage (messageText : option JValue) : Res string :=
  if negb (truthy messageText) then Ret "(空消息)"
  else
    match messageText with
    | Some (JStr s) => Ret (process_text s)
    | _ => typeError "messageText.replace is not a function"
    end.

(** What [previewBackup] puts into the popup: the heading, one box per
    message (sender, content as HTML) and the footer. *)
Record Preview := mkPreview {
  preview_heading : string;
  preview_boxes : list (string * string);
  preview_footer : string
}.

(** [l.slice(-2)]. *)
Definition last_two {A : Type} (l : list A) : list A :=
  skipn (List.length l - 2) l.

Fixpoint map_res {A B : Type} (f : A -> Res B) (l : list A) : Res (list B) :=
  match l with
  | [] => Ret []
  | x :: r =>
      rbind (f x) (fun y => rbind (map_res f r) (fun ys => Ret (y :: ys)))
  end.

(** One message box: [msg.name || '未知'] and [processMessage(msg.mes)]. *)
Definition preview_box (msg : JValue) : Res (string * string) :=
  rbind (js_prop (Some msg) "name") (fun name =>
  rbind (js_prop (Some msg) "mes") (fun mes =>
  rbind (processMessage mes) (fun content =>
  Ret (match name with
       | Some v => if truthy name then js_to_string v else "未知"
       | None => "未知"
       end,
       content)))).

(** [messagesToPreview], for the cases in which [previewBackup] goes on
    to read them; a payload that has no usable [length], [slice] or
    [forEach] ends in a [TypeError]. *)
Definition messages_to_preview (backup : Backup) : Res (list JValue) :=
  if isGroup backup then
    match rawChatData backup with
    | Some (JArr l) => Ret l
    | Some v =>
        if truthy (Some v) then
          rbind (length_is_zero v) (fun z =>
          if z then Ret []
          else
            match v with
            | JStr _ => typeError "lastMessages.forEach is not a function"
            | _ => typeError "messagesToPreview.slice is not a function"
            end)
        else Ret []
    | None => Ret []
    end
  else
    match rawChatData backup with
    | Some (JArr (_ :: m :: r)) => Ret (m :: r)
    | _ => Ret []
    end.

Section Manager.

Variable env : Env.

(** [previewBackup].  The value is the content of the popup when
    [callGenericPopup] was reached and resolved, [None] on every other
    way out; [popup_confirm env] stands for what [callGenericPopup]
    answers. *)
Definition previewBackup (chatKey : string) (timestamp : Z)
  : M (option Preview) :=
  try_catch
    (backup <- getBackupFromDB env chatKey timestamp ;;
     match backup with
     | FUndefined | FNull =>
         emit (EvToast ToastError "找不到指定的备份进行预览") ;;; ret None
     | FFound backup =>
         messagesToPreview <- lift (messages_to_preview backup) ;;
         let totalMessages := List.length messagesToPreview in
         if (totalMessages =? 0)%nat then
           emit (EvToast ToastInfo "此备份没有聊天消息内容可供预览") ;;;
           ret None
         else
           let lastMessages := last_two messagesToPreview in
           boxes <- lift (map_res preview_box lastMessages) ;;
           let previewContent :=
             mkPreview
               (entityName backup ++ " - " ++ chatName backup ++ " 预览")
               boxes
               ("显示最后 " ++ string_of_nat (List.length lastMessages)
                  ++ " 条消息，共 " ++ string_of_nat totalMessages ++ " 条") in
           lift (popup_confirm env) ;;;
           ret (Some previewContent)
     end)
    (fun error =>
       emit (EvToast ToastError ("预览过程中出错: " ++ err_text error)) ;;;
       ret None).

(* ================================================================= *)
(** ** The buttons of a list item *)

(** The click handler of [.backup_restore], for the key read from the
    button.  The state of the button itself is not represented. *)
Definition on_restore_click (chatKey : string) (timestamp : Z) : M unit :=
  finally
    (try_catch
       (backup <- getBackupFromDB env chatKey timestamp ;;
        match backup with
        | FFound backup => restoreBackup env backup ;;; ret tt
        | FUndefined | FNull =>
            emit (EvToast ToastError "找不到指定的备份进行恢复")
        end)
       (fun error =>
          emit (EvToast ToastError ("恢复过程中出错: " ++ err_text error))))
    (ret tt).

(** The click handler of [.backup_delete]; [confirmed] is the answer of
    [confirm(...)].  The value says whether the item is taken out of the
    list on the page. *)
Definition on_delete_click (confirmed : bool) (chatKey : string)
  (timestamp : Z) : M bool :=
  if confirmed then
    try_catch
      (deleteBackup env chatKey timestamp ;;;
       emit (EvToast ToastSuccess "备份已删除") ;;;
       ret true)
      (fun error =>
         emit (EvToast ToastError ("删除备份失败: " ++ err_text error)) ;;;
         ret false)
  else ret false.

(** The click handler of [.backup_preview_btn]. *)
Definition on_preview_click (chatKey : string) (timestamp : Z)
  : M (option Preview) :=
  finally (previewBackup chatKey timestamp) (ret tt).

End Manager.

(* ================================================================= *)
(** * Properties *)

Arguments ret {A} a w /.
Arguments throw {A} e w /.
Arguments lift {A} r w /.
Arguments get_world w /.
Arguments modify f w /.
Arguments emit e w /.

(** ** Worlds that differ by trace entries only *)

Definition add_events (es : list Event) (w : World) : World :=
  fold_left (fun w e => add_event e w) es w.

Lemma store_add_event e w : store (add_event e w) = store w.
Proof. reflexivity. Qed.

Lemma flag_add_event e w :
  isBackupInProgress (add_event e w) = isBackupInProgress w.
Proof. reflexivity. Qed.

Lemma host_add_event e w : host (add_event e w) = host w.
Proof. reflexivity. Qed.

Lemma store_add_events es : forall w, store (add_events es w) = store w.
Proof. induction es as [|e es IH]; intro w; simpl; [|rewrite IH]; reflexivity. Qed.

Lemma trace_add_events es :
  forall w, trace (add_events es w) = (trace w ++ es)%list.
Proof.
  induction es as [|e es IH]; intro w; simpl.
  - now rewrite app_nil_r.
  - rewrite IH. simpl. now rewrite <- app_assoc.
Qed.

Section Coordinator.

Variable env : Env.

Lemma getContext_eq w :
  getContext w = (Ret (context (host w)), add_event EvGetContext w).
Proof. reflexivity. Qed.

Lemma getCurrentChatKey_eq w :
  getCurrentChatKey w
  = (Ret (chat_key_of (context (host w))), add_event EvGetContext w).
Proof. reflexivity. Qed.

(** The chat of the context has at least one message. *)
Definition has_messages (c : Context) : bool :=
  match chat c with
  | Some (_ :: _) => true
  | _ => false
  end.

(** C3. While [isBackupInProgress] is set, [performBackupConditional]
    returns at once with [undefined] and leaves the world as it found it:
    no write or delete on the store, no call of a host accessor, no
    fetch -- the trace does not grow. *)
Theorem busy_trigger_is_dropped (w : World) :
  isBackupInProgress w = true ->
  performBackupConditional env w = (Ret None, w).
Proof.
  intro Hbusy. unfold performBackupConditional, bind. simpl.
  now rewrite Hbusy.
Qed.

(** Whatever the protected computation does, the [finally] block of
    [performBackupConditional] leaves the flag cleared. *)
Lemma finally_releases_lock {A : Type} (m : M A) (w : World) :
  isBackupInProgress
    (snd (finally m (modify (set_isBackupInProgress false)) w)) = false.
Proof.
  unfold finally. destruct (m w) as [r w']. reflexivity.
Qed.

(** C4. An invocation that starts with the flag clear ends with the
    flag clear, whether the cycle inside returns [true], returns [false]
    or throws; in particular every invocation that sets the flag has
    cleared it when it completes. *)
Theorem lock_released_on_every_exit (w : World) :
  isBackupInProgress w = false ->
  isBackupInProgress (snd (performBackupConditional env w)) = false.
Proof.
  intro Hidle. unfold performBackupConditional, bind.
  cbn [get_world]. rewrite Hidle.
  rewrite getContext_eq, getCurrentChatKey_eq.
  destruct (chat_key_of _) as [key|]; [|exact Hidle].
  destruct (chat _) as [[|m ms]|]; try exact Hidle.
  cbn [get_world extension_settings add_event].
  destruct (extension_settings w) as [currentSettings|]; [|exact Hidle].
  cbn [modify]. apply finally_releases_lock.
Qed.


Lemma getCurrentChatInfo_world w :
  snd (getCurrentChatInfo w) = add_event EvGetContext w
  /\ exists info, fst (getCurrentChatInfo w) = Ret info.
Proof.
  unfold getCurrentChatInfo, bind. rewrite getContext_eq.
  cbn [get_world].
  destruct (truthy_str _).
  - split; [reflexivity|eexists; reflexivity].
  - destruct (characterId _); (split; [reflexivity|eexists; reflexivity]).
Qed.

Lemma core_skips_without_key (settings : Settings) (w : World) :
  chat_key_of (context (host w)) = None ->
  executeBackupLogic_Core env settings w
  = (Ret false, add_events [EvGetContext] w).
Proof.
  intro Hkey. unfold executeBackupLogic_Core, bind.
  rewrite getCurrentChatKey_eq, Hkey. reflexivity.
Qed.

Lemma core_skips_empty_chat (settings : Settings) (w : World) (key : string) :
  chat_key_of (context (host w)) = Some key ->
  has_messages (context (host w)) = false ->
  executeBackupLogic_Core env settings w
  = (Ret false, add_events [EvGetContext; EvGetContext; EvGetContext] w).
Proof.
  intros Hkey Hempty. unfold executeBackupLogic_Core, bind.
  rewrite getCurrentChatKey_eq, Hkey.
  destruct (getCurrentChatInfo_world (add_event EvGetContext w))
    as [Hw [info Hinfo]].
  destruct (getCurrentChatInfo (add_event EvGetContext w)) as [r w1].
  simpl in Hw, Hinfo. subst r w1.
  rewrite getContext_eq, !host_add_event.
  unfold has_messages in Hempty.
  destruct (chat (context (host w))) as [[|m ms]|];
    [reflexivity | discriminate | reflexivity].
Qed.

(** C7. With no valid chat key, or with a chat that has no message, the
    cycle is a silent skip.  [executeBackupLogic_Core] returns [false]
    and [performBackupConditional] returns [false] (or [undefined] when
    it was busy); neither throws, and the world changes by [getContext]
    entries in the trace only: nothing is stored, no request is sent and
    no toast is shown. *)
Theorem skip_is_silent (settings : Settings) (w : World) :
  chat_key_of (context (host w)) = None
  \/ has_messages (context (host w)) = false ->
  (exists n,
     executeBackupLogic_Core env settings w
     = (Ret false, add_events (repeat EvGetContext n) w))
  /\ (exists r n,
        performBackupConditional env w
        = (Ret r, add_events (repeat EvGetContext n) w)
        /\ r <> Some true).
Proof.
  intro Hskip. split.
  - destruct (chat_key_of (context (host w))) as [key|] eqn:Hkey.
    + destruct Hskip as [Hnone|Hempty]; [discriminate|].
      exists 3%nat. now apply core_skips_empty_chat with key.
    + exists 1%nat. now apply core_skips_without_key.
  - unfold performBackupConditional, bind. cbn [get_world].
    destruct (isBackupInProgress w).
    + exists None, 0%nat. split; [reflexivity|discriminate].
    + rewrite getContext_eq, getCurrentChatKey_eq, !host_add_event.
      exists (Some false), 2%nat. split; [|discriminate].
      unfold has_messages in Hskip.
      destruct (chat_key_of (context (host w))) as [key|];
        destruct (chat (context (host w))) as [[|m ms]|];
        try reflexivity;
        destruct Hskip; discriminate.
Qed.

End Coordinator.

(* ================================================================= *)
(** ** Reconstruction of the chat file on restore *)

(** The metadata that [restoreBackup] takes from the first record of a
    character backup: [rawChatData[0]?.chat_metadata || {}]. *)
Definition restored_metadata (first : JValue) : JValue :=
  match js_prop_opt (Some first) "chat_metadata" with
  | Some v => if truthy (Some v) then v else JObj []
  | None => JObj []
  end.

Lemma build_jsonl_character (b : Backup) (first : JValue) (rest : list JValue) :
  isGroup b = false ->
  rawChatData b = Some (JArr (first :: rest)) ->
  build_jsonl b
  = Ret (mkJsonl
           (stringify (JObj [("chat_metadata", restored_metadata first)])
              ++ newline ++ jsonl_lines rest)
           (restored_metadata first) rest).
Proof.
  intros Hg Hraw. unfold build_jsonl, restored_metadata.
  rewrite Hg, Hraw.
  destruct (js_prop_opt (Some first) "chat_metadata") as [v|]; reflexivity.
Qed.

(** *** The lines of the serialised text *)

Lemma string_app_assoc (a b c : string) : (a ++ b) ++ c = a ++ (b ++ c).
Proof. induction a as [|x a IH]; [reflexivity|]. cbn [append]. now rewrite IH. Qed.

Lemma lacks_app (c0 : ascii) (a b : string) :
  lacks c0 (a ++ b) = lacks c0 a && lacks c0 b.
Proof.
  induction a as [|c a IH]; [reflexivity|]. cbn [append lacks].
  now rewrite IH, andb_assoc.
Qed.

(** Induction on a JSON value, with the property at hand for every
    element of an array and every member of an object. *)
Section JValueInduction.

Variable P : JValue -> Prop.
Hypothesis P_null : P JNull.
Hypothesis P_bool : forall b, P (JBool b).
Hypothesis P_num : forall z, P (JNum z).
Hypothesis P_str : forall s, P (JStr s).
Hypothesis P_arr : forall l, Forall P l -> P (JArr l).
Hypothesis P_obj : forall fs, Forall (fun kv => P (snd kv)) fs -> P (JObj fs).

Fixpoint JValue_nested_ind (v : JValue) : P v :=
  match v with
  | JNull => P_null
  | JBool b => P_bool b
  | JNum z => P_num z
  | JStr s => P_str s
  | JArr l =>
      P_arr l
        ((fix all (l : list JValue) : Forall P l :=
            match l with
            | [] => Forall_nil P
            | x :: r => Forall_cons x (JValue_nested_ind x) (all r)
            end) l)
  | JObj fs =>
      P_obj fs
        ((fix all (fs : list (string * JValue))
            : Forall (fun kv => P (snd kv)) fs :=
            match fs with
            | [] => Forall_nil _
            | kv :: r =>
                Forall_cons kv (JValue_nested_ind (snd kv)) (all r)
            end) fs)
  end.

End JValueInduction.

Lemma lacks_In (c : ascii) (s : string) :
  lacks c s = true <-> ~ In c (list_ascii_of_string s).
Proof.
  induction s as [|x s IH]; cbn [lacks list_ascii_of_string In].
  - tauto.
  - rewrite andb_true_iff, negb_true_iff, IH, Ascii.eqb_neq. intuition congruence.
Qed.

Lemma escape_char_one_line (c : ascii) :
  lacks "010" (escape_char c) = true.
Proof. destruct c as [[] [] [] [] [] [] [] []]; reflexivity. Qed.

Lemma escape_one_line (s : string) : lacks "010" (escape s) = true.
Proof.
  induction s as [|c s IH]; [reflexivity|].
  cbn [escape]. now rewrite lacks_app, escape_char_one_line, IH.
Qed.

Lemma quote_one_line (s : string) : lacks "010" (quote s) = true.
Proof.
  unfold quote. now rewrite !lacks_app, escape_one_line.
Qed.

Lemma string_of_uint_one_line (d : Decimal.uint) :
  lacks "010" (NilEmpty.string_of_uint d) = true.
Proof. induction d; cbn [NilEmpty.string_of_uint lacks]; try exact IHd; reflexivity. Qed.

Lemma string_of_Z_one_line (z : Z) : lacks "010" (string_of_Z z) = true.
Proof.
  unfold string_of_Z, NilZero.string_of_int.
  destruct (Z.to_int z) as [d|d]; unfold NilZero.string_of_uint;
    destruct d; try reflexivity;
    cbn [lacks NilEmpty.string_of_uint Ascii.eqb Bool.eqb negb andb];
    apply string_of_uint_one_line.
Qed.

(** [JSON.stringify] never writes a line feed. *)
Lemma stringify_one_line (v : JValue) : lacks "010" (stringify v) = true.
Proof.
  induction v as [|b|z|s|l IH|fs IH] using JValue_nested_ind.
  - reflexivity.
  - destruct b; reflexivity.
  - apply string_of_Z_one_line.
  - apply quote_one_line.
  - cbn [stringify]. rewrite !lacks_app.
    assert (H : lacks "010"
                  ((fix elems (l : list JValue) : string :=
                      match l with
                      | [] => ""
                      | x :: r =>
                          match r with
                          | [] => stringify x
                          | _ :: _ => stringify x ++ "," ++ elems r
                          end
                      end) l) = true).
    { induction IH as [|x r Hx Hr IHr]; [reflexivity|].
      destruct r as [|y r]; [exact Hx|].
      rewrite !lacks_app, Hx, IHr. reflexivity. }
    now rewrite H.
  - cbn [stringify]. rewrite !lacks_app.
    assert (H : lacks "010"
                  ((fix members (fs : list (string * JValue)) : string :=
                      match fs with
                      | [] => ""
                      | (k, x) :: r =>
                          match r with
                          | [] => quote k ++ ":" ++ stringify x
                          | _ :: _ =>
                              quote k ++ ":" ++ stringify x ++ "," ++ members r
                          end
                      end) fs) = true).
    { induction IH as [|[k x] r Hx Hr IHr]; [reflexivity|].
      cbn [snd] in Hx.
      destruct r as [|y r].
      - now rewrite !lacks_app, quote_one_line, Hx.
      - rewrite !lacks_app, quote_one_line, Hx, IHr. reflexivity. }
    now rewrite H.
Qed.

Lemma list_ascii_app (a b : string) :
  list_ascii_of_string (a ++ b)
  = (list_ascii_of_string a ++ list_ascii_of_string b)%list.
Proof.
  induction a as [|c a IH]; [reflexivity|].
  cbn [append list_ascii_of_string app]. now rewrite IH.
Qed.

Lemma count_line_feeds_app (a b : string) :
  count_occ ascii_dec (list_ascii_of_string (a ++ b)) "010"%char
  = (count_occ ascii_dec (list_ascii_of_string a) "010"%char
     + count_occ ascii_dec (list_ascii_of_string b) "010"%char)%nat.
Proof. now rewrite list_ascii_app, count_occ_app. Qed.

Lemma count_line_feeds_none (s : string) :
  lacks "010" s = true ->
  count_occ ascii_dec (list_ascii_of_string s) "010"%char = 0%nat.
Proof.
  intro H. apply lacks_In in H. now apply count_occ_not_In.
Qed.

(** The members of an object are written in the order of its fields. *)
Lemma stringify_object_in_order (fs : list (string * JValue)) :
  stringify (JObj fs)
  = "{" ++ String.concat ","
             (map (fun kv => String "034" (escape (fst kv))
                               ++ String "034" ":" ++ stringify (snd kv)) fs)
        ++ "}".
Proof.
  cbn [stringify]. do 2 f_equal.
  induction fs as [|[k x] r IH]; [reflexivity|].
  cbn [map String.concat fst snd]. rewrite <- IH.
  unfold quote, dquote.
  change (ascii_of_nat 34) with "034"%char.
  destruct r as [|y r]; cbn [map];
    rewrite ?string_app_assoc; cbn [append]; reflexivity.
Qed.

(** C6. For a character (single-owner) backup whose payload is
    [[{chat_metadata:{x:1}}, m1, m2]], the reconstruction gives the text
    [{"chat_metadata":{"x":1}}], a line feed, the serialisation of [m1],
    a line feed, the serialisation of [m2] and a line feed, and nothing
    else; the double quote and the line feed are written here by their
    codes 34 and 10.  A serialisation holds no line feed, whatever the
    message -- a line feed inside a text is written as a backslash and
    the letter [n] -- so the text has exactly three line feeds and three
    lines, one for the metadata and one per message.  The members of an
    object are written in the order of its fields.  The metadata and the
    two messages are what the save request will carry, in this order. *)
Theorem jsonl_of_metadata_and_two_messages
  (ts : Z) (ck en cn : string) (eid : option string) (idx : Z)
  (preview : string) (gm : option JValue) (m1 m2 : JValue) :
  let q := String "034" "" in
  let lf := String "010" "" in
  exists text : string,
    build_jsonl
      (mkBackup ts ck en cn eid false idx preview
         (Some (JArr [JObj [("chat_metadata", JObj [("x", JNum 1)])]; m1; m2]))
         gm)
    = Ret (mkJsonl text (JObj [("x", JNum 1)]) [m1; m2])
    /\ text
       = "{" ++ q ++ "chat_metadata" ++ q ++ ":{" ++ q ++ "x" ++ q ++ ":1}}"
             ++ lf ++ stringify m1 ++ lf ++ stringify m2 ++ lf
    /\ ~ In "010"%char (list_ascii_of_string (stringify m1))
    /\ ~ In "010"%char (list_ascii_of_string (stringify m2))
    /\ count_occ ascii_dec (list_ascii_of_string text) "010"%char = 3%nat
    /\ (forall fs : list (string * JValue),
          stringify (JObj fs)
          = "{" ++ String.concat ","
                     (map (fun kv => q ++ escape (fst kv) ++ q ++ ":"
                                       ++ stringify (snd kv)) fs)
                ++ "}")
    /\ stringify (JObj [("name", JStr "A"); ("mes", JStr ("hi" ++ lf ++ "yo"))])
       = "{" ++ q ++ "name" ++ q ++ ":" ++ q ++ "A" ++ q ++ ","
             ++ q ++ "mes" ++ q ++ ":" ++ q ++ "hi\nyo" ++ q ++ "}".
Proof.
  cbv zeta. eexists. split; [|split; [reflexivity|]].
  - unfold build_jsonl. cbn [isGroup rawChatData].
    cbn [js_prop_opt js_prop assoc String.eqb Ascii.eqb Bool.eqb truthy].
    cbn [jsonl_lines]. reflexivity.
  - split; [apply lacks_In, stringify_one_line|].
    split; [apply lacks_In, stringify_one_line|].
    split.
    + rewrite !count_line_feeds_app,
        !(count_line_feeds_none _ (stringify_one_line _)).
      reflexivity.
    + split; [|reflexivity].
      intro fs. rewrite stringify_object_in_order. reflexivity.
Qed.

(** C10. For a character backup whose first record is an object, the
    first record of the rebuilt chat is an object with the single field
    [chat_metadata]: the other top-level fields of the stored record are
    dropped.  Its value is the stored [chat_metadata] when that is truthy
    and the empty object when the field is absent (or falsy).  The
    messages follow unchanged. *)
Theorem restore_keeps_only_chat_metadata
  (b : Backup) (fields : list (string * JValue)) (rest : list JValue) :
  isGroup b = false ->
  rawChatData b = Some (JArr (JObj fields :: rest)) ->
  exists md : JValue,
    build_jsonl b
    = Ret (mkJsonl
             (stringify (JObj [("chat_metadata", md)])
                ++ newline ++ jsonl_lines rest)
             md rest)
    /\ (assoc "chat_metadata" fields = None -> md = JObj [])
    /\ (forall v, assoc "chat_metadata" fields = Some v ->
                  md = if truthy (Some v) then v else JObj []).
Proof.
  intros Hg Hraw. exists (restored_metadata (JObj fields)).
  split; [now apply build_jsonl_character|].
  unfold restored_metadata. cbn [js_prop_opt js_prop].
  split.
  - intros ->. reflexivity.
  - intros v ->. reflexivity.
Qed.

(** The record with a sibling field next to [chat_metadata] used below. *)
Definition sample_first_record : JValue :=
  JObj [("user_name", JStr "me");
        ("chat_metadata", JObj [("x", JNum 1)]);
        ("create_date", JStr "2024")].

Definition sample_character_backup (payload : JValue) : Backup :=
  mkBackup 1000 "char_0_chatA" "Alice" "chatA" (Some "0") false 1 "yo"
           (Some payload) None.

Lemma restore_keeps_only_chat_metadata_witness :
  let b := sample_character_backup (JArr [sample_first_record; JStr "m1"]) in
  isGroup b = false
  /\ rawChatData b = Some (JArr [sample_first_record; JStr "m1"])
  /\ (exists md : JValue,
        build_jsonl b
        = Ret (mkJsonl
                 (stringify (JObj [("chat_metadata", md)])
                    ++ newline ++ jsonl_lines [JStr "m1"])
                 md [JStr "m1"])
        /\ (assoc "chat_metadata"
                  [("user_name", JStr "me");
                   ("chat_metadata", JObj [("x", JNum 1)]);
                   ("create_date", JStr "2024")] = None -> md = JObj [])
        /\ (forall v,
              assoc "chat_metadata"
                    [("user_name", JStr "me");
                     ("chat_metadata", JObj [("x", JNum 1)]);
                     ("create_date", JStr "2024")] = Some v ->
              md = if truthy (Some v) then v else JObj [])).
Proof.
  cbv zeta. split; [reflexivity|]. split; [reflexivity|].
  apply (restore_keeps_only_chat_metadata
           (sample_character_backup (JArr [sample_first_record; JStr "m1"]))
           [("user_name", JStr "me");
            ("chat_metadata", JObj [("x", JNum 1)]);
            ("create_date", JStr "2024")]
           [JStr "m1"]); reflexivity.
Defined.

(** Reconstruction is not the identity on the first record. *)
Example rebuilt_first_record_differs :
  JObj [("chat_metadata", restored_metadata sample_first_record)]
  <> sample_first_record.
Proof. discriminate. Qed.

Section SaveRequest.

Variable env : Env.

(** The request that [restoreBackup] sends for a character: the rebuilt
    metadata record followed by the messages. *)
Lemma save_request_carries_rebuilt_chat
  (restoredFilename : string) (j : Jsonl) (target : option string)
  (w : World) (i : nat) (character : Character) :
  find_character (characters (host w)) target = Ret (Some (i, character)) ->
  exists es : list Event,
    trace (snd (save_character_chat env restoredFilename j target w))
    = (trace w
         ++ EvFetch
              (mkRequest "/api/chats/save"
                 (BodyJson (JObj
                    [("ch_name", JStr (char_name character));
                     ("file_name",
                      JStr (replace_first ".jsonl" "" restoredFilename));
                     ("chat",
                      JArr (JObj [("chat_metadata", metadataToImport j)]
                              :: messagesToImport j));
                     ("avatar_url", JStr (char_avatar character));
                     ("force", JBool true)])))
         :: es)%list.
Proof.
  intro Hfind. unfold save_character_chat, bind. cbn [get_world lift].
  rewrite Hfind. unfold try_catch, js_fetch, bind. cbn [emit modify].
  destruct (fetch env _) as [e|resp]; cbn.
  - eexists; reflexivity.
  - destruct (resp_ok resp); cbn.
    + eexists; reflexivity.
    + destruct (resp_json resp) as [errorData|e]; cbn.
      * destruct (error_field errorData); cbn; eexists; reflexivity.
      * eexists; reflexivity.
Qed.

End SaveRequest.

(* ================================================================= *)
(** ** The fallback for a malformed chat file *)

(** An empty array is replaced by the cached metadata alone. *)
Lemma validate_empty_array (context : Context) :
  validate_character_data context (JArr [])
  = Ret (JArr [fallback_metadata context]).
Proof. reflexivity. Qed.

(** A first element that is an object without a truthy [chat_metadata]
    is overwritten by the cached metadata. *)
Lemma validate_first_without_metadata
  (context : Context) (fields : list (string * JValue)) (rest : list JValue) :
  truthy (assoc "chat_metadata" fields) = false ->
  validate_character_data context (JArr (JObj fields :: rest))
  = Ret (JArr (fallback_metadata context :: rest)).
Proof.
  intro Hmd. unfold validate_character_data, structure_is_abnormal.
  cbn -[truthy]. rewrite Hmd. reflexivity.
Qed.

(** A well-formed file is kept as it is. *)
Lemma validate_well_formed
  (context : Context) (fields : list (string * JValue)) (rest : list JValue) :
  truthy (assoc "chat_metadata" fields) = true ->
  validate_character_data context (JArr (JObj fields :: rest))
  = Ret (JArr (JObj fields :: rest)).
Proof.
  intro Hmd. unfold validate_character_data, structure_is_abnormal.
  cbn -[truthy]. rewrite Hmd. reflexivity.
Qed.

(** ** Sample inputs *)

Definition sample_message (text : string) : JValue :=
  JObj [("name", JStr "Alice"); ("mes", JStr text)].

Definition sample_chat_file : JValue :=
  JArr [JObj [("chat_metadata", JObj [("x", JNum 1)])];
        sample_message "hi"; sample_message "yo"].

(** An environment where every request is answered [200] with [body],
    the store never fails, the clock reads [t] and the user picks
    "restore without saving". *)
Definition sample_env (body : JValue) (t : Z) : Env :=
  mkEnv t "2024-01-01T00:00:00.000Z"
        (fun _ => FetchResponse (mkResponse true 200 (Ret body)))
        (fun _ => NoFault)
        (Ret PopCustom2) (Ret tt)
        (fun _ _ => Ret tt) (fun _ => Ret tt) (fun _ => Ret tt)
        (fun _ h => h) false.

Definition sample_context (chat_id : string) : Context :=
  mkContext None (Some 0%nat) (Some chat_id)
            (Some [sample_message "hi"; sample_message "yo"])
            (Some "Alice") (Some (JObj [("y", JNum 2)])).

Definition sample_host (chat_id : string) : Host :=
  mkHost (sample_context chat_id)
         (Some [mkCharacter "Alice" (Some chat_id) "alice.png" None])
         None.

Definition sample_settings (n : Z) : Settings := mkSettings n (Some 1000) false.

Definition sample_world (s : list Backup) (busy : bool) (n : Z) : World :=
  mkWorld s busy None [] 0 false (sample_host "chatA")
          (Some (sample_settings n)) [].

(** C8 (the code misses the non-array case).  When the chat file request
    answers with an empty object, which is not an array, the check
    enters its fallback branch, finds [rawChatData.length] undefined
    rather than [0], and then reads [chat_metadata] of the undefined
    [rawChatData[0]]: a [TypeError].  The cycle therefore fails instead
    of substituting the cached metadata: nothing is stored and the
    failure is reported as an error. *)
Theorem empty_object_response_fails_the_cycle :
  (forall context : Context,
     validate_character_data context (JObj [])
     = typeError "Cannot read properties of undefined")
  /\ (forall context : Context,
        validate_character_data context JNull
        = typeError "Cannot read properties of null")
  /\ fst (executeBackupLogic_Core (sample_env (JObj []) 1000)
            (sample_settings 3) (sample_world [] false 3))
     = typeError "Cannot read properties of undefined"
  /\ store (snd (performBackupConditional (sample_env (JObj []) 1000)
                   (sample_world [] false 3))) = []
  /\ fst (performBackupConditional (sample_env (JObj []) 1000)
            (sample_world [] false 3)) = Ret (Some false)
  /\ In (EvToast ToastError "备份失败: Cannot read properties of undefined")
        (trace (snd (performBackupConditional (sample_env (JObj []) 1000)
                       (sample_world [] false 3)))).
Proof.
  split; [reflexivity|]. split; [reflexivity|].
  split; [vm_compute; reflexivity|].
  split; [vm_compute; reflexivity|].
  split; [vm_compute; reflexivity|].
  vm_compute. intuition.
Qed.

(* ================================================================= *)
(** ** Computations that do not write the store *)

Definition is_store_write (e : Event) : bool :=
  match e with
  | EvDb (OpPut _) | EvDb (OpDelete _) => true
  | _ => false
  end.

(** [m] leaves the object store as it is, and every entry it adds to
    the trace is something other than a put or a delete. *)
Definition reads_only {A : Type} (m : M A) : Prop :=
  forall w : World,
    store (snd (m w)) = store w
    /\ exists es : list Event,
         trace (snd (m w)) = (trace w ++ es)%list
         /\ forallb (fun e => negb (is_store_write e)) es = true.

Lemma reads_only_ret {A : Type} (a : A) : reads_only (ret a).
Proof. intro w. split; [reflexivity|]. exists []. now rewrite app_nil_r. Qed.

Lemma reads_only_throw {A : Type} (e : Exn) : reads_only (@throw A e).
Proof. intro w. split; [reflexivity|]. exists []. now rewrite app_nil_r. Qed.

Lemma reads_only_throw_error {A : Type} (msg : string) :
  reads_only (@throw_error A msg).
Proof. apply reads_only_throw. Qed.

Lemma reads_only_lift {A : Type} (r : Res A) : reads_only (lift r).
Proof. intro w. split; [reflexivity|]. exists []. now rewrite app_nil_r. Qed.

Lemma reads_only_get_world : reads_only get_world.
Proof. intro w. split; [reflexivity|]. exists []. now rewrite app_nil_r. Qed.

Lemma reads_only_emit (e : Event) :
  is_store_write e = false -> reads_only (emit e).
Proof.
  intros He w. split; [reflexivity|]. exists [e]. split; [reflexivity|].
  simpl. now rewrite He.
Qed.

Lemma reads_only_modify (f : World -> World) :
  (forall w, store (f w) = store w) ->
  (forall w, trace (f w) = trace w) ->
  reads_only (modify f).
Proof.
  intros Hs Ht w. split; [apply Hs|]. exists []. simpl.
  now rewrite Ht, app_nil_r.
Qed.

Lemma reads_only_bind {A B : Type} (m : M A) (f : A -> M B) :
  reads_only m -> (forall a, reads_only (f a)) -> reads_only (bind m f).
Proof.
  intros Hm Hf w. unfold bind.
  destruct (Hm w) as [Hs [es [Ht Hes]]].
  destruct (m w) as [[a|e] w1]; simpl in Hs, Ht.
  - destruct (Hf a w1) as [Hs2 [es2 [Ht2 Hes2]]].
    split; [congruence|]. exists (es ++ es2)%list.
    rewrite Ht2, Ht, app_assoc, forallb_app, Hes, Hes2. now split.
  - split; [exact Hs|]. exists es. now split.
Qed.

Lemma reads_only_try_catch {A : Type} (m : M A) (h : Exn -> M A) :
  reads_only m -> (forall e, reads_only (h e)) -> reads_only (try_catch m h).
Proof.
  intros Hm Hh w. unfold try_catch.
  destruct (Hm w) as [Hs [es [Ht Hes]]].
  destruct (m w) as [[a|e] w1]; simpl in Hs, Ht.
  - split; [exact Hs|]. exists es. now split.
  - destruct (Hh e w1) as [Hs2 [es2 [Ht2 Hes2]]].
    split; [congruence|]. exists (es ++ es2)%list.
    rewrite Ht2, Ht, app_assoc, forallb_app, Hes, Hes2. now split.
Qed.

Lemma reads_only_finally {A : Type} (m : M A) (f : M unit) :
  reads_only m -> reads_only f -> reads_only (finally m f).
Proof.
  intros Hm Hf w. unfold finally.
  destruct (Hm w) as [Hs [es [Ht Hes]]].
  destruct (m w) as [r w1]; simpl in Hs, Ht.
  destruct (Hf w1) as [Hs2 [es2 [Ht2 Hes2]]].
  destruct (f w1) as [[u|e] w2]; simpl in *;
    (split; [congruence|]); exists (es ++ es2)%list;
    rewrite Ht2, Ht, app_assoc, forallb_app, Hes, Hes2; now split.
Qed.

Lemma reads_only_promise_all {A : Type} (ms : list (M A)) :
  Forall reads_only ms -> reads_only (promise_all ms).
Proof.
  induction 1 as [|m ms Hm Hms IH]; [apply reads_only_ret|].
  intro w. cbn [promise_all].
  destruct (Hm w) as [Hs [es [Ht Hes]]].
  destruct (m w) as [[a|e] w1]; simpl in Hs, Ht;
    destruct (IH w1) as [Hs2 [es2 [Ht2 Hes2]]];
    destruct (promise_all ms w1) as [[l|e'] w2]; simpl in *;
    (split; [congruence|]); exists (es ++ es2)%list;
    rewrite Ht2, Ht, app_assoc, forallb_app, Hes, Hes2; now split.
Qed.

Create HintDb reads_only.
#[local] Hint Resolve reads_only_ret reads_only_throw reads_only_throw_error
  reads_only_lift reads_only_get_world reads_only_try_catch
  reads_only_finally : reads_only.

(** One step of a syntax-directed proof of [reads_only]. *)
Ltac reads_only_step :=
  match goal with
  | |- reads_only (bind _ _) => apply reads_only_bind; [|intro]
  | |- reads_only (try_catch _ _) => apply reads_only_try_catch; [|intro]
  | |- reads_only (finally _ _) => apply reads_only_finally
  | |- reads_only (emit _) => apply reads_only_emit; reflexivity
  | |- reads_only (modify _) =>
      apply reads_only_modify; intro; reflexivity
  | |- reads_only (match ?x with _ => _ end) => destruct x
  | |- reads_only _ => solve [auto with reads_only]
  end.

Section Frame.

Variable env : Env.

Lemma reads_only_getDB (op : DbOp) : reads_only (getDB env op).
Proof. unfold getDB. repeat reads_only_step. Qed.

Lemma reads_only_transaction {A : Type} (op : DbOp) (body : M A) :
  is_store_write (EvDb op) = false ->
  reads_only body -> reads_only (transaction env op body).
Proof.
  intros Hop Hbody. unfold transaction.
  apply reads_only_bind; [now apply reads_only_emit|intro].
  repeat reads_only_step; exact Hbody.
Qed.

Lemma reads_only_getBackupFromDB (ck : string) (ts : Z) :
  reads_only (getBackupFromDB env ck ts).
Proof.
  unfold getBackupFromDB.
  apply reads_only_bind; [apply reads_only_getDB|intro].
  apply reads_only_try_catch; [|intro; apply reads_only_ret].
  apply reads_only_transaction; [reflexivity|].
  repeat reads_only_step.
Qed.

Lemma reads_only_getAllBackupKeys : reads_only (getAllBackupKeys env).
Proof.
  unfold getAllBackupKeys.
  apply reads_only_bind; [apply reads_only_getDB|intro].
  apply reads_only_try_catch; [|intro; apply reads_only_ret].
  apply reads_only_transaction; [reflexivity|].
  repeat reads_only_step.
Qed.

Lemma reads_only_getBackupsForChat (ck : string) :
  reads_only (getBackupsForChat env ck).
Proof.
  unfold getBackupsForChat.
  apply reads_only_bind; [apply reads_only_getDB|intro].
  apply reads_only_try_catch; [|intro; apply reads_only_ret].
  apply reads_only_transaction; [reflexivity|].
  repeat reads_only_step.
Qed.

Lemma reads_only_updateBackupsList : reads_only (updateBackupsList env).
Proof.
  unfold updateBackupsList.
  destruct (list_container_present env); cbn [negb];
    [|apply reads_only_ret].
  apply reads_only_bind; [apply reads_only_emit; reflexivity|intro].
  apply reads_only_try_catch; [|intro; apply reads_only_emit; reflexivity].
  apply reads_only_bind; [apply reads_only_getAllBackupKeys|intro keys].
  apply reads_only_bind.
  - apply reads_only_promise_all. apply Forall_forall.
    intros m Hm. apply in_map_iff in Hm. destruct Hm as [k [<- _]].
    apply reads_only_getBackupFromDB.
  - intro allBackups.
    destruct (forallb _ allBackups); repeat reads_only_step.
Qed.

Lemma reads_only_getContext : reads_only getContext.
Proof. unfold getContext. repeat reads_only_step. Qed.

Lemma reads_only_getCurrentChatKey : reads_only getCurrentChatKey.
Proof.
  unfold getCurrentChatKey.
  apply reads_only_bind; [apply reads_only_getContext|intro].
  apply reads_only_ret.
Qed.

Lemma reads_only_getCurrentChatInfo : reads_only getCurrentChatInfo.
Proof.
  unfold getCurrentChatInfo.
  apply reads_only_bind; [apply reads_only_getContext|intro].
  repeat reads_only_step.
Qed.

Lemma reads_only_js_fetch (r : Request) : reads_only (js_fetch env r).
Proof. unfold js_fetch. repeat reads_only_step. Qed.

Lemma reads_only_host_call (c : HostCall) (r : Res unit) :
  reads_only (host_call env c r).
Proof. unfold host_call. repeat reads_only_step. Qed.

Lemma reads_only_import_group_chat (name content : string)
  (target : option string) :
  reads_only (import_group_chat env name content target).
Proof.
  unfold import_group_chat.
  apply reads_only_try_catch; [|intro; apply reads_only_throw_error].
  apply reads_only_bind; [apply reads_only_js_fetch|intro].
  repeat reads_only_step.
Qed.

Lemma reads_only_save_character_chat (name : string) (j : Jsonl)
  (target : option string) :
  reads_only (save_character_chat env name j target).
Proof.
  unfold save_character_chat.
  apply reads_only_bind; [apply reads_only_get_world|intro w0].
  apply reads_only_bind; [apply reads_only_lift|intro found].
  destruct found as [[i character]|]; [|apply reads_only_throw_error].
  apply reads_only_try_catch; [|intro; apply reads_only_throw_error].
  apply reads_only_bind; [apply reads_only_js_fetch|intro].
  repeat reads_only_step.
Qed.

Lemma reads_only_switch_to_target (b : Backup) (c : Context) :
  reads_only (switch_to_target env b c).
Proof.
  unfold switch_to_target.
  match goal with |- reads_only (if ?x then _ else _) => destruct x end;
    [|apply reads_only_ret].
  apply reads_only_try_catch; [|intro; repeat reads_only_step].
  destruct (isGroup b).
  - apply reads_only_bind; [apply reads_only_host_call|intro].
    apply reads_only_ret.
  - apply reads_only_bind; [apply reads_only_get_world|intro w0].
    apply reads_only_bind; [apply reads_only_lift|intro found].
    destruct found as [[i character]|]; [|apply reads_only_throw_error].
    apply reads_only_bind; [apply reads_only_host_call|intro].
    apply reads_only_ret.
Qed.

End Frame.

Section RestoreFrame.

Variable env : Env.

Lemma reads_only_restoreBackup (backupData : Backup) :
  reads_only (restoreBackup env backupData).
Proof.
  unfold restoreBackup.
  match goal with |- reads_only (if ?x then _ else _) => destruct x end.
  { repeat reads_only_step. }
  apply reads_only_bind; [apply reads_only_emit; reflexivity|intros _].
  apply reads_only_bind; [apply reads_only_lift|intro confirmSave].
  destruct confirmSave; try apply reads_only_ret.
  all: apply reads_only_bind;
    [first [apply reads_only_host_call | apply reads_only_ret] | intros _].
  all: apply reads_only_try_catch; [|intro; repeat reads_only_step].
  all: apply reads_only_bind;
    [apply reads_only_getContext | intro initialContext].
  all: apply reads_only_bind;
    [apply reads_only_switch_to_target | intro switched].
  all: destruct switched as [u|targetEntityId]; [apply reads_only_ret|].
  all: apply reads_only_bind; [apply reads_only_lift | intro j].
  all: cbv zeta.
  all: apply reads_only_bind;
    [destruct (isGroup backupData);
       [apply reads_only_import_group_chat
       |apply reads_only_save_character_chat]
    | intro newChatIdAfterImport].
  all: apply reads_only_bind;
    [destruct (negb _); [|apply reads_only_throw_error];
     apply reads_only_try_catch; [|intro; apply reads_only_throw_error];
     destruct (isGroup backupData); apply reads_only_host_call
    | intros _].
  all: apply reads_only_bind; [apply reads_only_emit; reflexivity | intros _].
  all: apply reads_only_bind;
    [apply reads_only_try_catch;
       [apply reads_only_updateBackupsList | intro; apply reads_only_ret]
    | intros _].
  all: apply reads_only_bind; [apply reads_only_get_world | intro w0].
  all: apply reads_only_bind; [|intros _; apply reads_only_ret].
  all: destruct (backupManagerPopup w0); repeat reads_only_step.
Qed.

(** C9. Whatever the environment answers -- the user cancels, a host
    call rejects, a request fails, the payload is malformed, or all goes
    well -- [restoreBackup] leaves the object store exactly as it was:
    the store after the call equals the store before, and nothing the
    call adds to the trace is a put or a delete.  The record that was
    restored can therefore be read again under its key. *)
Theorem restore_never_writes_the_store (backupData : Backup) (w : World) :
  store (snd (restoreBackup env backupData w)) = store w
  /\ (forall k : Key,
        store_get k (store (snd (restoreBackup env backupData w)))
        = store_get k (store w))
  /\ exists es : list Event,
       trace (snd (restoreBackup env backupData w)) = (trace w ++ es)%list
       /\ forallb (fun e => negb (is_store_write e)) es = true.
Proof.
  destruct (reads_only_restoreBackup backupData w) as [Hs Ht].
  split; [exact Hs|]. split; [|exact Ht].
  intro k. now rewrite Hs.
Qed.

End RestoreFrame.

(* ================================================================= *)
(** ** The object store as a keyed collection *)

(** No two records of the store share a primary key. *)
Definition store_wf (s : list Backup) : Prop := NoDup (store_keys s).

Lemma key_eqb_eq (a b : Key) : key_eqb a b = true <-> a = b.
Proof.
  destruct a as [c1 t1], b as [c2 t2]. unfold key_eqb. cbn [fst snd].
  rewrite andb_true_iff, String.eqb_eq, Z.eqb_eq.
  split; [intros [-> ->]; reflexivity | intro H; inversion H; auto].
Qed.

Lemma key_eqb_neq (a b : Key) : key_eqb a b = false <-> a <> b.
Proof.
  rewrite <- key_eqb_eq. destruct (key_eqb a b); split; congruence.
Qed.

Lemma key_eqb_refl (a : Key) : key_eqb a a = true.
Proof. now apply key_eqb_eq. Qed.

Lemma in_store_delete (k : Key) (s : list Backup) (x : Backup) :
  In x (store_delete k s) <-> In x s /\ key_of x <> k.
Proof.
  unfold store_delete. rewrite filter_In, negb_true_iff, key_eqb_neq.
  reflexivity.
Qed.

Lemma store_keys_delete (k : Key) (s : list Backup) :
  store_keys (store_delete k s)
  = filter (fun k' => negb (key_eqb k' k)) (store_keys s).
Proof.
  unfold store_keys, store_delete.
  induction s as [|x s IH]; [reflexivity|]. cbn [filter map].
  destruct (key_eqb (key_of x) k); cbn [negb map]; now rewrite IH.
Qed.

Lemma store_wf_delete (k : Key) (s : list Backup) :
  store_wf s -> store_wf (store_delete k s).
Proof.
  unfold store_wf. rewrite store_keys_delete. apply NoDup_filter.
Qed.

Lemma has_key_true (k : Key) (s : list Backup) :
  has_key k s = true <-> In k (store_keys s).
Proof.
  unfold has_key, store_keys. rewrite existsb_exists, in_map_iff.
  split; intros [x [H1 H2]]; exists x.
  - apply key_eqb_eq in H2. now split.
  - split; [exact H2|]. now apply key_eqb_eq.
Qed.

Lemma store_keys_replace (b : Backup) (s : list Backup) :
  store_keys (replace_key b s) = store_keys s.
Proof.
  unfold store_keys, replace_key. rewrite map_map. apply map_ext_in.
  intros x _. destruct (key_eqb (key_of x) (key_of b)) eqn:E;
    [symmetry; now apply key_eqb_eq|reflexivity].
Qed.

Lemma insert_by_key_perm (b : Backup) (s : list Backup) :
  Permutation (insert_by_key b s) (b :: s).
Proof.
  induction s as [|x s IH]; [reflexivity|]. cbn [insert_by_key].
  destruct (key_ltb (key_of b) (key_of x)); [reflexivity|].
  rewrite IH. apply perm_swap.
Qed.

Lemma store_wf_put (b : Backup) (s : list Backup) :
  store_wf s -> store_wf (store_put b s).
Proof.
  unfold store_wf, store_put. intro Hwf.
  destruct (has_key (key_of b) s) eqn:Hk.
  - now rewrite store_keys_replace.
  - apply Permutation_NoDup with (key_of b :: store_keys s).
    + symmetry. unfold store_keys.
      change (key_of b :: map key_of s) with (map key_of (b :: s)).
      apply Permutation_map, insert_by_key_perm.
    + constructor; [|exact Hwf]. rewrite <- has_key_true. congruence.
Qed.

Lemma in_replace_key (b x : Backup) (s : list Backup) :
  In x (replace_key b s)
  <-> (x = b /\ In (key_of b) (store_keys s))
      \/ (In x s /\ key_of x <> key_of b).
Proof.
  unfold replace_key, store_keys. rewrite in_map_iff. split.
  - intros [y [Hy Hin]].
    destruct (key_eqb (key_of y) (key_of b)) eqn:E.
    + left. split; [now symmetry|].
      apply key_eqb_eq in E. rewrite <- E. now apply in_map.
    + right. subst y. split; [exact Hin|]. now apply key_eqb_neq.
  - intros [[-> Hin] | [Hin Hne]].
    + apply in_map_iff in Hin. destruct Hin as [y [Hy Hin]].
      exists y. split; [|exact Hin].
      rewrite Hy, key_eqb_refl. reflexivity.
    + exists x. split; [|exact Hin].
      apply key_eqb_neq in Hne. now rewrite Hne.
Qed.

Lemma in_store_put (b x : Backup) (s : list Backup) :
  In x (store_put b s) <-> x = b \/ (In x s /\ key_of x <> key_of b).
Proof.
  unfold store_put. destruct (has_key (key_of b) s) eqn:Hk.
  - rewrite in_replace_key. apply has_key_true in Hk. tauto.
  - rewrite (Permutation_in' (eq_refl x) (insert_by_key_perm b s)).
    cbn [In].
    assert (Hnot : ~ In (key_of b) (store_keys s))
      by (rewrite <- has_key_true; congruence).
    split.
    + intros [->|Hin]; [now left|]. right. split; [exact Hin|].
      intro E. apply Hnot. rewrite <- E. now apply in_map.
    + intros [->|[Hin _]]; [now left|now right].
Qed.

(** The keys [ks] removed one after the other. *)
Definition remove_keys (ks : list Key) (s : list Backup) : list Backup :=
  fold_left (fun s k => store_delete k s) ks s.

Lemma in_remove_keys (ks : list Key) :
  forall (s : list Backup) (x : Backup),
    In x (remove_keys ks s) <-> In x s /\ ~ In (key_of x) ks.
Proof.
  induction ks as [|k ks IH]; intros s x; cbn [remove_keys fold_left In].
  - tauto.
  - fold (remove_keys ks (store_delete k s)).
    rewrite IH, in_store_delete. intuition congruence.
Qed.

Lemma store_wf_remove_keys (ks : list Key) :
  forall s, store_wf s -> store_wf (remove_keys ks s).
Proof.
  induction ks as [|k ks IH]; intros s Hwf; [exact Hwf|].
  apply IH, store_wf_delete, Hwf.
Qed.

Lemma store_keys_remove_keys (ks : list Key) :
  forall s,
    store_keys (remove_keys ks s)
    = filter (fun k => negb (existsb (key_eqb k) ks)) (store_keys s).
Proof.
  induction ks as [|k ks IH]; intro s; cbn [remove_keys fold_left].
  - cbn [existsb negb]. induction (store_keys s) as [|y l IHl];
      [reflexivity|]. cbn [filter]. now rewrite <- IHl.
  - fold (remove_keys ks (store_delete k s)).
    rewrite IH, store_keys_delete.
    induction (store_keys s) as [|y l IHl]; [reflexivity|].
    cbn [filter existsb].
    destruct (key_eqb y k); cbn [negb orb filter]; [exact IHl|].
    destruct (existsb (key_eqb y) ks); cbn [negb]; now rewrite IHl.
Qed.

(* ----------------------------------------------------------------- *)
(** *** Sorting by timestamp *)

Lemma insert_sorted_perm {A : Type} (le : A -> A -> bool) (x : A) (l : list A) :
  Permutation (insert_sorted le x l) (x :: l).
Proof.
  induction l as [|y l IH]; [reflexivity|]. cbn [insert_sorted].
  destruct (le x y); [reflexivity|]. rewrite IH. apply perm_swap.
Qed.

Lemma stable_sort_perm {A : Type} (le : A -> A -> bool) (l : list A) :
  Permutation (stable_sort le l) l.
Proof.
  induction l as [|x l IH]; [reflexivity|]. cbn [stable_sort].
  rewrite insert_sorted_perm. now constructor.
Qed.

Definition ts_order (a b : Key) : Prop := snd a <= snd b.

Lemma insert_sorted_ts (x : Key) (l : list Key) :
  StronglySorted ts_order l ->
  StronglySorted ts_order (insert_sorted ts_le x l).
Proof.
  induction 1 as [|y l Hl IH Hy]; cbn [insert_sorted].
  - repeat constructor.
  - unfold ts_le. destruct (snd x <=? snd y) eqn:E.
    + apply Z.leb_le in E. constructor; [now constructor|].
      constructor; [exact E|].
      eapply Forall_impl; [|exact Hy]. unfold ts_order. intros; lia.
    + apply Z.leb_gt in E. constructor; [exact IH|].
      apply Forall_forall. intros z Hz.
      apply (Permutation_in _ (insert_sorted_perm ts_le x l)) in Hz.
      destruct Hz as [<-|Hz]; [unfold ts_order; lia|].
      rewrite Forall_forall in Hy. now apply Hy.
Qed.

Lemma stable_sort_ts (l : list Key) :
  StronglySorted ts_order (stable_sort ts_le l).
Proof.
  induction l as [|x l IH]; [constructor|]. now apply insert_sorted_ts.
Qed.

Lemma strongly_sorted_split (l1 l2 : list Key) :
  StronglySorted ts_order (l1 ++ l2) ->
  forall x y, In x l1 -> In y l2 -> snd x <= snd y.
Proof.
  induction l1 as [|a l1 IH]; intros Hs x y Hx Hy; [contradiction|].
  cbn [app] in Hs. apply StronglySorted_inv in Hs. destruct Hs as [Hs Ha].
  destruct Hx as [<-|Hx]; [|now apply IH].
  rewrite Forall_forall in Ha. apply Ha, in_or_app. now right.
Qed.

(* ----------------------------------------------------------------- *)
(** *** Retention as a function of the store *)

(** The keys that the cleanup step deletes from a store [s] under the
    bound [n]: none when [s] is within the bound, else the first
    [length s - n] keys in ascending order of timestamp. *)
Definition evicted (n : Z) (s : list Backup) : list Key :=
  if Z.of_nat (List.length (store_keys s)) >? n
  then firstn (Z.to_nat (Z.of_nat (List.length (store_keys s)) - n))
              (stable_sort ts_le (store_keys s))
  else [].

Definition retain (n : Z) (s : list Backup) : list Backup :=
  remove_keys (evicted n s) s.

Lemma retain_incl (n : Z) (s : list Backup) (x : Backup) :
  In x (retain n s) -> In x s.
Proof. unfold retain. rewrite in_remove_keys. tauto. Qed.

Lemma store_wf_retain (n : Z) (s : list Backup) :
  store_wf s -> store_wf (retain n s).
Proof. apply store_wf_remove_keys. Qed.

Lemma existsb_key_in (k : Key) (ks : list Key) :
  existsb (key_eqb k) ks = true <-> In k ks.
Proof.
  rewrite existsb_exists. split.
  - intros [y [Hy E]]. apply key_eqb_eq in E. now subst.
  - intro H. exists k. split; [exact H|apply key_eqb_refl].
Qed.

Lemma NoDup_app_disjoint {A : Type} (l1 l2 : list A) :
  NoDup (l1 ++ l2) -> forall a, In a l1 -> ~ In a l2.
Proof.
  induction l1 as [|x l1 IH]; intros Hnd a Ha; [contradiction|].
  cbn [app] in Hnd. apply NoDup_cons_iff in Hnd. destruct Hnd as [Hx Hnd].
  destruct Ha as [<-|Ha]; [|now apply IH].
  intro H. apply Hx, in_or_app. now right.
Qed.

(** What survives is a rearrangement of the keys left after the first
    [d] of the sorted ones. *)
Lemma survivors_perm (d : nat) (ks : list Key) :
  NoDup ks ->
  Permutation
    (filter (fun k => negb (existsb (key_eqb k)
                              (firstn d (stable_sort ts_le ks)))) ks)
    (skipn d (stable_sort ts_le ks)).
Proof.
  intro Hnd.
  assert (Hsorted : NoDup (stable_sort ts_le ks))
    by (apply Permutation_NoDup with ks;
        [symmetry; apply stable_sort_perm|exact Hnd]).
  rewrite <- (firstn_skipn d (stable_sort ts_le ks)) in Hsorted at 1.
  apply NoDup_Permutation.
  - now apply NoDup_filter.
  - exact (NoDup_app_remove_l _ _ Hsorted).
  - intro k. rewrite filter_In, negb_true_iff.
    rewrite <- not_true_iff_false, existsb_key_in.
    rewrite <- (Permutation_in' (eq_refl k) (stable_sort_perm ts_le ks)).
    rewrite <- (firstn_skipn d (stable_sort ts_le ks)) at 1.
    rewrite in_app_iff.
    pose proof (NoDup_app_disjoint _ _ Hsorted) as Hdisj.
    split.
    + intros [[H|H] Hn]; [contradiction|exact H].
    + intro H. split; [now right|]. intro H'. exact (Hdisj k H' H).
Qed.

Lemma length_store_keys (s : list Backup) :
  List.length (store_keys s) = List.length s.
Proof. apply length_map. Qed.

(** The bound: after retention the store holds at most [n] records,
    and exactly [n] when it held more before. *)
Lemma retain_length (n : Z) (s : list Backup) :
  store_wf s -> 0 <= n ->
  Z.of_nat (List.length (retain n s))
  = Z.min (Z.of_nat (List.length s)) n.
Proof.
  intros Hwf Hn. rewrite <- (length_store_keys (retain n s)).
  unfold retain. rewrite store_keys_remove_keys. unfold evicted.
  rewrite length_store_keys.
  destruct (Z.of_nat (List.length s) >? n) eqn:E.
  - apply Z.gtb_lt in E.
    rewrite (Permutation_length (survivors_perm _ _ Hwf)).
    rewrite length_skipn, (Permutation_length (stable_sort_perm _ _)).
    rewrite length_store_keys. lia.
  - assert (E' : Z.of_nat (List.length s) <= n).
    { destruct (Z.gtb_spec (Z.of_nat (List.length s)) n);
        [discriminate|assumption]. }
    cbn [existsb negb].
    assert (Hall : filter (fun _ : Key => true) (store_keys s) = store_keys s).
    { induction (store_keys s) as [|y l IH]; [reflexivity|].
      cbn [filter]. now rewrite IH. }
    rewrite Hall, length_store_keys. lia.
Qed.

(** The survivors are the most recent: a record that retention removed
    is not newer than any record that it kept. *)
Lemma retain_most_recent (n : Z) (s : list Backup) (x y : Backup) :
  store_wf s ->
  In x s -> ~ In x (retain n s) -> In y (retain n s) ->
  timestamp x <= timestamp y.
Proof.
  intros Hwf Hx Hgone Hy. unfold retain in *.
  rewrite in_remove_keys in Hgone, Hy. destruct Hy as [Hy Hkept].
  assert (Hev : In (key_of x) (evicted n s)).
  { destruct (in_dec (fun a b => Bool.reflect_dec _ _
                        (iff_reflect _ _ (iff_sym (key_eqb_eq a b))))
                     (key_of x) (evicted n s)); [assumption|tauto]. }
  clear Hgone. unfold evicted in *.
  destruct (Z.of_nat (List.length (store_keys s)) >? n); [|contradiction].
  set (d := Z.to_nat (Z.of_nat (List.length (store_keys s)) - n)) in *.
  assert (Hyk : In (key_of y) (skipn d (stable_sort ts_le (store_keys s)))).
  { assert (Hin : In (key_of y) (stable_sort ts_le (store_keys s))).
    { apply (Permutation_in _ (Permutation_sym (stable_sort_perm _ _))).
      now apply in_map. }
    rewrite <- (firstn_skipn d) in Hin. apply in_app_or in Hin.
    destruct Hin; [contradiction|assumption]. }
  change (snd (key_of x) <= snd (key_of y)).
  apply strongly_sorted_split
    with (firstn d (stable_sort ts_le (store_keys s)))
         (skipn d (stable_sort ts_le (store_keys s))); try assumption.
  rewrite firstn_skipn. apply stable_sort_ts.
Qed.

(** A record strictly newer than every other record survives any bound
    of at least one. *)
Lemma retain_keeps_newest (n : Z) (s : list Backup) (b : Backup) :
  store_wf s -> 1 <= n -> In b s ->
  (forall x, In x s -> key_of x <> key_of b -> timestamp x < timestamp b) ->
  In b (retain n s).
Proof.
  intros Hwf Hn Hb Hnew.
  destruct (in_dec (fun a b => Bool.reflect_dec _ _
                      (iff_reflect _ _ (iff_sym (key_eqb_eq a b))))
                   (key_of b) (evicted n s)) as [Hev|Hkeep];
    [|unfold retain; rewrite in_remove_keys; now split].
  exfalso.
  assert (Hlen : Z.of_nat (List.length (retain n s))
                 = Z.min (Z.of_nat (List.length s)) n)
    by (apply retain_length; [assumption|lia]).
  assert (Hs : (0 < List.length s)%nat)
    by (destruct s; [contradiction|cbn; lia]).
  destruct (retain n s) as [|y r] eqn:Hr; [cbn in Hlen; lia|].
  assert (Hy : In y (retain n s)) by (rewrite Hr; now left).
  assert (Hle : timestamp b <= timestamp y).
  { apply retain_most_recent with n s; try assumption.
    unfold retain. rewrite in_remove_keys. tauto. }
  assert (Hys : In y s) by (eapply retain_incl; eassumption).
  assert (Hne : key_of y <> key_of b).
  { intro E. unfold retain in Hy. rewrite in_remove_keys in Hy.
    destruct Hy as [_ Hy]. apply Hy. now rewrite E. }
  specialize (Hnew y Hys Hne). lia.
Qed.

Lemma remove_keys_filter (ks : list Key) :
  forall s,
    remove_keys ks s
    = filter (fun x => negb (existsb (key_eqb (key_of x)) ks)) s.
Proof.
  induction ks as [|k ks IH]; intro s; cbn [remove_keys fold_left].
  - cbn [existsb negb]. induction s as [|y l IHl]; [reflexivity|].
    cbn [filter]. now rewrite <- IHl.
  - fold (remove_keys ks (store_delete k s)). rewrite IH.
    unfold store_delete.
    induction s as [|y l IHl]; [reflexivity|].
    cbn [filter existsb].
    destruct (key_eqb (key_of y) k); cbn [negb orb filter]; [exact IHl|].
    destruct (existsb (key_eqb (key_of y)) ks); cbn [negb]; now rewrite IHl.
Qed.

Lemma filter_split_perm {A : Type} (f : A -> bool) (l : list A) :
  Permutation (filter f l ++ filter (fun x => negb (f x)) l) l.
Proof.
  induction l as [|x l IH]; [constructor|].
  cbn [filter]. destruct (f x); cbn [negb app].
  - now constructor.
  - apply Permutation_sym, Permutation_cons_app, Permutation_sym, IH.
Qed.

(** Retention splits the store into the records it deletes and the
    records it keeps; none of the deleted is newer than one of the
    kept. *)
Lemma retain_splits (n : Z) (s : list Backup) :
  store_wf s -> 0 <= n ->
  exists deleted : list Backup,
    Permutation (deleted ++ retain n s) s
    /\ Z.of_nat (List.length deleted)
       = Z.max 0 (Z.of_nat (List.length s) - n)
    /\ forall x y : Backup,
         In x deleted -> In y (retain n s) -> timestamp x <= timestamp y.
Proof.
  intros Hwf Hn.
  exists (filter (fun x => existsb (key_eqb (key_of x)) (evicted n s)) s).
  assert (Hperm : Permutation
            (filter (fun x => existsb (key_eqb (key_of x)) (evicted n s)) s
               ++ retain n s) s).
  { unfold retain. rewrite remove_keys_filter. apply filter_split_perm. }
  split; [exact Hperm|]. split.
  - apply Permutation_length in Hperm. rewrite length_app in Hperm.
    pose proof (retain_length n s Hwf Hn). lia.
  - intros x y Hx Hy. apply filter_In in Hx. destruct Hx as [Hx Hev].
    apply retain_most_recent with n s; try assumption.
    unfold retain. rewrite in_remove_keys. intros [_ Hk]. apply Hk.
    now apply existsb_key_in.
Qed.

(* ================================================================= *)
(** ** What the store calls do *)

Section StoreCalls.

Variable env : Env.

Lemma saveBackupToDB_cases (b : Backup) (w : World) :
  saveBackupToDB env b w
  = match db_fault env (OpPut (key_of b)) with
    | NoFault =>
        (Ret tt,
         set_store (store_put b (store w))
                   (add_event (EvDb (OpPut (key_of b))) w))
    | OpenFails e => (Throw e, w)
    | TxFails e => (Throw e, add_event (EvDb (OpPut (key_of b))) w)
    end.
Proof.
  unfold saveBackupToDB, getDB, transaction, try_catch, bind.
  destruct (db_fault env (OpPut (key_of b))); reflexivity.
Qed.

Lemma deleteBackup_cases (ck : string) (ts : Z) (w : World) :
  deleteBackup env ck ts w
  = match db_fault env (OpDelete (ck, ts)) with
    | NoFault =>
        (Ret tt,
         set_store (store_delete (ck, ts) (store w))
                   (add_event (EvDb (OpDelete (ck, ts))) w))
    | OpenFails e => (Throw e, w)
    | TxFails e => (Throw e, add_event (EvDb (OpDelete (ck, ts))) w)
    end.
Proof.
  unfold deleteBackup, getDB, transaction, try_catch, bind.
  destruct (db_fault env (OpDelete (ck, ts))); reflexivity.
Qed.

Lemma getBackupsForChat_cases (ck : string) (w : World) :
  getBackupsForChat env ck w
  = match db_fault env (OpGetAll ck) with
    | NoFault =>
        (Ret (store_by_chatKey ck (store w)), add_event (EvDb (OpGetAll ck)) w)
    | OpenFails e => (Throw e, w)
    | TxFails e => (Ret [], add_event (EvDb (OpGetAll ck)) w)
    end.
Proof.
  unfold getBackupsForChat, getDB, transaction, try_catch, bind.
  destruct (db_fault env (OpGetAll ck)); reflexivity.
Qed.

Lemma getAllBackupKeys_cases (w : World) :
  getAllBackupKeys env w
  = match db_fault env OpGetAllKeys with
    | NoFault => (Ret (store_keys (store w)), add_event (EvDb OpGetAllKeys) w)
    | OpenFails e => (Throw e, w)
    | TxFails e => (Ret [], add_event (EvDb OpGetAllKeys) w)
    end.
Proof.
  unfold getAllBackupKeys, getDB, transaction, try_catch, bind.
  destruct (db_fault env OpGetAllKeys); reflexivity.
Qed.

Lemma deleteBackup_store (ck : string) (ts : Z) (w w' : World) (r : Res unit) :
  deleteBackup env ck ts w = (r, w') ->
  match r with
  | Ret _ => store w' = store_delete (ck, ts) (store w)
  | Throw _ => store w' = store w
  end.
Proof.
  rewrite deleteBackup_cases.
  destruct (db_fault env (OpDelete (ck, ts)));
    intro H; inversion H; reflexivity.
Qed.

Lemma saveBackupToDB_store (b : Backup) (w w' : World) (r : Res unit) :
  saveBackupToDB env b w = (r, w') ->
  match r with
  | Ret _ => store w' = store_put b (store w)
  | Throw _ => store w' = store w
  end.
Proof.
  rewrite saveBackupToDB_cases.
  destruct (db_fault env (OpPut (key_of b)));
    intro H; inversion H; reflexivity.
Qed.

(** When all the deletions of a [Promise.all] resolve, every key of the
    list has left the store. *)
Lemma promise_all_deletes (ks : list Key) :
  forall (w w' : World) (l : list unit),
    promise_all (map (fun key => deleteBackup env (fst key) (snd key)) ks) w
    = (Ret l, w') ->
    store w' = remove_keys ks (store w).
Proof.
  induction ks as [|[ck ts] ks IH]; intros w w' l H.
  - inversion H. reflexivity.
  - cbn [map promise_all fst snd] in H.
    destruct (deleteBackup env ck ts w) as [[u|e] w1] eqn:Hd;
      [|discriminate].
    apply deleteBackup_store in Hd.
    destruct (promise_all _ w1) as [[l'|e] w2] eqn:Hrest; [|discriminate].
    inversion H; subst. cbn [remove_keys fold_left].
    rewrite <- Hd. fold (remove_keys ks (store w1)). now apply IH with l'.
Qed.

(** The cleanup step, when it completes and the key listing succeeded,
    retains the store under the configured bound. *)
Lemma cleanup_retains (settings : Settings) (w w' : World) :
  db_fault env OpGetAllKeys = NoFault ->
  cleanup_old_backups env settings w = (Ret tt, w') ->
  store w' = retain (maxTotalBackups settings) (store w).
Proof.
  intros Hok H. unfold cleanup_old_backups, bind in H.
  rewrite getAllBackupKeys_cases, Hok in H.
  unfold retain, evicted.
  destruct (Z.of_nat (List.length (store_keys (store w)))
            >? maxTotalBackups settings).
  - destruct (promise_all _ _) as [[l|e] w1] eqn:Hp; [|discriminate].
    inversion H; subst. apply promise_all_deletes in Hp. exact Hp.
  - inversion H. reflexivity.
Qed.

(** A cleanup that throws has deleted some of the keys, never added. *)
Lemma cleanup_only_removes (settings : Settings) (w w' : World)
  (r : Res unit) (x : Backup) :
  cleanup_old_backups env settings w = (r, w') ->
  In x (store w') -> In x (store w).
Proof.
  unfold cleanup_old_backups, bind. rewrite getAllBackupKeys_cases.
  assert (Hdel : forall ks w0,
    In x (store (snd (promise_all
             (map (fun key => deleteBackup env (fst key) (snd key)) ks) w0))) ->
    In x (store w0)).
  { induction ks as [|[ck ts] ks IH]; intros w0 Hx; [exact Hx|].
    cbn [map promise_all fst snd] in Hx.
    destruct (deleteBackup env ck ts w0) as [[u|e] w1] eqn:Hd;
      apply deleteBackup_store in Hd.
    - assert (Hx1 : In x (store w1)).
      { apply IH. destruct (promise_all _ w1) as [[l|e] w2]; exact Hx. }
      rewrite Hd in Hx1. apply in_store_delete in Hx1. tauto.
    - cbn [snd] in Hx. apply IH in Hx. now rewrite Hd in Hx. }
  destruct (db_fault env OpGetAllKeys).
  - destruct (_ >? _).
    + intros H Hx.
      set (ks := firstn _ _) in H.
      specialize (Hdel ks (add_event (EvDb OpGetAllKeys) w)).
      destruct (promise_all _ _) as [[l|e] w1];
        cbn [snd] in Hdel; inversion H; subst; now apply Hdel.
    + intro H. inversion H. intro Hx. exact Hx.
  - intro H. inversion H. intro Hx. exact Hx.
  - cbn [List.length Z.of_nat]. rewrite firstn_nil.
    destruct (0 >? _); cbn; intro H; inversion H; intro Hx; exact Hx.
Qed.

End StoreCalls.

(* ================================================================= *)
(** ** The store after a cycle *)

(** The stored backup of the same chat that de-duplication compares
    with the candidate [b]: the first one, in the order of the index,
    whose [lastMessageId] is that of [b]. *)
Definition dedup_match (b : Backup) (s : list Backup) : option Backup :=
  find (fun x => lastMessageId x =? lastMessageId b)
       (store_by_chatKey (chatKey b) s).

(** Result and store of steps 3 to 6 for a candidate [b] on a store [s]
    under the bound [n], when no store call fails. *)
Definition stored_after (n : Z) (b : Backup) (s : list Backup)
  : bool * list Backup :=
  match dedup_match b s with
  | Some existing =>
      if timestamp b >? timestamp existing
      then (true,
            retain n (store_put b
                        (store_delete (chatKey b, timestamp existing) s)))
      else (false, s)
  | None => (true, retain n (store_put b s))
  end.

Section CycleStore.

Variable env : Env.

Lemma store_backup_spec (settings : Settings) (b : Backup)
  (w w' : World) (r : bool) :
  db_fault env (OpGetAll (chatKey b)) = NoFault ->
  db_fault env OpGetAllKeys = NoFault ->
  store_backup env settings b w = (Ret r, w') ->
  (r, store w') = stored_after (maxTotalBackups settings) b (store w).
Proof.
  intros Hread Hkeys H. unfold store_backup, bind in H.
  rewrite getBackupsForChat_cases, Hread in H.
  unfold stored_after, dedup_match.
  destruct (find _ (store_by_chatKey (chatKey b) (store w)))
    as [existing|].
  - destruct (timestamp b >? timestamp existing).
    + destruct (deleteBackup env _ _ _) as [[u|e] w1] eqn:Hd;
        [|discriminate].
      apply deleteBackup_store in Hd. cbn [ret negb] in H.
      destruct (saveBackupToDB env b w1) as [[u1|e] w2] eqn:Hs;
        [|discriminate].
      apply saveBackupToDB_store in Hs.
      destruct (cleanup_old_backups env settings w2) as [[[]|e] w3] eqn:Hc;
        [|discriminate].
      apply cleanup_retains in Hc; [|exact Hkeys].
      inversion H; subst. rewrite Hc, Hs, Hd. reflexivity.
    + inversion H. reflexivity.
  - cbn [ret negb] in H.
    destruct (saveBackupToDB env b _) as [[u1|e] w2] eqn:Hs;
      [|discriminate].
    apply saveBackupToDB_store in Hs.
    destruct (cleanup_old_backups env settings w2) as [[[]|e] w3] eqn:Hc;
      [|discriminate].
    apply cleanup_retains in Hc; [|exact Hkeys].
    inversion H; subst. rewrite Hc, Hs. reflexivity.
Qed.

(** A cycle that returns [true] has saved the candidate into the store
    it started from, after deleting at most the older backup of the same
    chat and index, and then run the cleanup. *)
Lemma store_backup_saved (settings : Settings) (b : Backup) (w w' : World) :
  db_fault env OpGetAllKeys = NoFault ->
  store_backup env settings b w = (Ret true, w') ->
  exists before : list Backup,
    store w' = retain (maxTotalBackups settings) before
    /\ (before = store_put b (store w)
        \/ exists old : Backup,
             In old (store w)
             /\ chatKey old = chatKey b
             /\ lastMessageId old = lastMessageId b
             /\ timestamp old < timestamp b
             /\ before = store_put b (store_delete (key_of old) (store w))).
Proof.
  intros Hkeys H. unfold store_backup, bind in H.
  rewrite getBackupsForChat_cases in H.
  assert (Hsave : forall w1,
    (u <- saveBackupToDB env b ;; v <- cleanup_old_backups env settings ;;
     ret true) w1 = (Ret true, w') ->
    store w' = retain (maxTotalBackups settings) (store_put b (store w1))).
  { intros w1 H1. unfold bind in H1.
    destruct (saveBackupToDB env b w1) as [[u1|e] w2] eqn:Hs;
      [|discriminate].
    apply saveBackupToDB_store in Hs.
    destruct (cleanup_old_backups env settings w2) as [[[]|e] w3] eqn:Hc;
      [|discriminate].
    apply cleanup_retains in Hc; [|exact Hkeys].
    inversion H1; subst. now rewrite <- Hs. }
  destruct (db_fault env (OpGetAll (chatKey b))) as [|e|e]; [| discriminate |].
  - destruct (find _ (store_by_chatKey (chatKey b) (store w)))
      as [old|] eqn:Hfind.
    + apply find_some in Hfind. destruct Hfind as [Hin Hidx].
      apply filter_In in Hin. destruct Hin as [Hin Hck].
      apply String.eqb_eq in Hck. apply Z.eqb_eq in Hidx.
      destruct (timestamp b >? timestamp old) eqn:Hgt.
      * destruct (deleteBackup env _ _ _) as [[u|e] w1] eqn:Hd;
          [|discriminate].
        apply deleteBackup_store in Hd. cbn [ret negb] in H.
        apply Hsave in H. exists (store_put b (store w1)).
        split; [exact H|]. right. exists old.
        rewrite Hd, store_add_event. unfold key_of. rewrite Hck.
        repeat split; try assumption. now apply Z.gtb_lt in Hgt.
      * discriminate.
    + cbn [ret negb] in H. apply Hsave in H.
      rewrite store_add_event in H.
      exists (store_put b (store w)). split; [exact H|now left].
  - cbn [find ret negb] in H. apply Hsave in H.
    rewrite store_add_event in H.
    exists (store_put b (store w)). split; [exact H|now left].
Qed.

(** Whatever fails, a cycle adds at most the candidate to the store. *)
Lemma store_backup_adds_only_candidate (settings : Settings) (b : Backup)
  (w w' : World) (r : Res bool) (x : Backup) :
  store_backup env settings b w = (r, w') ->
  In x (store w') -> x = b \/ In x (store w).
Proof.
  unfold store_backup, bind. intros H Hx.
  destruct (getBackupsForChat env (chatKey b) w) as [[existing|e] w0] eqn:Hg.
  2:{ inversion H; subst.
      pose proof (reads_only_getBackupsForChat env (chatKey b) w) as [Hs _].
      rewrite Hg in Hs. cbn [snd] in Hs. right. now rewrite <- Hs. }
  assert (Hw0 : store w0 = store w)
    by (pose proof (reads_only_getBackupsForChat env (chatKey b) w) as [Hs _];
        rewrite Hg in Hs; exact Hs).
  assert (Hsave : forall w1,
    (forall y, In y (store w1) -> In y (store w)) ->
    (u <- saveBackupToDB env b ;; v <- cleanup_old_backups env settings ;;
     ret true) w1 = (r, w') ->
    x = b \/ In x (store w)).
  { intros w1 Hsub H1. unfold bind in H1.
    destruct (saveBackupToDB env b w1) as [[u1|e] w2] eqn:Hs;
      apply saveBackupToDB_store in Hs.
    - assert (Hx2 : In x (store w2)).
      { destruct (cleanup_old_backups env settings w2) as [rc w3] eqn:Hc.
        apply (cleanup_only_removes env settings w2 w3 rc x Hc).
        destruct rc; inversion H1; subst; exact Hx. }
      rewrite Hs in Hx2. apply in_store_put in Hx2.
      destruct Hx2 as [->|[Hx2 _]]; [now left|right; now apply Hsub].
    - inversion H1; subst. right. apply Hsub. now rewrite <- Hs. }
  destruct (find _ existing) as [old|].
  - destruct (timestamp b >? timestamp old).
    + destruct (deleteBackup env _ _ w0) as [[u|e] w1] eqn:Hd;
        apply deleteBackup_store in Hd.
      * cbn [ret negb] in H. apply (Hsave w1); [|exact H].
        intros y Hy. rewrite Hd, Hw0 in Hy.
        apply in_store_delete in Hy. tauto.
      * inversion H; subst. right. now rewrite Hd, Hw0 in Hx.
    + inversion H; subst. right. now rewrite <- Hw0.
  - cbn [ret negb] in H. apply (Hsave w0); [|exact H].
    intros y Hy. now rewrite <- Hw0.
Qed.

End CycleStore.

Section CoreCycle.

Variable env : Env.

Lemma try_catch_rethrow {A : Type} (m : M A) (w : World) :
  try_catch m (fun error => throw error) w = m w.
Proof. unfold try_catch. destruct (m w) as [[a|e] w']; reflexivity. Qed.

Lemma finally_nothing {A : Type} (m : M A) (w : World) :
  finally m (ret tt) w = m w.
Proof. unfold finally. destruct (m w) as [r w']. reflexivity. Qed.

Lemma reads_only_fetch_raw_chat (context : Context) (info : ChatInfo) :
  reads_only (fetch_raw_chat env context info).
Proof.
  unfold fetch_raw_chat. destruct (ci_isGroup info).
  - apply reads_only_bind; [apply reads_only_js_fetch|intro resp].
    repeat reads_only_step.
  - apply reads_only_bind; [apply reads_only_get_world|intro w0].
    match goal with
    | |- reads_only (match ?x with _ => _ end) => destruct x
    end; [|apply reads_only_throw_error].
    apply reads_only_bind; [apply reads_only_js_fetch|intro resp].
    repeat reads_only_step.
Qed.

(** The index of the last message of the chat in the context. *)
Definition last_message_index (c : Context) : Z :=
  match chat c with
  | Some l => Z.of_nat (List.length l) - 1
  | None => -1
  end.

(** The cycle, for a chat with a key and messages, either fails before
    it touches the store, or builds a candidate -- keyed by the chat key,
    dated by the clock, indexed by the last message -- and hands it to
    steps 3 to 6. *)
Lemma core_builds_candidate (settings : Settings) (w w' : World)
  (key : string) (res : Res bool) :
  chat_key_of (context (host w)) = Some key ->
  has_messages (context (host w)) = true ->
  executeBackupLogic_Core env settings w = (res, w') ->
  (exists (b : Backup) (w1 : World),
     chatKey b = key
     /\ timestamp b = now env
     /\ lastMessageId b = last_message_index (context (host w))
     /\ store w1 = store w
     /\ store_backup env settings b w1 = (res, w'))
  \/ (exists e, res = Throw e /\ store w' = store w).
Proof.
  intros Hkey Hmsgs. unfold executeBackupLogic_Core, bind.
  rewrite getCurrentChatKey_eq, Hkey.
  destruct (getCurrentChatInfo_world (add_event EvGetContext w))
    as [Hw [info Hinfo]].
  destruct (getCurrentChatInfo (add_event EvGetContext w)) as [r0 w0].
  cbn [fst snd] in Hw, Hinfo. subst r0 w0.
  rewrite getContext_eq, !host_add_event.
  unfold has_messages in Hmsgs. unfold last_message_index.
  destruct (chat (context (host w))) as [[|m ms]|]; try discriminate.
  cbn [lift].
  destruct (message_preview _) as [preview|e].
  2:{ intro H. inversion H; subst. right. exists e. now split. }
  rewrite finally_nothing, try_catch_rethrow. unfold bind.
  set (w2 := add_event EvGetContext _).
  pose proof (reads_only_fetch_raw_chat (context (host w)) info w2)
    as [Hstore _].
  destruct (fetch_raw_chat env (context (host w)) info w2)
    as [[raw|e] w3]; cbn [snd] in Hstore.
  2:{ intro H. inversion H; subst. right. exists e. now split. }
  destruct (raw_truthy raw); cbn [negb].
  - intro H. left. eexists. exists w3.
    split; [|split; [|split; [|split; [|exact H]]]]; try reflexivity.
    exact Hstore.
  - intro H. inversion H; subst. right. eexists. split; [reflexivity|].
    exact Hstore.
Qed.

End CoreCycle.

(* ================================================================= *)
(** ** Retention *)

Section Retention.

Variable env : Env.

(** C1, as the code has it.  Let a cycle return [true] on a store with
    distinct keys, under a bound that is not negative, the key listing
    of the cleanup step having succeeded (a listing that fails is
    answered by the empty list, and nothing is deleted then).  The cycle
    has put its candidate [b] (keyed by the current chat, dated by the
    clock) into the store it started from, after deleting at most the
    older backup of the same chat and index; call the result [before].
    The cleanup then splits [before] into the backups it deletes and the
    final store: it deletes [count - maxTotalBackups] of them when
    [before] holds more than [maxTotalBackups] and none otherwise, and
    no deleted backup is newer than a surviving one, whatever chat they
    belong to.  The final store is the retention of [before] as the code
    computes it (the first keys in ascending order of timestamp go), and
    it and the list of keys that [getAllBackupKeys] returns hold at most
    [maxTotalBackups] entries. *)
Theorem retention_bound_after_cycle (settings : Settings) (w w' : World) :
  store_wf (store w) ->
  0 <= maxTotalBackups settings ->
  db_fault env OpGetAllKeys = NoFault ->
  executeBackupLogic_Core env settings w = (Ret true, w') ->
  exists (b : Backup) (before deleted : list Backup),
    (timestamp b = now env
     /\ chat_key_of (context (host w)) = Some (chatKey b))
    /\ (before = store_put b (store w)
        \/ exists old : Backup,
             In old (store w)
             /\ chatKey old = chatKey b
             /\ lastMessageId old = lastMessageId b
             /\ timestamp old < timestamp b
             /\ before = store_put b (store_delete (key_of old) (store w)))
    /\ Permutation (deleted ++ store w') before
    /\ Z.of_nat (List.length deleted)
       = Z.max 0 (Z.of_nat (List.length before) - maxTotalBackups settings)
    /\ (forall x y : Backup,
          In x deleted -> In y (store w') -> timestamp x <= timestamp y)
    /\ store w' = retain (maxTotalBackups settings) before
    /\ fst (getAllBackupKeys env w') = Ret (store_keys (store w'))
    /\ Z.of_nat (List.length (store_keys (store w')))
       <= maxTotalBackups settings.
Proof.
  intros Hwf Hn Hkeys H.
  destruct (chat_key_of (context (host w))) as [key|] eqn:Hkey;
    [|rewrite core_skips_without_key in H by assumption; discriminate].
  destruct (has_messages (context (host w))) eqn:Hmsgs;
    [|rewrite (core_skips_empty_chat env settings w key) in H by assumption;
      discriminate].
  destruct (core_builds_candidate env settings w w' key (Ret true)
              Hkey Hmsgs H)
    as [[b [w1 [Hb1 [Hb2 [Hb3 [Hstore Hrun]]]]]] | [e [He _]]];
    [|discriminate].
  destruct (store_backup_saved env settings b w1 w' Hkeys Hrun)
    as [before [Hret Hfrom]].
  rewrite Hstore in Hfrom.
  assert (Hwfb : store_wf before).
  { destruct Hfrom as [->|[old [_ [_ [_ [_ ->]]]]]].
    - now apply store_wf_put.
    - now apply store_wf_put, store_wf_delete. }
  destruct (retain_splits (maxTotalBackups settings) before Hwfb Hn)
    as [deleted [Hperm [Hlen Hold]]].
  exists b, before, deleted. rewrite Hret.
  split; [rewrite Hb1; auto|]. split; [exact Hfrom|].
  split; [exact Hperm|]. split; [exact Hlen|]. split; [exact Hold|].
  split; [reflexivity|].
  split; [rewrite getAllBackupKeys_cases, Hkeys, <- Hret; reflexivity|].
  rewrite length_store_keys, (retain_length _ _ Hwfb Hn). lia.
Qed.

End Retention.

(** The scenario of the specification: with a bound of three, backups
    taken at the indices 0, 1, 2 and 3 at increasing times leave the
    keys of the indices 1, 2 and 3. *)
Definition world_with_chat_length (n : nat) (s : list Backup) : World :=
  mkWorld s false None [] 0 false
    (mkHost (mkContext None (Some 0%nat) (Some "chatA")
                       (Some (repeat (sample_message "hi") n))
                       (Some "Alice") None)
            (Some [mkCharacter "Alice" (Some "chatA") "alice.png" None])
            None)
    (Some (sample_settings 3)) [].

Definition store_after_cycle (t : Z) (n : nat) (s : list Backup) : list Backup :=
  store (snd (executeBackupLogic_Core (sample_env sample_chat_file t)
                (sample_settings 3) (world_with_chat_length n s))).

Definition four_backups : list Backup :=
  store_after_cycle 4000 4
    (store_after_cycle 3000 3
       (store_after_cycle 2000 2
          (store_after_cycle 1000 1 []))).

Example four_backups_keep_three :
  map (fun b => (timestamp b, lastMessageId b)) four_backups
  = [(2000, 1); (3000, 2); (4000, 3)].
Proof. vm_compute. reflexivity. Qed.

Definition three_backups : list Backup :=
  store_after_cycle 3000 3
    (store_after_cycle 2000 2
       (store_after_cycle 1000 1 [])).

Lemma retention_bound_after_cycle_witness :
  let env := sample_env sample_chat_file 4000 in
  let w := world_with_chat_length 4 three_backups in
  let w' := snd (executeBackupLogic_Core env (sample_settings 3) w) in
  exists (b : Backup) (before deleted : list Backup),
    (timestamp b = now env
     /\ chat_key_of (context (host w)) = Some (chatKey b))
    /\ (before = store_put b (store w)
        \/ exists old : Backup,
             In old (store w)
             /\ chatKey old = chatKey b
             /\ lastMessageId old = lastMessageId b
             /\ timestamp old < timestamp b
             /\ before = store_put b (store_delete (key_of old) (store w)))
    /\ Permutation (deleted ++ store w') before
    /\ Z.of_nat (List.length deleted)
       = Z.max 0 (Z.of_nat (List.length before) - 3)
    /\ (forall x y : Backup,
          In x deleted -> In y (store w') -> timestamp x <= timestamp y)
    /\ store w' = retain 3 before
    /\ fst (getAllBackupKeys env w') = Ret (store_keys (store w'))
    /\ Z.of_nat (List.length (store_keys (store w'))) <= 3.
Proof.
  cbv zeta.
  apply (retention_bound_after_cycle
           (sample_env sample_chat_file 4000) (sample_settings 3)
           (world_with_chat_length 4 three_backups)).
  - unfold store_wf. vm_compute.
    repeat constructor; cbn [In]; intuition discriminate.
  - vm_compute. discriminate.
  - reflexivity.
  - vm_compute. reflexivity.
Defined.

(* ================================================================= *)
(** ** De-duplication on the index of the last message *)

(** [x] is a backup of the chat of [b] at the last-message index of [b]. *)
Definition same_slot (b x : Backup) : bool :=
  (chatKey x =? chatKey b)%string && (lastMessageId x =? lastMessageId b).

(** At most one stored backup for a chat and a last-message index. *)
Definition unique_index (s : list Backup) : Prop :=
  forall x y : Backup,
    In x s -> In y s ->
    chatKey x = chatKey y -> lastMessageId x = lastMessageId y -> x = y.

Lemma same_slot_true (b x : Backup) :
  same_slot b x = true
  <-> chatKey x = chatKey b /\ lastMessageId x = lastMessageId b.
Proof.
  unfold same_slot. now rewrite andb_true_iff, String.eqb_eq, Z.eqb_eq.
Qed.

Lemma find_filter {A : Type} (f g : A -> bool) (l : list A) :
  find f (filter g l) = find (fun x => g x && f x) l.
Proof.
  induction l as [|x l IH]; [reflexivity|]. cbn [filter find].
  destruct (g x); cbn [andb find]; [now rewrite IH|exact IH].
Qed.

Lemma dedup_match_find (b : Backup) (s : list Backup) :
  dedup_match b s = find (same_slot b) s.
Proof. unfold dedup_match, store_by_chatKey. apply find_filter. Qed.

Lemma dedup_match_some (b e : Backup) (s : list Backup) :
  dedup_match b s = Some e -> In e s /\ same_slot b e = true.
Proof. rewrite dedup_match_find. apply find_some. Qed.

Lemma dedup_match_none (b : Backup) (s : list Backup) :
  dedup_match b s = None -> forall x, In x s -> same_slot b x = false.
Proof. rewrite dedup_match_find. apply find_none. Qed.

(** With at most one stored backup in the slot of [b], that one is the
    match. *)
Lemma dedup_match_the_one (b e : Backup) (s : list Backup) :
  In e s -> same_slot b e = true ->
  (forall x, In x s -> same_slot b x = true -> x = e) ->
  dedup_match b s = Some e.
Proof.
  intros Hin Hslot Honly.
  destruct (dedup_match b s) as [e'|] eqn:Hm.
  - apply dedup_match_some in Hm. destruct Hm as [Hin' Hslot'].
    f_equal. now apply Honly.
  - apply dedup_match_none with (x := e) in Hm; [congruence|exact Hin].
Qed.

(** A candidate newer than everything stored is saved, replaces the
    stored backup of its slot, and survives the cleanup. *)
Lemma supersede_step (n : Z) (b : Backup) (s : list Backup) :
  store_wf s ->
  (forall x y, In x s -> In y s ->
               same_slot b x = true -> same_slot b y = true -> x = y) ->
  1 <= n ->
  (forall x, In x s -> timestamp x < timestamp b) ->
  exists s' : list Backup,
    stored_after n b s = (true, s')
    /\ store_wf s' /\ In b s'
    /\ (forall x, In x s' -> x = b \/ (In x s /\ same_slot b x = false)).
Proof.
  intros Hwf Huniq Hn Hnew. unfold stored_after.
  assert (Hkeep : forall sd,
    store_wf sd ->
    (forall x, In x sd -> In x s /\ same_slot b x = false) ->
    store_wf (retain n (store_put b sd))
    /\ In b (retain n (store_put b sd))
    /\ (forall x, In x (retain n (store_put b sd)) ->
                  x = b \/ (In x s /\ same_slot b x = false))).
  { intros sd Hwfd Hsd.
    split; [now apply store_wf_retain, store_wf_put|]. split.
    - apply retain_keeps_newest; [now apply store_wf_put|exact Hn| |].
      + apply in_store_put. now left.
      + intros x Hx Hne. apply in_store_put in Hx.
        destruct Hx as [->|[Hx _]]; [congruence|].
        apply Hnew, Hsd, Hx.
    - intros x Hx. apply retain_incl, in_store_put in Hx.
      destruct Hx as [->|[Hx _]]; [now left|right; now apply Hsd]. }
  destruct (dedup_match b s) as [e|] eqn:Hm.
  - apply dedup_match_some in Hm. destruct Hm as [Hin Hslot].
    assert (Hgt : (timestamp b >? timestamp e) = true)
      by (apply Z.gtb_lt, Hnew, Hin).
    rewrite Hgt. eexists. split; [reflexivity|].
    apply Hkeep; [now apply store_wf_delete|].
    intros x Hx. apply in_store_delete in Hx. destruct Hx as [Hx Hne].
    split; [exact Hx|].
    destruct (same_slot b x) eqn:Hsx; [|reflexivity].
    exfalso. apply Hne.
    rewrite (Huniq x e Hx Hin Hsx Hslot).
    apply same_slot_true in Hslot. destruct Hslot as [<- _]. reflexivity.
  - eexists. split; [reflexivity|].
    apply Hkeep; [exact Hwf|].
    intros x Hx. split; [exact Hx|]. now apply dedup_match_none with s.
Qed.

(** The invariant of the data model: a cycle keeps at most one stored
    backup per chat and last-message index. *)
Lemma stored_after_unique_index (n : Z) (b : Backup) (s : list Backup) :
  unique_index s -> unique_index (snd (stored_after n b s)).
Proof.
  intro Huniq. unfold stored_after.
  assert (Hput : forall sd,
    (forall x, In x sd -> In x s /\ same_slot b x = false) ->
    unique_index (retain n (store_put b sd))).
  { intros sd Hsd x y Hx Hy Hck Hidx.
    apply retain_incl, in_store_put in Hx.
    apply retain_incl, in_store_put in Hy.
    destruct Hx as [->|[Hx _]], Hy as [->|[Hy _]]; [reflexivity| | |].
    - destruct (Hsd y Hy) as [_ Hslot].
      assert (same_slot b y = true)
        by (apply same_slot_true; split; congruence).
      congruence.
    - destruct (Hsd x Hx) as [_ Hslot].
      assert (same_slot b x = true)
        by (apply same_slot_true; split; congruence).
      congruence.
    - apply Huniq; try assumption; [apply Hsd, Hx|apply Hsd, Hy]. }
  destruct (dedup_match b s) as [e|] eqn:Hm.
  - apply dedup_match_some in Hm. destruct Hm as [Hin Hslot].
    destruct (timestamp b >? timestamp e); [|exact Huniq].
    apply Hput. intros x Hx. apply in_store_delete in Hx.
    destruct Hx as [Hx Hne]. split; [exact Hx|].
    destruct (same_slot b x) eqn:Hsx; [|reflexivity].
    exfalso. apply Hne.
    apply same_slot_true in Hsx, Hslot.
    destruct Hsx as [Hc Hi], Hslot as [Hc' Hi'].
    rewrite (Huniq x e Hx Hin); [|congruence|congruence].
    unfold key_of. now rewrite Hc'.
  - apply Hput. intros x Hx. split; [exact Hx|].
    now apply dedup_match_none with s.
Qed.

Section Dedup.

(** One cycle against a stored backup of the same chat and the same
    last-message index. *)
Lemma cycle_against_stored_backup
  (env : Env) (settings : Settings) (w w' : World) (r : bool)
  (key : string) (existing : Backup) :
  store_wf (store w) ->
  unique_index (store w) ->
  db_fault env (OpGetAll key) = NoFault ->
  db_fault env OpGetAllKeys = NoFault ->
  chat_key_of (context (host w)) = Some key ->
  has_messages (context (host w)) = true ->
  In existing (store w) ->
  chatKey existing = key ->
  lastMessageId existing = last_message_index (context (host w)) ->
  executeBackupLogic_Core env settings w = (Ret r, w') ->
  (timestamp existing < now env ->
   r = true
   /\ ~ In existing (store w')
   /\ exists candidate : Backup,
        chatKey candidate = key
        /\ timestamp candidate = now env
        /\ lastMessageId candidate = lastMessageId existing
        /\ store w'
           = retain (maxTotalBackups settings)
               (store_put candidate
                  (store_delete (key_of existing) (store w))))
  /\ (now env <= timestamp existing -> r = false /\ store w' = store w).
Proof.
  intros Hwf Huniq Hread Hkeys Hkey Hmsgs Hin Hck Hidx H.
  destruct (core_builds_candidate env settings w w' key (Ret r) Hkey Hmsgs H)
    as [[b [w1 [Hb1 [Hb2 [Hb3 [Hstore Hrun]]]]]] | [e [He _]]];
    [|discriminate].
  rewrite <- Hb1 in Hread.
  pose proof (store_backup_spec env settings b w1 w' r Hread Hkeys Hrun)
    as Hspec.
  rewrite Hstore in Hspec. unfold stored_after in Hspec.
  assert (Hslot : same_slot b existing = true)
    by (apply same_slot_true; split; congruence).
  rewrite (dedup_match_the_one b existing (store w) Hin Hslot) in Hspec.
  2:{ intros x Hx Hsx. apply same_slot_true in Hsx, Hslot.
      apply Huniq; try assumption; destruct Hsx, Hslot; congruence. }
  rewrite Hb2 in Hspec. split.
  - intro Hlt. pose proof Hlt as Hgt. apply Z.gtb_lt in Hgt.
    rewrite Hgt in Hspec. inversion Hspec as [[Hr Hs]].
    assert (Hk : (chatKey b, timestamp existing) = key_of existing)
      by (unfold key_of; now rewrite Hb1, Hck).
    rewrite Hk in Hs.
    split; [reflexivity|]. split.
    + rewrite Hs. intro Hex. apply retain_incl, in_store_put in Hex.
      destruct Hex as [Heq|[Hex _]].
      * rewrite Heq, Hb2 in Hlt. lia.
      * apply in_store_delete in Hex. destruct Hex as [_ Hne].
        now apply Hne.
    + exists b. split; [exact Hb1|]. split; [exact Hb2|].
      split; [congruence|exact Hs].
  - intro Hle.
    assert (Hgt : (now env >? timestamp existing) = false).
    { destruct (Z.gtb_spec (now env) (timestamp existing));
        [lia|reflexivity]. }
    rewrite Hgt in Hspec. inversion Hspec. now split.
Qed.

(** Two cycles in a row at the same last-message index. *)
Lemma two_cycles_same_index
  (env1 env2 : Env) (settings1 settings2 : Settings)
  (w0 w1 w1' w2 : World) (r1 r2 : bool) (key : string) :
  store_wf (store w0) ->
  unique_index (store w0) ->
  db_fault env1 (OpGetAll key) = NoFault ->
  db_fault env1 OpGetAllKeys = NoFault ->
  db_fault env2 (OpGetAll key) = NoFault ->
  db_fault env2 OpGetAllKeys = NoFault ->
  1 <= maxTotalBackups settings1 ->
  1 <= maxTotalBackups settings2 ->
  chat_key_of (context (host w0)) = Some key ->
  has_messages (context (host w0)) = true ->
  chat_key_of (context (host w1')) = Some key ->
  has_messages (context (host w1')) = true ->
  last_message_index (context (host w1'))
  = last_message_index (context (host w0)) ->
  (forall x, In x (store w0) -> timestamp x < now env1) ->
  now env1 <= now env2 ->
  executeBackupLogic_Core env1 settings1 w0 = (Ret r1, w1) ->
  store w1' = store w1 ->
  executeBackupLogic_Core env2 settings2 w1' = (Ret r2, w2) ->
  exists b : Backup,
    In b (store w2)
    /\ chatKey b = key
    /\ lastMessageId b = last_message_index (context (host w0))
    /\ timestamp b = now env2
    /\ (forall x, In x (store w2) ->
                  chatKey x = key ->
                  lastMessageId x = last_message_index (context (host w0)) ->
                  x = b).
Proof.
  intros Hwf Huniq Hread1 Hkeys1 Hread2 Hkeys2 Hn1 Hn2
         Hkey0 Hmsgs0 Hkey1 Hmsgs1 Hidx Hold Hclock Hrun1 Hsame Hrun2.
  destruct (core_builds_candidate env1 settings1 w0 w1 key (Ret r1)
              Hkey0 Hmsgs0 Hrun1)
    as [[b1 [v1 [Hc1 [Ht1 [Hi1 [Hs1 Hsb1]]]]]] | [e [He _]]];
    [|discriminate].
  destruct (core_builds_candidate env2 settings2 w1' w2 key (Ret r2)
              Hkey1 Hmsgs1 Hrun2)
    as [[b2 [v2 [Hc2 [Ht2 [Hi2 [Hs2 Hsb2]]]]]] | [e [He _]]];
    [|discriminate].
  rewrite <- Hc1 in Hread1. rewrite <- Hc2 in Hread2.
  pose proof (store_backup_spec env1 settings1 b1 v1 w1 r1
                Hread1 Hkeys1 Hsb1) as Hspec1.
  pose proof (store_backup_spec env2 settings2 b2 v2 w2 r2
                Hread2 Hkeys2 Hsb2) as Hspec2.
  rewrite Hs1 in Hspec1. rewrite Hs2, Hsame in Hspec2.
  (* first cycle: the candidate is newer than everything stored *)
  destruct (supersede_step (maxTotalBackups settings1) b1 (store w0))
    as [s1 [Hafter1 [Hwf1 [Hin1 Honly1]]]]; try assumption.
  { intros x y Hx Hy Hsx Hsy. apply same_slot_true in Hsx, Hsy.
    apply Huniq; try assumption; destruct Hsx, Hsy; congruence. }
  { intros x Hx. rewrite Ht1. now apply Hold. }
  rewrite Hafter1 in Hspec1. inversion Hspec1 as [[Hr1 Hst1]].
  rewrite Hst1 in Hspec2.
  assert (Hslot21 : same_slot b2 b1 = true)
    by (apply same_slot_true; split; congruence).
  assert (Hslot_eq : forall x, same_slot b2 x = same_slot b1 x).
  { intro x. unfold same_slot. now rewrite Hc1, Hc2, Hi1, Hi2, Hidx. }
  assert (Hthe_one : forall x, In x s1 -> same_slot b2 x = true -> x = b1).
  { intros x Hx Hsx. destruct (Honly1 x Hx) as [->|[_ Hf]]; [reflexivity|].
    rewrite Hslot_eq in Hsx. congruence. }
  destruct (Z.gtb_spec (timestamp b2) (timestamp b1)) as [Hgt|Hle].
  - (* later timestamp: the second candidate supersedes the first *)
    destruct (supersede_step (maxTotalBackups settings2) b2 s1)
      as [s2 [Hafter2 [Hwf2 [Hin2 Honly2]]]]; try assumption.
    { intros x y Hx Hy Hsx Hsy.
      rewrite (Hthe_one x Hx Hsx), (Hthe_one y Hy Hsy). reflexivity. }
    { intros x Hx. destruct (Honly1 x Hx) as [->|[Hx0 _]]; [lia|].
      specialize (Hold x Hx0). lia. }
    rewrite Hafter2 in Hspec2. inversion Hspec2 as [[Hr2 Hst2]].
    exists b2. rewrite Hst2.
    split; [exact Hin2|]. split; [exact Hc2|].
    split; [congruence|]. split; [exact Ht2|].
    intros x Hx Hcx Hix. destruct (Honly2 x Hx) as [->|[Hx1 Hf]];
      [reflexivity|].
    assert (same_slot b2 x = true)
      by (apply same_slot_true; split; congruence).
    congruence.
  - (* same timestamp: nothing changed, the cycle is skipped *)
    unfold stored_after in Hspec2.
    rewrite (dedup_match_the_one b2 b1 s1 Hin1 Hslot21 Hthe_one) in Hspec2.
    assert (Hgt : (timestamp b2 >? timestamp b1) = false).
    { destruct (Z.gtb_spec (timestamp b2) (timestamp b1));
        [lia|reflexivity]. }
    rewrite Hgt in Hspec2. inversion Hspec2 as [[Hr2 Hst2]].
    exists b1. rewrite Hst2.
    split; [exact Hin1|]. split; [exact Hc1|].
    split; [exact Hi1|]. split; [lia|].
    intros x Hx Hcx Hix. apply Hthe_one; [exact Hx|].
    apply same_slot_true. split; congruence.
Qed.

(** C2, as the code has it.  The store is taken to hold distinct keys
    and at most one backup per chat and last-message index when the
    first cycle starts; the cycles are taken to complete, with their
    reads of the store succeeding.  (1) A cycle whose candidate has the
    last-message index of a stored backup of the same chat: when the
    stored backup is strictly older than the candidate, it is deleted
    and the candidate is saved (the cleanup then runs on that store);
    otherwise the cycle returns [false] and the store is unchanged.
    (2) Two cycles in a row at the same last-message index leave exactly
    one stored backup of that chat at that index, dated by the clock of
    the second cycle (the later one); here the clock has advanced past
    every backup that was stored before, and the bound is at least one:
    the cleanup is global and would otherwise delete the candidate just
    saved. *)
Theorem same_index_supersedes_or_skips :
  (forall (env : Env) (settings : Settings) (w w' : World) (r : bool)
          (key : string) (existing : Backup),
     store_wf (store w) ->
     unique_index (store w) ->
     db_fault env (OpGetAll key) = NoFault ->
     db_fault env OpGetAllKeys = NoFault ->
     chat_key_of (context (host w)) = Some key ->
     has_messages (context (host w)) = true ->
     In existing (store w) ->
     chatKey existing = key ->
     lastMessageId existing = last_message_index (context (host w)) ->
     executeBackupLogic_Core env settings w = (Ret r, w') ->
     (timestamp existing < now env ->
      r = true
      /\ ~ In existing (store w')
      /\ exists candidate : Backup,
           chatKey candidate = key
           /\ timestamp candidate = now env
           /\ lastMessageId candidate = lastMessageId existing
           /\ store w'
              = retain (maxTotalBackups settings)
                  (store_put candidate
                     (store_delete (key_of existing) (store w))))
     /\ (now env <= timestamp existing -> r = false /\ store w' = store w))
  /\ (forall (env1 env2 : Env) (settings1 settings2 : Settings)
             (w0 w1 w1' w2 : World) (r1 r2 : bool) (key : string),
        store_wf (store w0) ->
        unique_index (store w0) ->
        db_fault env1 (OpGetAll key) = NoFault ->
        db_fault env1 OpGetAllKeys = NoFault ->
        db_fault env2 (OpGetAll key) = NoFault ->
        db_fault env2 OpGetAllKeys = NoFault ->
        1 <= maxTotalBackups settings1 ->
        1 <= maxTotalBackups settings2 ->
        chat_key_of (context (host w0)) = Some key ->
        has_messages (context (host w0)) = true ->
        chat_key_of (context (host w1')) = Some key ->
        has_messages (context (host w1')) = true ->
        last_message_index (context (host w1'))
        = last_message_index (context (host w0)) ->
        (forall x, In x (store w0) -> timestamp x < now env1) ->
        now env1 <= now env2 ->
        executeBackupLogic_Core env1 settings1 w0 = (Ret r1, w1) ->
        store w1' = store w1 ->
        executeBackupLogic_Core env2 settings2 w1' = (Ret r2, w2) ->
        exists b : Backup,
          In b (store w2)
          /\ chatKey b = key
          /\ lastMessageId b = last_message_index (context (host w0))
          /\ timestamp b = now env2
          /\ (forall x, In x (store w2) ->
                        chatKey x = key ->
                        lastMessageId x
                        = last_message_index (context (host w0)) ->
                        x = b)).
Proof.
  split.
  - exact cycle_against_stored_backup.
  - exact two_cycles_same_index.
Qed.

End Dedup.

(** The backup that a first cycle at time [1000] stores for the sample
    chat of two messages. *)
Definition sample_stored : Backup :=
  mkBackup 1000 "char_0_chatA" "Alice" "chatA" (Some "0") false 1 "hi"
           (Some sample_chat_file) None.

Definition sample_w1 : World :=
  snd (executeBackupLogic_Core (sample_env sample_chat_file 1000)
         (sample_settings 3) (world_with_chat_length 2 [])).

Definition sample_w2 : World :=
  snd (executeBackupLogic_Core (sample_env sample_chat_file 2000)
         (sample_settings 3) sample_w1).

Lemma same_index_supersedes_or_skips_witness :
  (store sample_w1 = [sample_stored]
   /\ ~ In sample_stored (store sample_w2)
   /\ exists candidate : Backup,
        chatKey candidate = "char_0_chatA"
        /\ timestamp candidate = 2000
        /\ lastMessageId candidate = lastMessageId sample_stored
        /\ store sample_w2
           = retain 3 (store_put candidate
                         (store_delete (key_of sample_stored)
                                       (store sample_w1))))
  /\ (exists b : Backup,
        In b (store sample_w2)
        /\ chatKey b = "char_0_chatA"
        /\ lastMessageId b = 1
        /\ timestamp b = 2000
        /\ (forall x, In x (store sample_w2) ->
                      chatKey x = "char_0_chatA" ->
                      lastMessageId x = 1 -> x = b)).
Proof.
  split.
  - split; [vm_compute; reflexivity|].
    assert (Hlt : timestamp sample_stored
                  < now (sample_env sample_chat_file 2000))
      by (vm_compute; reflexivity).
    refine (proj2 (proj1 (proj1 same_index_supersedes_or_skips
              (sample_env sample_chat_file 2000) (sample_settings 3)
              sample_w1 sample_w2 true "char_0_chatA" sample_stored
              _ _ _ _ _ _ _ _ _ _) Hlt)).
    + unfold store_wf. vm_compute. repeat constructor. intros [].
    + intros x y Hx Hy _ _. vm_compute in Hx, Hy.
      destruct Hx as [<-|[]], Hy as [<-|[]]. reflexivity.
    + reflexivity.
    + reflexivity.
    + vm_compute. reflexivity.
    + vm_compute. reflexivity.
    + vm_compute. left. reflexivity.
    + reflexivity.
    + vm_compute. reflexivity.
    + vm_compute. reflexivity.
  - refine (proj2 same_index_supersedes_or_skips
              (sample_env sample_chat_file 1000)
              (sample_env sample_chat_file 2000)
              (sample_settings 3) (sample_settings 3)
              (world_with_chat_length 2 []) sample_w1 sample_w1 sample_w2
              true true "char_0_chatA"
              _ _ _ _ _ _ _ _ _ _ _ _ _ _ _ _ eq_refl _).
    + unfold store_wf. constructor.
    + intros x y [].
    + reflexivity.
    + reflexivity.
    + reflexivity.
    + reflexivity.
    + vm_compute. discriminate.
    + vm_compute. discriminate.
    + vm_compute. reflexivity.
    + vm_compute. reflexivity.
    + vm_compute. reflexivity.
    + vm_compute. reflexivity.
    + vm_compute. reflexivity.
    + intros x [].
    + vm_compute. discriminate.
    + vm_compute. reflexivity.
    + vm_compute. reflexivity.
Defined.

(* ================================================================= *)
(** ** Debounced triggers *)

(** The pending timers after [clearTimeout(id)]. *)
Definition cancel (id : option nat) (ts : list Timer) : list Timer :=
  match id with
  | Some i => filter (fun t => negb (timer_id t =? i)%nat) ts
  | None => ts
  end.

(** Events of the host application, as the plugin subscribes to them:
    an event of the debounced group, an event of the immediate group, a
    change of the active chat, a timer that elapses. *)
Inductive HostEvent :=
| DebouncedEvent
| ImmediateEvent
| ChatChanged (h : Host)
| TimerElapsed (id : nat).

Definition handle (env : Env) (e : HostEvent) : M unit :=
  match e with
  | DebouncedEvent => performBackupDebounced
  | ImmediateEvent =>
      try_catch (performBackupConditional env ;;; ret tt) (fun _ => ret tt)
  | ChatChanged h => modify (set_host h)
  | TimerElapsed id => fire_timer env id
  end.

Fixpoint run_events (env : Env) (es : list HostEvent) (w : World) : World :=
  match es with
  | [] => w
  | e :: r => run_events env r (snd (handle env e w))
  end.

Section Debounce.

Variable env : Env.

(** A trigger with an active chat and a numeric delay: the timer on
    record is cancelled and a new one, closed over the current chat key,
    is started and recorded. *)
Lemma debounce_schedules (w : World) (key : string) (delay n : Z) (dbg : bool) :
  chat_key_of (context (host w)) = Some key ->
  extension_settings w = Some (mkSettings n (Some delay) dbg) ->
  performBackupDebounced w
  = (Ret tt,
     set_backupTimeout (Some (next_timer_id w))
       (set_timers
          (cancel (backupTimeout w) (timers w)
             ++ [mkTimer (next_timer_id w) key delay])
          (S (next_timer_id w))
          (add_events [EvGetContext; EvClearTimeout (backupTimeout w);
                       EvSetTimeout (next_timer_id w) delay] w))).
Proof.
  intros Hkey Hset. unfold performBackupDebounced, bind.
  rewrite getCurrentChatKey_eq, Hkey. cbn [get_world add_event extension_settings].
  rewrite Hset. unfold clearTimeout, setTimeout, bind.
  cbn [emit modify add_event backupTimeout].
  destruct (backupTimeout w) as [i|]; reflexivity.
Qed.

(** A trigger without an active chat, or without a numeric delay: the
    timer on record is cancelled and none is started. *)
Lemma debounce_only_cancels (w : World) :
  chat_key_of (context (host w)) = None
  \/ extension_settings w = None
  \/ (exists n dbg, extension_settings w = Some (mkSettings n None dbg)) ->
  performBackupDebounced w
  = (Ret tt,
     set_backupTimeout None
       (set_timers (cancel (backupTimeout w) (timers w)) (next_timer_id w)
          (add_events [EvGetContext; EvClearTimeout (backupTimeout w)] w))).
Proof.
  intro H. unfold performBackupDebounced, bind.
  rewrite getCurrentChatKey_eq.
  cbn [get_world add_event extension_settings].
  unfold clearTimeout, bind. cbn [emit modify add_event backupTimeout].
  destruct (chat_key_of (context (host w))) as [key|].
  - destruct H as [H|[H|[n [dbg H]]]]; [discriminate| |]; rewrite H;
      destruct (backupTimeout w), w; reflexivity.
  - destruct (backupTimeout w), w; reflexivity.
Qed.

(** A timer that is not pending runs nothing. *)
Lemma fire_cancelled_timer (id : nat) (w : World) :
  (forall t, In t (timers w) -> timer_id t <> id) ->
  fire_timer env id w = (Ret tt, w).
Proof.
  intro Hno. unfold fire_timer, bind. cbn [get_world].
  destruct (find _ (timers w)) as [t|] eqn:Hf; [|reflexivity].
  apply find_some in Hf. destruct Hf as [Hin Heq].
  apply Nat.eqb_eq in Heq. now apply Hno in Hin.
Qed.

(** A pending timer elapses while the chat key differs from the one it
    was scheduled for: the backup is discarded; only the record of the
    timer is cleared (and [getContext] was called). *)
Lemma fire_in_other_chat (t : Timer) (w : World) :
  find (fun x => (timer_id x =? timer_id t)%nat) (timers w) = Some t ->
  chat_key_of (context (host w)) <> Some (scheduledChatKey t) ->
  fire_timer env (timer_id t) w
  = (Ret tt,
     set_backupTimeout None
       (add_event EvGetContext
          (set_timers (cancel (Some (timer_id t)) (timers w))
                      (next_timer_id w) w))).
Proof.
  intros Hf Hne. unfold fire_timer, bind. cbn [get_world]. rewrite Hf.
  cbn [modify]. unfold debounce_callback, debounce_callback_head, bind.
  rewrite getCurrentChatKey_eq. cbn [host set_timers].
  destruct (chat_key_of (context (host w))) as [k|]; [|reflexivity].
  destruct (String.eqb_spec k (scheduledChatKey t)) as [->|Hk];
    [congruence|reflexivity].
Qed.

(** A pending timer elapses in the chat it was scheduled for: exactly
    one call of [performBackupConditional], then the record is cleared. *)
Lemma fire_in_same_chat (t : Timer) (w : World) :
  find (fun x => (timer_id x =? timer_id t)%nat) (timers w) = Some t ->
  chat_key_of (context (host w)) = Some (scheduledChatKey t) ->
  fire_timer env (timer_id t) w
  = (performBackupConditional env ;;; modify (set_backupTimeout None))
      (add_event EvGetContext
         (set_timers (cancel (Some (timer_id t)) (timers w))
                     (next_timer_id w) w)).
Proof.
  intros Hf Hk. unfold fire_timer, bind. cbn [get_world]. rewrite Hf.
  cbn [modify]. unfold debounce_callback, debounce_callback_head,
    debounce_callback_tail, bind.
  rewrite getCurrentChatKey_eq. cbn [host set_timers].
  rewrite Hk, String.eqb_refl. reflexivity.
Qed.

End Debounce.

(** *** What a backup attempt leaves alone *)

Section Keeps.

(** A part [f] of the world that does not depend on the trace, the
    store or the in-progress flag. *)
Variable X : Type.
Variable f : World -> X.
Hypothesis f_event : forall e w, f (add_event e w) = f w.
Hypothesis f_store : forall s w, f (set_store s w) = f w.
Hypothesis f_flag : forall b w, f (set_isBackupInProgress b w) = f w.

Definition keeps {A : Type} (m : M A) : Prop :=
  forall w : World, f (snd (m w)) = f w.

Lemma keeps_ret {A : Type} (a : A) : keeps (ret a).
Proof. intro w. reflexivity. Qed.

Lemma keeps_throw {A : Type} (e : Exn) : keeps (@throw A e).
Proof. intro w. reflexivity. Qed.

Lemma keeps_lift {A : Type} (r : Res A) : keeps (lift r).
Proof. intro w. reflexivity. Qed.

Lemma keeps_get_world : keeps get_world.
Proof. intro w. reflexivity. Qed.

Lemma keeps_emit (e : Event) : keeps (emit e).
Proof. intro w. apply f_event. Qed.

Lemma keeps_bind {A B : Type} (m : M A) (k : A -> M B) :
  keeps m -> (forall a, keeps (k a)) -> keeps (bind m k).
Proof.
  intros Hm Hk w. unfold bind. specialize (Hm w).
  destruct (m w) as [[a|e] w1]; cbn [snd] in *; [|exact Hm].
  now rewrite Hk.
Qed.

Lemma keeps_try_catch {A : Type} (m : M A) (h : Exn -> M A) :
  keeps m -> (forall e, keeps (h e)) -> keeps (try_catch m h).
Proof.
  intros Hm Hh w. unfold try_catch. specialize (Hm w).
  destruct (m w) as [[a|e] w1]; cbn [snd] in *; [exact Hm|].
  now rewrite Hh.
Qed.

Lemma keeps_finally {A : Type} (m : M A) (g : M unit) :
  keeps m -> keeps g -> keeps (finally m g).
Proof.
  intros Hm Hg w. unfold finally. specialize (Hm w).
  destruct (m w) as [r w1]. specialize (Hg w1).
  destruct (g w1) as [[u|e] w2]; cbn [snd] in *; congruence.
Qed.

Lemma keeps_promise_all {A : Type} (ms : list (M A)) :
  Forall keeps ms -> keeps (promise_all ms).
Proof.
  induction 1 as [|m ms Hm Hms IH]; [apply keeps_ret|].
  intro w. cbn [promise_all]. specialize (Hm w).
  destruct (m w) as [[a|e] w1]; specialize (IH w1);
    destruct (promise_all ms w1) as [[l|e'] w2]; cbn [snd] in *; congruence.
Qed.

Ltac keeps_step :=
  match goal with
  | |- keeps (bind _ _) => apply keeps_bind; [|intro]
  | |- keeps (try_catch _ _) => apply keeps_try_catch; [|intro]
  | |- keeps (finally _ _) => apply keeps_finally
  | |- keeps (emit _) => apply keeps_emit
  | |- keeps (ret _) => apply keeps_ret
  | |- keeps (throw _) => apply keeps_throw
  | |- keeps (throw_error _) => apply keeps_throw
  | |- keeps (lift _) => apply keeps_lift
  | |- keeps get_world => apply keeps_get_world
  | |- keeps (modify _) => intro; cbn [modify snd]; first [apply f_store | apply f_flag]
  | |- keeps (match ?x with _ => _ end) => destruct x
  end.

Variable env : Env.

Lemma keeps_getDB (op : DbOp) : keeps (getDB env op).
Proof. unfold getDB. repeat keeps_step. Qed.

Lemma keeps_transaction {A : Type} (op : DbOp) (body : M A) :
  keeps body -> keeps (transaction env op body).
Proof. intro Hb. unfold transaction. repeat keeps_step; exact Hb. Qed.

Lemma keeps_saveBackupToDB (b : Backup) : keeps (saveBackupToDB env b).
Proof.
  unfold saveBackupToDB.
  apply keeps_bind; [apply keeps_getDB|intro].
  apply keeps_try_catch; [|intro; apply keeps_throw].
  apply keeps_transaction. repeat keeps_step.
Qed.

Lemma keeps_deleteBackup (ck : string) (ts : Z) :
  keeps (deleteBackup env ck ts).
Proof.
  unfold deleteBackup.
  apply keeps_bind; [apply keeps_getDB|intro].
  apply keeps_try_catch; [|intro; apply keeps_throw].
  apply keeps_transaction. repeat keeps_step.
Qed.

Lemma keeps_getBackupsForChat (ck : string) :
  keeps (getBackupsForChat env ck).
Proof.
  unfold getBackupsForChat.
  apply keeps_bind; [apply keeps_getDB|intro].
  apply keeps_try_catch; [|intro; apply keeps_ret].
  apply keeps_transaction. repeat keeps_step.
Qed.

Lemma keeps_getAllBackupKeys : keeps (getAllBackupKeys env).
Proof.
  unfold getAllBackupKeys.
  apply keeps_bind; [apply keeps_getDB|intro].
  apply keeps_try_catch; [|intro; apply keeps_ret].
  apply keeps_transaction. repeat keeps_step.
Qed.

Lemma keeps_getBackupFromDB (ck : string) (ts : Z) :
  keeps (getBackupFromDB env ck ts).
Proof.
  unfold getBackupFromDB.
  apply keeps_bind; [apply keeps_getDB|intro].
  apply keeps_try_catch; [|intro; apply keeps_ret].
  apply keeps_transaction. repeat keeps_step.
Qed.

Lemma keeps_getContext : keeps getContext.
Proof. unfold getContext. repeat keeps_step. Qed.

Lemma keeps_getCurrentChatKey : keeps getCurrentChatKey.
Proof.
  unfold getCurrentChatKey.
  apply keeps_bind; [apply keeps_getContext|intro]. apply keeps_ret.
Qed.

Lemma keeps_getCurrentChatInfo : keeps getCurrentChatInfo.
Proof.
  unfold getCurrentChatInfo.
  apply keeps_bind; [apply keeps_getContext|intro]. repeat keeps_step.
Qed.

Lemma keeps_js_fetch (r : Request) : keeps (js_fetch env r).
Proof. unfold js_fetch. repeat keeps_step. Qed.

Lemma keeps_fetch_raw_chat (context : Context) (info : ChatInfo) :
  keeps (fetch_raw_chat env context info).
Proof.
  unfold fetch_raw_chat. destruct (ci_isGroup info).
  - apply keeps_bind; [apply keeps_js_fetch|intro]. repeat keeps_step.
  - apply keeps_bind; [apply keeps_get_world|intro].
    match goal with
    | |- keeps (match ?x with _ => _ end) => destruct x
    end; [|apply keeps_throw].
    apply keeps_bind; [apply keeps_js_fetch|intro]. repeat keeps_step.
Qed.

Lemma keeps_cleanup_old_backups (settings : Settings) :
  keeps (cleanup_old_backups env settings).
Proof.
  unfold cleanup_old_backups.
  apply keeps_bind; [apply keeps_getAllBackupKeys|intro keys].
  destruct (_ >? _); [|apply keeps_ret].
  apply keeps_bind; [|intro; apply keeps_ret].
  apply keeps_promise_all, Forall_forall.
  intros m Hm. apply in_map_iff in Hm. destruct Hm as [k [<- _]].
  apply keeps_deleteBackup.
Qed.

Lemma keeps_store_backup (settings : Settings) (b : Backup) :
  keeps (store_backup env settings b).
Proof.
  unfold store_backup.
  apply keeps_bind; [apply keeps_getBackupsForChat|intro existing].
  apply keeps_bind.
  - destruct (find _ existing); [|apply keeps_ret].
    destruct (_ >? _); [|apply keeps_ret].
    apply keeps_bind; [apply keeps_deleteBackup|intro; apply keeps_ret].
  - intro needsSave. destruct (negb needsSave); [apply keeps_ret|].
    apply keeps_bind; [apply keeps_saveBackupToDB|intro].
    apply keeps_bind; [apply keeps_cleanup_old_backups|intro].
    apply keeps_ret.
Qed.

Lemma keeps_executeBackupLogic_Core (settings : Settings) :
  keeps (executeBackupLogic_Core env settings).
Proof.
  unfold executeBackupLogic_Core.
  apply keeps_bind; [apply keeps_getCurrentChatKey|intro key].
  destruct key as [key|]; [|apply keeps_ret].
  apply keeps_bind; [apply keeps_getCurrentChatInfo|intro info].
  apply keeps_bind; [apply keeps_getContext|intro context].
  destruct (chat context) as [[|m ms]|]; try apply keeps_ret.
  apply keeps_bind; [apply keeps_lift|intro preview].
  apply keeps_finally; [|apply keeps_ret].
  apply keeps_try_catch; [|intro; apply keeps_throw].
  apply keeps_bind; [apply keeps_fetch_raw_chat|intro raw].
  destruct (negb _); [apply keeps_throw|apply keeps_store_backup].
Qed.

Lemma keeps_updateBackupsList : keeps (updateBackupsList env).
Proof.
  unfold updateBackupsList.
  destruct (negb _); [apply keeps_ret|].
  apply keeps_bind; [apply keeps_emit|intro].
  apply keeps_try_catch; [|intro; apply keeps_emit].
  apply keeps_bind; [apply keeps_getAllBackupKeys|intro keys].
  apply keeps_bind.
  - apply keeps_promise_all, Forall_forall.
    intros m Hm. apply in_map_iff in Hm. destruct Hm as [k [<- _]].
    apply keeps_getBackupFromDB.
  - intro allBackups. destruct (forallb _ allBackups); repeat keeps_step.
Qed.

Lemma keeps_performBackupConditional : keeps (performBackupConditional env).
Proof.
  unfold performBackupConditional.
  apply keeps_bind; [apply keeps_get_world|intro w0].
  destruct (isBackupInProgress w0); [apply keeps_ret|].
  apply keeps_bind; [apply keeps_getContext|intro context].
  apply keeps_bind; [apply keeps_getCurrentChatKey|intro key].
  destruct key as [key|]; [|apply keeps_ret].
  destruct (chat context) as [[|m ms]|]; try apply keeps_ret.
  apply keeps_bind; [apply keeps_get_world|intro w1].
  destruct (extension_settings w1) as [settings|]; [|apply keeps_ret].
  apply keeps_bind; [intro; apply f_flag|intro].
  unfold backup_under_lock.
  apply keeps_finally; [|intro; apply f_flag].
  apply keeps_try_catch.
  - apply keeps_bind; [apply keeps_executeBackupLogic_Core|intro success].
    apply keeps_bind; [|intro; apply keeps_ret].
    destruct success; [apply keeps_updateBackupsList|apply keeps_ret].
  - intro. apply keeps_bind; [apply keeps_emit|intro; apply keeps_ret].
Qed.

End Keeps.

(** A backup attempt does not touch the timers, their record, or the
    state of the host. *)
Lemma conditional_keeps_timers (env : Env) (w : World) :
  timers (snd (performBackupConditional env w)) = timers w.
Proof. apply keeps_performBackupConditional; reflexivity. Qed.

Lemma conditional_keeps_host (env : Env) (w : World) :
  host (snd (performBackupConditional env w)) = host w.
Proof. apply keeps_performBackupConditional; reflexivity. Qed.

Lemma core_keeps_flag (env : Env) (settings : Settings) (w : World) :
  isBackupInProgress (snd (executeBackupLogic_Core env settings w))
  = isBackupInProgress w.
Proof.
  apply (keeps_executeBackupLogic_Core bool isBackupInProgress); reflexivity.
Qed.

(** A cycle that passes the guards runs, from its first to its last
    step, in a world where the flag is set. *)
Lemma cycle_runs_under_lock (env : Env) (w : World) (key : string)
  (settings : Settings) :
  isBackupInProgress w = false ->
  chat_key_of (context (host w)) = Some key ->
  has_messages (context (host w)) = true ->
  extension_settings w = Some settings ->
  exists w_in : World,
    isBackupInProgress w_in = true
    /\ store w_in = store w
    /\ host w_in = host w
    /\ isBackupInProgress (snd (executeBackupLogic_Core env settings w_in))
       = true
    /\ performBackupConditional env w = backup_under_lock env settings w_in.
Proof.
  intros Hidle Hkey Hmsgs Hset.
  exists (set_isBackupInProgress true
            (add_events [EvGetContext; EvGetContext] w)).
  split; [reflexivity|]. split; [reflexivity|]. split; [reflexivity|].
  split.
  - now rewrite core_keeps_flag.
  - unfold performBackupConditional, bind. cbn [get_world]. rewrite Hidle.
    rewrite getContext_eq, getCurrentChatKey_eq, !host_add_event, Hkey.
    unfold has_messages in Hmsgs.
    destruct (chat (context (host w))) as [[|m ms]|]; try discriminate.
    cbn [get_world extension_settings add_event]. rewrite Hset.
    reflexivity.
Qed.

Section DebounceScenario.

Variable env : Env.

(** The store after the cycle holds nothing new but, possibly, a backup
    keyed by the chat that is active when the cycle starts. *)
Lemma core_adds_only_current_chat (settings : Settings) (w w' : World)
  (res : Res bool) (x : Backup) :
  executeBackupLogic_Core env settings w = (res, w') ->
  In x (store w') ->
  In x (store w) \/ chat_key_of (context (host w)) = Some (chatKey x).
Proof.
  intros H Hx.
  destruct (chat_key_of (context (host w))) as [key|] eqn:Hkey.
  2:{ rewrite core_skips_without_key in H by assumption.
      inversion H; subst. left. exact Hx. }
  destruct (has_messages (context (host w))) eqn:Hmsgs.
  2:{ rewrite (core_skips_empty_chat env settings w key) in H by assumption.
      inversion H; subst. left. exact Hx. }
  destruct (core_builds_candidate env settings w w' key res Hkey Hmsgs H)
    as [[b [w1 [Hb1 [_ [_ [Hstore Hrun]]]]]] | [e [_ Hsame]]].
  - destruct (store_backup_adds_only_candidate env settings b w1 w' res x
                Hrun Hx) as [->|Hin].
    + right. now rewrite Hb1.
    + left. now rewrite <- Hstore.
  - left. now rewrite <- Hsame.
Qed.

Lemma conditional_adds_only_current_chat (w : World) (x : Backup) :
  In x (store (snd (performBackupConditional env w))) ->
  In x (store w) \/ chat_key_of (context (host w)) = Some (chatKey x).
Proof.
  unfold performBackupConditional, bind. cbn [get_world].
  destruct (isBackupInProgress w); [now left|].
  rewrite getContext_eq, getCurrentChatKey_eq, !host_add_event.
  destruct (chat_key_of (context (host w))) as [key|] eqn:Hkey;
    [|now left].
  destruct (chat (context (host w))) as [[|m ms]|]; try (now left).
  cbn [get_world extension_settings add_event].
  destruct (extension_settings w) as [settings|]; [|now left].
  cbn [modify]. unfold backup_under_lock, finally, try_catch, bind.
  match goal with
  | |- context [executeBackupLogic_Core env settings ?w0] =>
      set (w_in := w0);
      destruct (executeBackupLogic_Core env settings w_in)
        as [res wc] eqn:Hcore
  end.
  assert (Hfinal : In x (store wc) ->
                   In x (store w) \/ Some key = Some (chatKey x)).
  { intro Hx.
    destruct (core_adds_only_current_chat settings w_in wc res x Hcore Hx)
      as [Hin|Hk]; [left; exact Hin|right].
    unfold w_in in Hk. cbn [host set_isBackupInProgress add_event] in Hk.
    congruence. }
  destruct res as [[|]|e]; cbn; try exact Hfinal.
  pose proof (reads_only_updateBackupsList env wc) as [Hs _].
  destruct (updateBackupsList env wc) as [[u|e] wu]; cbn in *;
    rewrite Hs; exact Hfinal.
Qed.

(** Trigger A in the chat of [hostA], change to the chat of [hostB],
    trigger B before the timer of A elapses. *)
Definition two_triggers (hostA hostB : Host) : list HostEvent :=
  [ChatChanged hostA; DebouncedEvent; ChatChanged hostB; DebouncedEvent].

Lemma switch_then_trigger (w0 : World) (hostA hostB : Host)
  (keyA keyB : string) (delay n : Z) (dbg : bool) :
  timers w0 = [] ->
  extension_settings w0 = Some (mkSettings n (Some delay) dbg) ->
  chat_key_of (context hostA) = Some keyA ->
  chat_key_of (context hostB) = Some keyB ->
  let idA := next_timer_id w0 in
  let idB := S (next_timer_id w0) in
  let w3 := run_events env (two_triggers hostA hostB) w0 in
  timers w3 = [mkTimer idB keyB delay]
  /\ backupTimeout w3 = Some idB
  /\ host w3 = hostB
  /\ store w3 = store w0
  /\ fire_timer env idA w3 = (Ret tt, w3)
  /\ fire_timer env idB w3
     = (performBackupConditional env ;;; modify (set_backupTimeout None))
         (add_event EvGetContext (set_timers [] (S idB) w3))
  /\ timers (snd (fire_timer env idB w3)) = []
  /\ (forall x, In x (store (snd (fire_timer env idB w3))) ->
                In x (store w0) \/ chatKey x = keyB).
Proof.
  intros Hnone Hset HkA HkB idA idB w3.
  assert (Hw3 :
    w3 = set_backupTimeout (Some idB)
           (set_timers [mkTimer idB keyB delay] (S idB)
              (add_events [EvGetContext; EvClearTimeout (backupTimeout w0);
                           EvSetTimeout idA delay;
                           EvGetContext; EvClearTimeout (Some idA);
                           EvSetTimeout idB delay]
                 (set_host hostB w0)))).
  { unfold w3, two_triggers. cbn [run_events handle modify snd].
    rewrite (debounce_schedules (set_host hostA w0) keyA delay n dbg)
      by (cbn; assumption).
    cbn [snd modify].
    erewrite debounce_schedules; [|cbn; eassumption|cbn; eassumption].
    cbn. rewrite Hnone. cbn.
    destruct (backupTimeout w0); cbn; rewrite Nat.eqb_refl; reflexivity. }
  assert (HfireB :
    fire_timer env idB w3
    = (performBackupConditional env ;;; modify (set_backupTimeout None))
        (add_event EvGetContext (set_timers [] (S idB) w3))).
  { pose proof (fire_in_same_chat env (mkTimer idB keyB delay) w3) as Hfire.
    cbn [timer_id scheduledChatKey] in Hfire.
    rewrite Hfire; rewrite Hw3; cbn; rewrite ?Nat.eqb_refl; try reflexivity.
    exact HkB. }
  split; [rewrite Hw3; reflexivity|].
  split; [rewrite Hw3; reflexivity|].
  split; [rewrite Hw3; reflexivity|].
  split; [rewrite Hw3; reflexivity|].
  split.
  { apply fire_cancelled_timer. rewrite Hw3. cbn.
    intros t [<-|[]]. cbn. unfold idB, idA. lia. }
  split; [exact HfireB|].
  rewrite HfireB. unfold bind.
  set (wf := add_event EvGetContext (set_timers [] (S idB) w3)).
  pose proof (conditional_keeps_timers env wf) as Htimers.
  pose proof (conditional_adds_only_current_chat wf) as Hadds.
  destruct (performBackupConditional env wf) as [[r|e] wc];
    cbn [snd modify set_backupTimeout timers store] in *.
  - split; [exact Htimers|].
    intros x Hx. destruct (Hadds x Hx) as [Hin|Hk].
    + left. unfold wf in Hin. rewrite Hw3 in Hin. exact Hin.
    + right. unfold wf in Hk. rewrite Hw3 in Hk. cbn in Hk. congruence.
  - split; [exact Htimers|].
    intros x Hx. destruct (Hadds x Hx) as [Hin|Hk].
    + left. unfold wf in Hin. rewrite Hw3 in Hin. exact Hin.
    + right. unfold wf in Hk. rewrite Hw3 in Hk. cbn in Hk. congruence.
Qed.

End DebounceScenario.

(** C5, as the code has it.  (1) A debounced trigger that finds an
    active chat and a numeric delay cancels the timer on record in
    [backupTimeout] and starts a new one, closed over the current chat
    key, which it records.  (2) A debounced trigger that finds no active
    chat, or no numeric delay, cancels the timer on record and starts
    none.  (3) When a pending timer elapses, the chat key of that moment
    is compared with the key of schedule time: if they differ the backup
    is discarded -- [performBackupConditional] is not called, the store
    and the in-progress flag are as before -- and if they agree
    [performBackupConditional] is called once.  (4) Starting with no
    pending timer: trigger A, change of chat, trigger B.  Then only the
    timer of B is pending; the timer of A runs nothing; the timer of B,
    elapsing in the chat of B, makes one call of
    [performBackupConditional], after which no timer is pending, and
    every backup then in the store was there at the start or belongs to
    the chat of B: none is created for the chat of A. *)
Theorem debounce_reschedules_and_discards :
  (forall (w : World) (key : string) (delay n : Z) (dbg : bool),
     chat_key_of (context (host w)) = Some key ->
     extension_settings w = Some (mkSettings n (Some delay) dbg) ->
     fst (performBackupDebounced w) = Ret tt
     /\ timers (snd (performBackupDebounced w))
        = (cancel (backupTimeout w) (timers w)
             ++ [mkTimer (next_timer_id w) key delay])%list
     /\ backupTimeout (snd (performBackupDebounced w))
        = Some (next_timer_id w))
  /\ (forall w : World,
        chat_key_of (context (host w)) = None
        \/ extension_settings w = None
        \/ (exists n dbg,
              extension_settings w = Some (mkSettings n None dbg)) ->
        fst (performBackupDebounced w) = Ret tt
        /\ timers (snd (performBackupDebounced w))
           = cancel (backupTimeout w) (timers w)
        /\ backupTimeout (snd (performBackupDebounced w)) = None)
  /\ (forall (env : Env) (t : Timer) (w : World),
        find (fun x => (timer_id x =? timer_id t)%nat) (timers w) = Some t ->
        (chat_key_of (context (host w)) <> Some (scheduledChatKey t) ->
         fire_timer env (timer_id t) w
         = (Ret tt,
            set_backupTimeout None
              (add_event EvGetContext
                 (set_timers (cancel (Some (timer_id t)) (timers w))
                             (next_timer_id w) w))))
        /\ (chat_key_of (context (host w)) = Some (scheduledChatKey t) ->
            fire_timer env (timer_id t) w
            = (performBackupConditional env ;;;
               modify (set_backupTimeout None))
                (add_event EvGetContext
                   (set_timers (cancel (Some (timer_id t)) (timers w))
                               (next_timer_id w) w))))
  /\ (forall (env : Env) (w0 : World) (hostA hostB : Host)
             (keyA keyB : string) (delay n : Z) (dbg : bool),
        timers w0 = [] ->
        extension_settings w0 = Some (mkSettings n (Some delay) dbg) ->
        chat_key_of (context hostA) = Some keyA ->
        chat_key_of (context hostB) = Some keyB ->
        keyA <> keyB ->
        let idA := next_timer_id w0 in
        let idB := S (next_timer_id w0) in
        let w3 := run_events env (two_triggers hostA hostB) w0 in
        timers w3 = [mkTimer idB keyB delay]
        /\ store w3 = store w0
        /\ fire_timer env idA w3 = (Ret tt, w3)
        /\ fire_timer env idB w3
           = (performBackupConditional env ;;;
              modify (set_backupTimeout None))
               (add_event EvGetContext (set_timers [] (S idB) w3))
        /\ timers (snd (fire_timer env idB w3)) = []
        /\ (forall x, In x (store (snd (fire_timer env idB w3))) ->
                      chatKey x = keyA -> In x (store w0))).
Proof.
  split; [|split; [|split]].
  - intros w key delay n dbg Hkey Hset.
    rewrite (debounce_schedules w key delay n dbg Hkey Hset).
    repeat split.
  - intros w H. rewrite (debounce_only_cancels w H). repeat split.
  - intros env t w Hf. split.
    + now apply fire_in_other_chat.
    + now apply fire_in_same_chat.
  - intros env w0 hostA hostB keyA keyB delay n dbg Hnone Hset HkA HkB Hne.
    destruct (switch_then_trigger env w0 hostA hostB keyA keyB delay n dbg
                Hnone Hset HkA HkB)
      as [H1 [_ [_ [H4 [H5 [H6 [H7 H8]]]]]]].
    cbv zeta. repeat (split; [assumption|]).
    intros x Hx Hck. destruct (H8 x Hx) as [Hin|Hk]; [exact Hin|congruence].
Qed.

(** A world where a timer is pending and on record but no chat is
    active. *)
Definition world_without_chat : World :=
  mkWorld [] false (Some 0%nat) [mkTimer 0 "char_0_chatA" 1000] 1 false
          (mkHost (mkContext None None None None None None) None None)
          (Some (sample_settings 3)) [].

(** C5 as stated fails here: the trigger cancels the pending timer but
    starts no new one -- afterwards no timer is pending and none is on
    record. *)
Lemma trigger_without_chat_starts_no_timer :
  fst (performBackupDebounced world_without_chat) = Ret tt
  /\ timers world_without_chat = [mkTimer 0 "char_0_chatA" 1000]
  /\ timers (snd (performBackupDebounced world_without_chat)) = []
  /\ backupTimeout (snd (performBackupDebounced world_without_chat)) = None
  /\ next_timer_id (snd (performBackupDebounced world_without_chat))
     = next_timer_id world_without_chat.
Proof. repeat split. Qed.

Definition sample_host_b : Host := sample_host "chatB".

Lemma debounce_reschedules_and_discards_witness :
  let env := sample_env sample_chat_file 1000 in
  let w0 := sample_world [] false 3 in
  let w3 := run_events env (two_triggers (sample_host "chatA") sample_host_b)
                       w0 in
  timers w3 = [mkTimer 1 "char_0_chatB" 1000]
  /\ store w3 = store w0
  /\ fire_timer env 0 w3 = (Ret tt, w3)
  /\ fire_timer env 1 w3
     = (performBackupConditional env ;;; modify (set_backupTimeout None))
         (add_event EvGetContext (set_timers [] 2 w3))
  /\ timers (snd (fire_timer env 1 w3)) = []
  /\ (forall x, In x (store (snd (fire_timer env 1 w3))) ->
                chatKey x = "char_0_chatA" -> In x (store w0)).
Proof.
  cbv zeta.
  apply (proj2 (proj2 (proj2 debounce_reschedules_and_discards))
           (sample_env sample_chat_file 1000) (sample_world [] false 3)
           (sample_host "chatA") sample_host_b
           "char_0_chatA" "char_0_chatB" 1000 3 false);
    try reflexivity.
  discriminate.
Defined.

(* ================================================================= *)
(** ** The theorems at sample inputs *)

Lemma busy_trigger_is_dropped_witness :
  isBackupInProgress (sample_world [sample_stored] true 3) = true
  /\ performBackupConditional (sample_env sample_chat_file 2000)
       (sample_world [sample_stored] true 3)
     = (Ret None, sample_world [sample_stored] true 3).
Proof.
  split; [reflexivity|].
  apply (busy_trigger_is_dropped (sample_env sample_chat_file 2000)
           (sample_world [sample_stored] true 3)).
  reflexivity.
Defined.

(** A request that the network rejects. *)
Definition offline_env (t : Z) : Env :=
  mkEnv t "2024-01-01T00:00:00.000Z"
        (fun _ => FetchRejected (mkExn KError "Failed to fetch"))
        (fun _ => NoFault)
        (Ret PopCustom2) (Ret tt)
        (fun _ _ => Ret tt) (fun _ => Ret tt) (fun _ => Ret tt)
        (fun _ h => h) false.

(** The three ways a cycle ends -- saved, skipped as a duplicate,
    failed -- each with the flag clear afterwards. *)
Lemma lock_released_on_every_exit_witness :
  (fst (performBackupConditional (sample_env sample_chat_file 2000)
          (sample_world [] false 3)) = Ret (Some true)
   /\ isBackupInProgress
        (snd (performBackupConditional (sample_env sample_chat_file 2000)
                (sample_world [] false 3))) = false)
  /\ (fst (performBackupConditional (sample_env sample_chat_file 1000)
             (sample_world [sample_stored] false 3)) = Ret (Some false)
      /\ isBackupInProgress
           (snd (performBackupConditional (sample_env sample_chat_file 1000)
                   (sample_world [sample_stored] false 3))) = false)
  /\ (In (EvToast ToastError "备份失败: Failed to fetch")
         (trace (snd (performBackupConditional (offline_env 2000)
                        (sample_world [] false 3))))
      /\ isBackupInProgress
           (snd (performBackupConditional (offline_env 2000)
                   (sample_world [] false 3))) = false).
Proof.
  split; [|split].
  - split; [vm_compute; reflexivity|].
    apply (lock_released_on_every_exit (sample_env sample_chat_file 2000)
             (sample_world [] false 3)).
    reflexivity.
  - split; [vm_compute; reflexivity|].
    apply (lock_released_on_every_exit (sample_env sample_chat_file 1000)
             (sample_world [sample_stored] false 3)).
    reflexivity.
  - split; [vm_compute; intuition|].
    apply (lock_released_on_every_exit (offline_env 2000)
             (sample_world [] false 3)).
    reflexivity.
Defined.

Lemma skip_is_silent_witness :
  (chat_key_of (context (host world_without_chat)) = None
   \/ has_messages (context (host world_without_chat)) = false)
  /\ (exists n,
        executeBackupLogic_Core (sample_env sample_chat_file 2000)
          (sample_settings 3) world_without_chat
        = (Ret false, add_events (repeat EvGetContext n) world_without_chat))
  /\ (exists r n,
        performBackupConditional (sample_env sample_chat_file 2000)
          world_without_chat
        = (Ret r, add_events (repeat EvGetContext n) world_without_chat)
        /\ r <> Some true).
Proof.
  split; [left; reflexivity|].
  apply (skip_is_silent (sample_env sample_chat_file 2000)
           (sample_settings 3) world_without_chat).
  left. reflexivity.
Defined.

(* ================================================================= *)
(** ** A trigger while a timer callback awaits its backup *)

(** The callback of a timer is asynchronous: it runs up to
    [await performBackupConditional()] when the timer elapses and resumes,
    to clear [backupTimeout], once the backup has settled.  The events
    below separate the two moments, so that debounced triggers and
    changes of chat can fall between them.  The backup itself is run at
    the first moment; it touches neither the timers nor their record,
    and [performBackupDebounced] touches neither the store nor the flag,
    so a debounced trigger that arrives during the backup is represented
    by one that arrives after it and before the callback resumes.  The
    second component of the state counts the callbacks that wait to
    resume. *)
Inductive FineEvent :=
| FDebounced
| FChatChanged (h : Host)
| FTimerStarts (id : nat)
| FCallbackResumes.

Definition fine_step (env : Env) (e : FineEvent) (st : World * nat)
  : World * nat :=
  let (w, waiting) := st in
  match e with
  | FDebounced => (snd (performBackupDebounced w), waiting)
  | FChatChanged h => (set_host h w, waiting)
  | FTimerStarts id =>
      match find (fun t => (timer_id t =? id)%nat) (timers w) with
      | None => (w, waiting)
      | Some t =>
          let w1 :=
            set_timers
              (filter (fun t => negb (timer_id t =? id)%nat) (timers w))
              (next_timer_id w) w in
          match debounce_callback_head (scheduledChatKey t) w1 with
          | (Ret true, w2) =>
              match performBackupConditional env w2 with
              | (Ret _, w3) => (w3, S waiting)
              | (Throw _, w3) => (w3, waiting)
              end
          | (_, w2) => (w2, waiting)
          end
      end
  | FCallbackResumes =>
      match waiting with
      | O => (w, O)
      | S n => (snd (debounce_callback_tail w), n)
      end
  end.

Fixpoint run_fine (env : Env) (es : list FineEvent) (st : World * nat)
  : World * nat :=
  match es with
  | [] => st
  | e :: r => run_fine env r (fine_step env e st)
  end.

Section LostRecord.

Variable env : Env.

(** With nothing between the two moments, the fine events are the
    firing of the timer. *)
Lemma fire_timer_in_two_moments (id : nat) (w : World) :
  fst (run_fine env [FTimerStarts id; FCallbackResumes] (w, O))
  = snd (fire_timer env id w).
Proof.
  cbn [run_fine fine_step]. unfold fire_timer, bind. cbn [get_world].
  destruct (find _ (timers w)) as [t|]; [|reflexivity].
  cbn [modify]. unfold debounce_callback, bind.
  destruct (debounce_callback_head _ _) as [[[|]|e] w2]; try reflexivity.
  destruct (performBackupConditional env w2) as [[r|e] w3]; reflexivity.
Qed.

(** The part of the world that scheduling reads and writes. *)
Definition schedule_state (w : World)
  : list Timer * option nat * nat * Host * option Settings :=
  (timers w, backupTimeout w, next_timer_id w, host w, extension_settings w).

Lemma conditional_keeps_schedule (w : World) :
  schedule_state (snd (performBackupConditional env w)) = schedule_state w.
Proof. apply keeps_performBackupConditional; reflexivity. Qed.

(** [performBackupConditional] reports a failure of the cycle in a
    toast; it does not throw. *)
Lemma conditional_never_throws (w : World) :
  exists r : option bool, fst (performBackupConditional env w) = Ret r.
Proof.
  unfold performBackupConditional, bind. cbn [get_world].
  destruct (isBackupInProgress w); [eexists; reflexivity|].
  rewrite getContext_eq, getCurrentChatKey_eq, !host_add_event.
  destruct (chat_key_of (context (host w))) as [key|];
    [|eexists; reflexivity].
  destruct (chat (context (host w))) as [[|m ms]|];
    try (eexists; reflexivity).
  cbn [get_world extension_settings add_event].
  destruct (extension_settings w) as [settings|]; [|eexists; reflexivity].
  cbn [modify]. unfold backup_under_lock, finally, try_catch, bind.
  destruct (executeBackupLogic_Core env settings _) as [[success|e] wc].
  - destruct ((if success then updateBackupsList env else ret tt) wc)
      as [[u|e] wu]; cbn; eexists; reflexivity.
  - cbn. eexists; reflexivity.
Qed.

Lemma debounce_schedules_fields (w : World) (key : string) (delay n : Z)
  (dbg : bool) :
  chat_key_of (context (host w)) = Some key ->
  extension_settings w = Some (mkSettings n (Some delay) dbg) ->
  schedule_state (snd (performBackupDebounced w))
  = ((cancel (backupTimeout w) (timers w)
        ++ [mkTimer (next_timer_id w) key delay])%list,
     Some (next_timer_id w), S (next_timer_id w), host w,
     extension_settings w).
Proof.
  intros Hkey Hset.
  rewrite (debounce_schedules w key delay n dbg Hkey Hset). reflexivity.
Qed.

(** X29. The slip.  One trigger, whose timer elapses and whose callback
    starts its backup; a second trigger before the callback resumes; the
    callback resumes and clears [backupTimeout], which by then records
    the timer of the second trigger; a third trigger.  The third trigger
    finds nothing on record to cancel: the timers of the second and of
    the third trigger are both pending, and each will run its own
    backup. *)
Lemma record_lost_by_resuming_callback
  (w0 : World) (key : string) (delay n : Z) (dbg : bool) :
  timers w0 = [] ->
  chat_key_of (context (host w0)) = Some key ->
  extension_settings w0 = Some (mkSettings n (Some delay) dbg) ->
  let id0 := next_timer_id w0 in
  let st :=
    run_fine env
      [FDebounced; FTimerStarts id0; FDebounced; FCallbackResumes; FDebounced]
      (w0, O) in
  timers (fst st)
  = [mkTimer (S id0) key delay; mkTimer (S (S id0)) key delay]
  /\ backupTimeout (fst st) = Some (S (S id0))
  /\ snd st = O.
Proof.
  intros Hnone Hkey Hset id0 st.
  (* first trigger *)
  pose proof (debounce_schedules_fields w0 key delay n dbg Hkey Hset) as H1.
  set (w1 := snd (performBackupDebounced w0)) in *.
  unfold schedule_state in H1. rewrite Hnone in H1.
  replace (cancel (backupTimeout w0) []) with (@nil Timer) in H1
    by (destruct (backupTimeout w0); reflexivity).
  cbn [app] in H1. fold id0 in H1.
  inversion H1 as [[Ht1 Hb1 Hn1 Hh1 He1]].
  (* its timer elapses; the backup runs *)
  assert (H2 : exists w3,
    fine_step env (FTimerStarts id0) (w1, O) = (w3, 1%nat)
    /\ schedule_state w3
       = ([], Some id0, S id0, host w0, extension_settings w0)).
  { cbn [fine_step]. rewrite Ht1. cbn [find timer_id].
    rewrite Nat.eqb_refl. cbn [filter timer_id negb scheduledChatKey].
    rewrite Nat.eqb_refl. cbn [negb].
    unfold debounce_callback_head, bind. rewrite getCurrentChatKey_eq.
    cbn [host set_timers]. rewrite Hh1, Hkey, String.eqb_refl.
    cbn [negb ret].
    match goal with
    | |- context [performBackupConditional env ?w] =>
        set (w2 := w);
        pose proof (conditional_keeps_schedule w2) as Hkeep;
        destruct (conditional_never_throws w2) as [r Hr];
        destruct (performBackupConditional env w2) as [res w3]
    end.
    cbn [fst snd] in Hr, Hkeep. subst res. exists w3.
    split; [reflexivity|]. rewrite Hkeep. unfold schedule_state, w2.
    cbn. now rewrite Hb1, Hn1, Hh1, He1. }
  destruct H2 as [w3 [Hstep2 H3]].
  unfold schedule_state in H3. inversion H3 as [[Ht3 Hb3 Hn3 Hh3 He3]].
  (* second trigger, before the callback resumes *)
  assert (Hkey3 : chat_key_of (context (host w3)) = Some key)
    by (now rewrite Hh3).
  assert (Hset3 : extension_settings w3
                  = Some (mkSettings n (Some delay) dbg))
    by (now rewrite He3).
  pose proof (debounce_schedules_fields w3 key delay n dbg Hkey3 Hset3) as H4.
  set (w4 := snd (performBackupDebounced w3)) in *.
  unfold schedule_state in H4. rewrite Ht3, Hb3, Hn3 in H4.
  cbn [cancel filter app] in H4.
  inversion H4 as [[Ht4 Hb4 Hn4 Hh4 He4]].
  (* the callback resumes: the record is cleared *)
  set (w5 := set_backupTimeout None w4).
  (* third trigger *)
  assert (Hkey5 : chat_key_of (context (host w5)) = Some key)
    by (unfold w5; cbn [host set_backupTimeout]; now rewrite Hh4, Hh3).
  assert (Hset5 : extension_settings w5
                  = Some (mkSettings n (Some delay) dbg))
    by (unfold w5; cbn [extension_settings set_backupTimeout];
        now rewrite He4, He3).
  pose proof (debounce_schedules_fields w5 key delay n dbg Hkey5 Hset5) as H6.
  unfold schedule_state in H6.
  assert (Ht5 : timers w5 = [mkTimer (S id0) key delay]) by exact Ht4.
  assert (Hb5 : backupTimeout w5 = None) by reflexivity.
  assert (Hn5 : next_timer_id w5 = S (S id0)) by exact Hn4.
  rewrite Ht5, Hb5, Hn5 in H6. cbn [cancel app] in H6.
  inversion H6 as [[Ht6 Hb6 Hn6 Hh6 He6]].
  assert (Hst : st = (snd (performBackupDebounced w5), O)).
  { unfold st. cbn [run_fine].
    change (fine_step env FDebounced (w0, O)) with (w1, O).
    rewrite Hstep2.
    change (fine_step env FDebounced (w3, 1%nat)) with (w4, 1%nat).
    reflexivity. }
  rewrite Hst. cbn [fst snd]. repeat split; congruence.
Qed.

End LostRecord.

(* ================================================================= *)
(** ** The configured bound and the invariants of the store *)

(** [initSettings] leaves a bound of at least one, provided the default
    is at least one; the settings form keeps it between one and ten. *)
Lemma initSettings_bound (defaults : Settings) (stored : option StoredSettings) :
  1 <= maxTotalBackups defaults ->
  1 <= maxTotalBackups (initSettings defaults stored).
Proof.
  intro Hd. unfold initSettings. cbn [maxTotalBackups].
  unfold number_at_least.
  destruct stored as [[[v|] dl dbg]|]; cbn [stored_maxTotalBackups].
  - destruct v; try exact Hd.
    destruct (Z.ltb_spec z 1); [exact Hd|assumption].
  - exact Hd.
  - destruct (Z.ltb_spec (maxTotalBackups defaults) 1); [exact Hd|assumption].
Qed.

Lemma on_max_total_input_bound (defaults : Settings) (total : option Z) :
  1 <= on_max_total_input defaults total <= 10.
Proof.
  unfold on_max_total_input. destruct total as [t|]; [|lia].
  destruct (Z.leb_spec 1 t), (Z.leb_spec t 10); cbn [andb]; lia.
Qed.

Section StoreInvariants.

Variable env : Env.

(** A predicate on the store that puts and deletes preserve is
    preserved by the whole cycle, whatever fails on the way. *)
Variable P : list Backup -> Prop.
Hypothesis P_put : forall b s, P s -> P (store_put b s).
Hypothesis P_delete : forall k s, P s -> P (store_delete k s).

Lemma promise_all_deletes_preserve (ks : list Key) :
  forall w,
    P (store w) ->
    P (store (snd (promise_all
                     (map (fun key => deleteBackup env (fst key) (snd key)) ks)
                     w))).
Proof.
  induction ks as [|[ck ts] ks IH]; intros w Hw; [exact Hw|].
  cbn [map promise_all fst snd].
  destruct (deleteBackup env ck ts w) as [[u|e] w1] eqn:Hd;
    apply deleteBackup_store in Hd;
    assert (Hw1 : P (store w1))
      by (rewrite Hd; first [now apply P_delete | exact Hw]);
    specialize (IH w1 Hw1);
    destruct (promise_all _ w1) as [[l|e'] w2]; exact IH.
Qed.

Lemma store_backup_preserves (settings : Settings) (b : Backup) (w : World) :
  P (store w) -> P (store (snd (store_backup env settings b w))).
Proof.
  intro Hw. unfold store_backup, bind.
  pose proof (reads_only_getBackupsForChat env (chatKey b) w) as [Hs _].
  destruct (getBackupsForChat env (chatKey b) w) as [[existing|e] w0];
    cbn [snd] in Hs |- *; [|now rewrite Hs].
  assert (Hw0 : P (store w0)) by now rewrite Hs.
  assert (Hsave : forall w1,
    P (store w1) ->
    P (store (snd ((u <- saveBackupToDB env b ;;
                    v <- cleanup_old_backups env settings ;;
                    ret true) w1)))).
  { intros w1 Hw1. unfold bind.
    destruct (saveBackupToDB env b w1) as [[u|e] w2] eqn:Hsv;
      apply saveBackupToDB_store in Hsv; cbn [snd];
      [|now rewrite Hsv].
    assert (Hw2 : P (store w2)) by (rewrite Hsv; now apply P_put).
    unfold cleanup_old_backups, bind.
    pose proof (reads_only_getAllBackupKeys env w2) as [Hk _].
    destruct (getAllBackupKeys env w2) as [[keys|e] w3];
      cbn [snd] in Hk |- *; [|now rewrite Hk].
    assert (Hw3 : P (store w3)) by now rewrite Hk.
    destruct (_ >? _); [|exact Hw3].
    pose proof (promise_all_deletes_preserve
                  (firstn (Z.to_nat (Z.of_nat (List.length keys)
                                     - maxTotalBackups settings))
                          (stable_sort ts_le keys)) w3 Hw3) as Hdel.
    destruct (promise_all _ w3) as [[l|e] w4]; exact Hdel. }
  destruct (find _ existing) as [old|].
  - destruct (_ >? _); [|exact Hw0].
    destruct (deleteBackup env _ _ w0) as [[u|e] w1] eqn:Hd;
      apply deleteBackup_store in Hd; cbn [snd]; [|now rewrite Hd].
    cbn [ret negb]. apply Hsave. rewrite Hd. now apply P_delete.
  - cbn [ret negb]. now apply Hsave.
Qed.

Lemma core_preserves (settings : Settings) (w : World) :
  P (store w) -> P (store (snd (executeBackupLogic_Core env settings w))).
Proof.
  intro Hw.
  destruct (chat_key_of (context (host w))) as [key|] eqn:Hkey;
    [|now rewrite core_skips_without_key].
  destruct (has_messages (context (host w))) eqn:Hmsgs;
    [|now rewrite (core_skips_empty_chat env settings w key)].
  destruct (executeBackupLogic_Core env settings w) as [res w'] eqn:Hrun.
  destruct (core_builds_candidate env settings w w' key res Hkey Hmsgs Hrun)
    as [[b [w1 [_ [_ [_ [Hstore Hsb]]]]]] | [e [_ Hsame]]].
  - rewrite <- Hstore in Hw.
    pose proof (store_backup_preserves settings b w1 Hw) as Hp.
    now rewrite Hsb in Hp.
  - cbn [snd]. now rewrite Hsame.
Qed.

End StoreInvariants.

(** The keys of the store stay distinct through every cycle. *)
Lemma core_keeps_keys_distinct (env : Env) (settings : Settings) (w : World) :
  store_wf (store w) ->
  store_wf (store (snd (executeBackupLogic_Core env settings w))).
Proof.
  apply core_preserves; [apply store_wf_put|apply store_wf_delete].
Qed.

(** A completed cycle whose reads succeeded keeps at most one backup
    per chat and last-message index. *)
Lemma core_keeps_unique_index (env : Env) (settings : Settings)
  (w w' : World) (r : bool) :
  (forall ck, db_fault env (OpGetAll ck) = NoFault) ->
  db_fault env OpGetAllKeys = NoFault ->
  unique_index (store w) ->
  executeBackupLogic_Core env settings w = (Ret r, w') ->
  unique_index (store w').
Proof.
  intros Hread Hkeys Huniq Hrun.
  destruct (chat_key_of (context (host w))) as [key|] eqn:Hkey.
  2:{ rewrite core_skips_without_key in Hrun by assumption.
      inversion Hrun; subst. exact Huniq. }
  destruct (has_messages (context (host w))) eqn:Hmsgs.
  2:{ rewrite (core_skips_empty_chat env settings w key) in Hrun
        by assumption.
      inversion Hrun; subst. exact Huniq. }
  destruct (core_builds_candidate env settings w w' key (Ret r)
              Hkey Hmsgs Hrun)
    as [[b [w1 [_ [_ [_ [Hstore Hsb]]]]]] | [e [He _]]]; [|discriminate].
  pose proof (store_backup_spec env settings b w1 w' r
                (Hread (chatKey b)) Hkeys Hsb) as Hspec.
  rewrite Hstore in Hspec.
  pose proof (stored_after_unique_index (maxTotalBackups settings) b
                (store w) Huniq) as Hu.
  rewrite <- Hspec in Hu. exact Hu.
Qed.

(* ================================================================= *)
(** ** Where the bound and the de-duplication do not hold *)

(** An environment like [sample_env] in which the transaction of
    [getAllBackupKeys] reports an error. *)
Definition listing_fails_env (body : JValue) (t : Z) : Env :=
  mkEnv t "2024-01-01T00:00:00.000Z"
        (fun _ => FetchResponse (mkResponse true 200 (Ret body)))
        (fun op =>
           match op with
           | OpGetAllKeys => TxFails (mkExn KStorage "transaction error")
           | _ => NoFault
           end)
        (Ret PopCustom2) (Ret tt)
        (fun _ _ => Ret tt) (fun _ => Ret tt) (fun _ => Ret tt)
        (fun _ h => h) false.

(** C1 as stated fails here.  The store holds three backups, the bound
    is three, and a fourth backup is taken while the key listing of the
    cleanup step fails: [getAllBackupKeys] catches the error and returns
    an empty list, nothing is deleted, the cycle returns [true] -- and
    the store holds four backups. *)
Lemma failed_listing_skips_cleanup :
  store_wf three_backups
  /\ Z.of_nat (List.length three_backups) = 3
  /\ maxTotalBackups (sample_settings 3) = 3
  /\ fst (executeBackupLogic_Core (listing_fails_env sample_chat_file 4000)
            (sample_settings 3) (world_with_chat_length 4 three_backups))
     = Ret true
  /\ Z.of_nat
       (List.length
          (store (snd (executeBackupLogic_Core
                         (listing_fails_env sample_chat_file 4000)
                         (sample_settings 3)
                         (world_with_chat_length 4 three_backups)))))
     = 4
  /\ fst (getAllBackupKeys (sample_env sample_chat_file 5000)
            (snd (executeBackupLogic_Core
                    (listing_fails_env sample_chat_file 4000)
                    (sample_settings 3)
                    (world_with_chat_length 4 three_backups))))
     = Ret [("char_0_chatA", 1000); ("char_0_chatA", 2000);
            ("char_0_chatA", 3000); ("char_0_chatA", 4000)].
Proof.
  split.
  { unfold store_wf. vm_compute.
    repeat constructor; cbn [In]; intuition discriminate. }
  repeat split; vm_compute; reflexivity.
Qed.

(** A failed key listing, in general: the cleanup step deletes nothing. *)
Lemma failed_listing_deletes_nothing
  (env : Env) (settings : Settings) (w : World) (e : Exn) :
  db_fault env OpGetAllKeys = TxFails e ->
  0 <= maxTotalBackups settings ->
  cleanup_old_backups env settings w
  = (Ret tt, add_event (EvDb OpGetAllKeys) w).
Proof.
  intros Hfail Hn. unfold cleanup_old_backups, bind.
  rewrite getAllBackupKeys_cases, Hfail. cbn [List.length Z.of_nat].
  destruct (Z.gtb_spec 0 (maxTotalBackups settings)); [lia|reflexivity].
Qed.

(** A backup of another chat, dated later than the clock of the cycles
    below. *)
Definition later_backup_of_other_chat : Backup :=
  mkBackup 5000 "char_1_chatB" "Bob" "chatB" (Some "1") false 0 "hey"
           (Some sample_chat_file) None.

Definition after_first_cycle : World :=
  snd (executeBackupLogic_Core (sample_env sample_chat_file 1000)
         (sample_settings 1)
         (world_with_chat_length 2 [later_backup_of_other_chat])).

Definition after_second_cycle : World :=
  snd (executeBackupLogic_Core (sample_env sample_chat_file 2000)
         (sample_settings 1) after_first_cycle).

(** C2 as stated fails here.  The bound is one and the store holds a
    backup of another chat with a later timestamp.  Two cycles in a row
    at the same last-message index both save their candidate and return
    [true]; each time the cleanup, which is global and goes by
    timestamp, deletes the candidate just saved.  No backup of the chat
    is left at that index. *)
Lemma newer_backup_evicts_the_candidate :
  fst (executeBackupLogic_Core (sample_env sample_chat_file 1000)
         (sample_settings 1)
         (world_with_chat_length 2 [later_backup_of_other_chat]))
  = Ret true
  /\ fst (executeBackupLogic_Core (sample_env sample_chat_file 2000)
            (sample_settings 1) after_first_cycle)
     = Ret true
  /\ In (EvDb (OpPut ("char_0_chatA", 2000))) (trace after_second_cycle)
  /\ store after_second_cycle = [later_backup_of_other_chat]
  /\ filter (fun x => (chatKey x =? "char_0_chatA")%string
                      && (lastMessageId x =? 1))
            (store after_second_cycle) = [].
Proof.
  repeat split; try (vm_compute; reflexivity).
  vm_compute. intuition.
Qed.

(** An environment in which the read of the backups of a chat fails. *)
Definition read_fails_env (body : JValue) (t : Z) : Env :=
  mkEnv t "2024-01-01T00:00:00.000Z"
        (fun _ => FetchResponse (mkResponse true 200 (Ret body)))
        (fun op =>
           match op with
           | OpGetAll _ => TxFails (mkExn KStorage "transaction error")
           | _ => NoFault
           end)
        (Ret PopCustom2) (Ret tt)
        (fun _ _ => Ret tt) (fun _ => Ret tt) (fun _ => Ret tt)
        (fun _ h => h) false.

(** When [getBackupsForChat] fails it returns an empty list; the older
    backup at the same index is then not found, not deleted, and the
    candidate is saved next to it. *)
Lemma failed_read_saves_a_duplicate :
  map (fun b => (timestamp b, lastMessageId b))
      (store (snd (executeBackupLogic_Core
                     (read_fails_env sample_chat_file 2000)
                     (sample_settings 3)
                     (world_with_chat_length 2 [sample_stored]))))
  = [(1000, 1); (2000, 1)].
Proof. vm_compute. reflexivity. Qed.

(** On a store that holds two backups of the chat at the same index, a
    cycle compares its candidate with the first of them only: that one
    is deleted, and two backups are left at the index. *)
Definition second_at_same_index : Backup :=
  mkBackup 1500 "char_0_chatA" "Alice" "chatA" (Some "0") false 1 "hi"
           (Some sample_chat_file) None.

Example duplicate_is_not_superseded :
  fst (executeBackupLogic_Core (sample_env sample_chat_file 2000)
         (sample_settings 3)
         (world_with_chat_length 2 [sample_stored; second_at_same_index]))
  = Ret true
  /\ map (fun b => (timestamp b, lastMessageId b))
       (store (snd (executeBackupLogic_Core
                      (sample_env sample_chat_file 2000)
                      (sample_settings 3)
                      (world_with_chat_length 2
                         [sample_stored; second_at_same_index]))))
     = [(1500, 1); (2000, 1)].
Proof. vm_compute. split; reflexivity. Qed.

(* ================================================================= *)
(* ================================================================= *)
(** * Further properties of the code *)

(** ** The object store as a finite map *)

Lemma key_eqb_sym (k1 k2 : Key) : key_eqb k1 k2 = key_eqb k2 k1.
Proof.
  unfold key_eqb. now rewrite String.eqb_sym, Z.eqb_sym.
Qed.

Lemma has_key_false (k : Key) (s : list Backup) :
  has_key k s = false ->
  forall x, In x s -> key_eqb (key_of x) k = false.
Proof.
  unfold has_key. intros H x Hx.
  destruct (key_eqb (key_of x) k) eqn:E; [|reflexivity].
  assert (existsb (fun b => key_eqb (key_of b) k) s = true)
    by (apply existsb_exists; now exists x).
  congruence.
Qed.

Lemma store_get_put_same (b : Backup) (s : list Backup) :
  store_get (key_of b) (store_put b s) = Some b.
Proof.
  unfold store_get, store_put.
  destruct (has_key (key_of b) s) eqn:Hk.
  - unfold has_key in Hk. unfold replace_key.
    induction s as [|x r IH]; [discriminate|].
    cbn [existsb map find] in *.
    destruct (key_eqb (key_of x) (key_of b)) eqn:E.
    + now rewrite key_eqb_refl.
    + rewrite E. apply IH. exact Hk.
  - pose proof (has_key_false _ _ Hk) as Hno. clear Hk.
    induction s as [|x r IH]; cbn [insert_by_key find].
    + now rewrite key_eqb_refl.
    + destruct (key_ltb (key_of b) (key_of x)); cbn [find].
      * now rewrite key_eqb_refl.
      * rewrite (Hno x (or_introl eq_refl)). apply IH.
        intros y Hy. apply Hno. now right.
Qed.

Lemma store_get_put_other (b : Backup) (k : Key) (s : list Backup) :
  key_eqb (key_of b) k = false ->
  store_get k (store_put b s) = store_get k s.
Proof.
  intro Hne. unfold store_get, store_put.
  destruct (has_key (key_of b) s).
  - unfold replace_key. induction s as [|x r IH]; [reflexivity|].
    cbn [map find].
    destruct (key_eqb (key_of x) (key_of b)) eqn:E.
    + rewrite Hne. apply key_eqb_eq in E.
      rewrite E, Hne. exact IH.
    + destruct (key_eqb (key_of x) k); [reflexivity|exact IH].
  - induction s as [|x r IH]; cbn [insert_by_key find].
    + now rewrite Hne.
    + destruct (key_ltb (key_of b) (key_of x)); cbn [find].
      * now rewrite Hne.
      * destruct (key_eqb (key_of x) k); [reflexivity|exact IH].
Qed.

Lemma store_get_delete_same (k : Key) (s : list Backup) :
  store_get k (store_delete k s) = None.
Proof.
  unfold store_get, store_delete.
  induction s as [|x r IH]; [reflexivity|]. cbn [filter].
  destruct (key_eqb (key_of x) k) eqn:E; cbn [negb find]; [exact IH|].
  now rewrite E.
Qed.

Lemma store_get_delete_other (k k' : Key) (s : list Backup) :
  key_eqb k k' = false ->
  store_get k' (store_delete k s) = store_get k' s.
Proof.
  intro Hne. unfold store_get, store_delete.
  induction s as [|x r IH]; [reflexivity|]. cbn [filter find].
  destruct (key_eqb (key_of x) k) eqn:E; cbn [negb find].
  - apply key_eqb_eq in E. rewrite E, Hne. exact IH.
  - destruct (key_eqb (key_of x) k'); [reflexivity|exact IH].
Qed.

Lemma store_delete_absent (k : Key) (s : list Backup) :
  has_key k s = false -> store_delete k s = s.
Proof.
  intro H. pose proof (has_key_false _ _ H) as Hno. clear H.
  unfold store_delete. induction s as [|x r IH]; [reflexivity|].
  cbn [filter]. rewrite (Hno x (or_introl eq_refl)). cbn [negb].
  f_equal. apply IH. intros y Hy. apply Hno. now right.
Qed.

Lemma getBackupFromDB_cases (env : Env) (ck : string) (ts : Z) (w : World) :
  getBackupFromDB env ck ts w
  = match db_fault env (OpGet (ck, ts)) with
    | NoFault =>
        (Ret match store_get (ck, ts) (store w) with
             | Some b => FFound b
             | None => FUndefined
             end,
         add_event (EvDb (OpGet (ck, ts))) w)
    | OpenFails e => (Throw e, w)
    | TxFails e => (Ret FNull, add_event (EvDb (OpGet (ck, ts))) w)
    end.
Proof.
  unfold getBackupFromDB, getDB, transaction, try_catch, bind.
  destruct (db_fault env (OpGet (ck, ts))); reflexivity.
Qed.

(** What [getBackupFromDB] finds in a store, when nothing fails. *)
Definition lookup (k : Key) (s : list Backup) : Fetched :=
  match store_get k s with
  | Some b => FFound b
  | None => FUndefined
  end.

(** X1. A backup that [saveBackupToDB] has saved is what [getBackupFromDB]
    gives back under its key, whether the key was new or already in the
    store; the record under any other key is not touched. *)
Theorem saved_backup_is_read_back (env : Env) (b : Backup) (w : World) :
  db_fault env (OpPut (key_of b)) = NoFault ->
  (forall k, db_fault env (OpGet k) = NoFault) ->
  exists w1 : World,
    saveBackupToDB env b w = (Ret tt, w1)
    /\ fst (getBackupFromDB env (chatKey b) (timestamp b) w1) = Ret (FFound b)
    /\ forall (ck : string) (ts : Z),
         key_eqb (key_of b) (ck, ts) = false ->
         fst (getBackupFromDB env ck ts w1) = Ret (lookup (ck, ts) (store w)).
Proof.
  intros Hput Hget. eexists. rewrite saveBackupToDB_cases, Hput.
  split; [reflexivity|]. split.
  - rewrite getBackupFromDB_cases, Hget. cbn [fst store set_store].
    fold (key_of b). now rewrite store_get_put_same.
  - intros ck ts Hne. rewrite getBackupFromDB_cases, Hget.
    cbn [fst store set_store add_event].
    unfold lookup. now rewrite store_get_put_other.
Qed.

(** X2. After [deleteBackup] the key is no longer found, the record under
    every other key is what it was, and deleting a key that is not in the
    store resolves all the same and leaves the store as it is. *)
Theorem deleted_backup_is_gone (env : Env) (ck : string) (ts : Z) (w : World) :
  db_fault env (OpDelete (ck, ts)) = NoFault ->
  (forall k, db_fault env (OpGet k) = NoFault) ->
  exists w1 : World,
    deleteBackup env ck ts w = (Ret tt, w1)
    /\ fst (getBackupFromDB env ck ts w1) = Ret FUndefined
    /\ (forall (ck' : string) (ts' : Z),
          key_eqb (ck, ts) (ck', ts') = false ->
          fst (getBackupFromDB env ck' ts' w1)
          = Ret (lookup (ck', ts') (store w)))
    /\ (has_key (ck, ts) (store w) = false -> store w1 = store w).
Proof.
  intros Hdel Hget. eexists. rewrite deleteBackup_cases, Hdel.
  split; [reflexivity|]. split; [|split].
  - rewrite getBackupFromDB_cases, Hget. cbn [fst store set_store].
    now rewrite store_get_delete_same.
  - intros ck' ts' Hne. rewrite getBackupFromDB_cases, Hget.
    cbn [fst store set_store add_event]. unfold lookup.
    now rewrite store_get_delete_other.
  - intro Habs. cbn [store set_store add_event].
    now apply store_delete_absent.
Qed.

(** ** Failures of the store *)

(** X3. The three reading functions swallow a failed transaction but not
    a failed connection.  When the transaction fails, [getBackupFromDB]
    resolves to [null], [getBackupsForChat] and [getAllBackupKeys] to an
    empty list; when the database cannot be opened they reject with the
    error of the opening, because [getDB] is awaited before the [try].
    None of them changes the store. *)
Theorem reads_swallow_transaction_errors_only
  (env : Env) (ck : string) (ts : Z) (w : World) (e : Exn) :
  (db_fault env (OpGet (ck, ts)) = TxFails e ->
   fst (getBackupFromDB env ck ts w) = Ret FNull)
  /\ (db_fault env (OpGetAll ck) = TxFails e ->
      fst (getBackupsForChat env ck w) = Ret [])
  /\ (db_fault env OpGetAllKeys = TxFails e ->
      fst (getAllBackupKeys env w) = Ret [])
  /\ (db_fault env (OpGet (ck, ts)) = OpenFails e ->
      getBackupFromDB env ck ts w = (Throw e, w))
  /\ (db_fault env (OpGetAll ck) = OpenFails e ->
      getBackupsForChat env ck w = (Throw e, w))
  /\ (db_fault env OpGetAllKeys = OpenFails e ->
      getAllBackupKeys env w = (Throw e, w))
  /\ store (snd (getBackupFromDB env ck ts w)) = store w
  /\ store (snd (getBackupsForChat env ck w)) = store w
  /\ store (snd (getAllBackupKeys env w)) = store w.
Proof.
  rewrite getBackupFromDB_cases, getBackupsForChat_cases,
    getAllBackupKeys_cases.
  repeat split; try (intros ->; reflexivity).
  - destruct (db_fault env (OpGet (ck, ts))); reflexivity.
  - destruct (db_fault env (OpGetAll ck)); reflexivity.
  - destruct (db_fault env OpGetAllKeys); reflexivity.
Qed.


(** ** The candidate of a cycle *)

(** What [getCurrentChatInfo] reads from the host. *)
Definition chat_info_of (h : Host) : ChatInfo :=
  match fst (getCurrentChatInfo (mkWorld [] false None [] 0 false h None []))
  with
  | Ret info => info
  | Throw _ => mkChatInfo "" "" None false
  end.

Lemma getCurrentChatInfo_eq (w : World) :
  getCurrentChatInfo w
  = (Ret (chat_info_of (host w)), add_event EvGetContext w).
Proof.
  unfold chat_info_of, getCurrentChatInfo, bind. rewrite !getContext_eq.
  cbn [get_world host add_event context].
  destruct (truthy_str _); [reflexivity|].
  destruct (characterId _); reflexivity.
Qed.

(** The last message of a chat, as [context.chat[lastMsgIndex]]. *)
Definition last_message (c : Context) : option JValue :=
  match chat c with
  | Some l => nth_error l (List.length l - 1)
  | None => None
  end.

(** The backup object of step 2, for the raw data of step 1. *)
Definition candidate (env : Env) (h : Host) (key preview : string)
  (raw : RawChat) : Backup :=
  let info := chat_info_of h in
  mkBackup (now env) key (ci_entityName info) (ci_chatName info)
           (ci_entityId info) (ci_isGroup info)
           (last_message_index (context h)) preview
           (Some match raw with
                 | RawGroup messages _ => messages
                 | RawChar v => v
                 end)
           match raw with
           | RawGroup _ metadata => Some metadata
           | RawChar _ => None
           end.

(** The cycle up to step 2, for a chat with a key and messages. *)
Lemma core_steps (env : Env) (settings : Settings) (w : World)
  (key : string) :
  chat_key_of (context (host w)) = Some key ->
  has_messages (context (host w)) = true ->
  let w2 := add_events [EvGetContext; EvGetContext; EvGetContext] w in
  executeBackupLogic_Core env settings w
  = match message_preview (last_message (context (host w))) with
    | Throw e => (Throw e, w2)
    | Ret preview =>
        match fetch_raw_chat env (context (host w))
                (chat_info_of (host w)) w2 with
        | (Throw e, w3) => (Throw e, w3)
        | (Ret raw, w3) =>
            if raw_truthy raw
            then store_backup env settings
                   (candidate env (host w) key preview raw) w3
            else (Throw (mkExn KError "未能从API获取有效的聊天数据"), w3)
        end
    end.
Proof.
  intros Hkey Hmsgs w2. unfold executeBackupLogic_Core, bind.
  rewrite getCurrentChatKey_eq, Hkey, getCurrentChatInfo_eq, getContext_eq.
  rewrite !host_add_event.
  unfold has_messages in Hmsgs. unfold last_message, candidate,
    last_message_index.
  destruct (chat (context (host w))) as [[|m ms]|] eqn:Hchat;
    try discriminate.
  replace (List.length (m :: ms) - 1)%nat with (List.length ms)
    by (cbn [List.length]; lia).
  cbn [lift].
  destruct (message_preview _) as [preview|e]; [|reflexivity].
  rewrite finally_nothing, try_catch_rethrow. unfold bind.
  fold w2. cbn [add_events fold_left] in w2. fold w2.
  destruct (fetch_raw_chat env _ _ w2) as [[raw|e] w3]; [|reflexivity].
  destruct (raw_truthy raw); reflexivity.
Qed.


Lemma store_by_chatKey_none (s : list Backup) (ck : string) :
  (forall x, In x s -> chatKey x <> ck) -> store_by_chatKey ck s = [].
Proof.
  unfold store_by_chatKey. induction s as [|x r IH]; intro Hnew;
    [reflexivity|].
  cbn [filter].
  destruct (String.eqb_spec (chatKey x) ck) as [E|E].
  - exfalso. now apply (Hnew x (or_introl eq_refl)).
  - apply IH. intros y Hy. apply Hnew. now right.
Qed.









(** X7. Replacing an older backup is not atomic.  The cycle deletes the
    stored backup of the same chat and last-message index before it
    saves the candidate; when that save fails, the cycle throws the
    error of the save and the store is left without the older backup
    and without the candidate: the chat has no backup at that index any
    more. *)
Theorem superseded_backup_is_lost_when_save_fails
  (env : Env) (settings : Settings) (w w3 : World) (key preview : string)
  (raw : RawChat) (existing : Backup) (e : Exn) :
  chat_key_of (context (host w)) = Some key ->
  has_messages (context (host w)) = true ->
  message_preview (last_message (context (host w))) = Ret preview ->
  fetch_raw_chat env (context (host w)) (chat_info_of (host w))
    (add_events [EvGetContext; EvGetContext; EvGetContext] w)
  = (Ret raw, w3) ->
  raw_truthy raw = true ->
  unique_index (store w) ->
  In existing (store w) ->
  chatKey existing = key ->
  lastMessageId existing = last_message_index (context (host w)) ->
  timestamp existing < now env ->
  db_fault env (OpGetAll key) = NoFault ->
  db_fault env (OpDelete (key_of existing)) = NoFault ->
  db_fault env (OpPut (key, now env)) = TxFails e ->
  exists w' : World,
    executeBackupLogic_Core env settings w = (Throw e, w')
    /\ store w' = store_delete (key_of existing) (store w)
    /\ forall x : Backup,
         In x (store w') ->
         ~ (chatKey x = key
            /\ lastMessageId x = last_message_index (context (host w))).
Proof.
  intros Hkey Hmsgs Hprev Hraw Htruthy Huniq Hin Hck Hidx Holder
    Hread Hdel Hput.
  rewrite (core_steps env settings w key Hkey Hmsgs), Hprev.
  cbn [add_events fold_left] in Hraw |- *. rewrite Hraw, Htruthy.
  pose proof (reads_only_fetch_raw_chat env (context (host w))
                (chat_info_of (host w))
                (add_event EvGetContext
                   (add_event EvGetContext (add_event EvGetContext w))))
    as [Hstore _].
  rewrite Hraw in Hstore. cbn [snd store add_event] in Hstore.
  set (b := candidate env (host w) key preview raw).
  assert (Hmatch : dedup_match b (store w3) = Some existing).
  { rewrite Hstore. apply dedup_match_the_one.
    - exact Hin.
    - apply same_slot_true. split; [exact Hck|exact Hidx].
    - intros x Hx Hslot. apply same_slot_true in Hslot.
      destruct Hslot as [Hc Hi]. apply Huniq; try assumption.
      + now rewrite Hc, Hck.
      + now rewrite Hi, Hidx. }
  unfold store_backup, bind.
  change (chatKey b) with key.
  rewrite getBackupsForChat_cases, Hread.
  unfold dedup_match in Hmatch. change (chatKey b) with key in Hmatch.
  cbn [store add_event]. rewrite Hmatch.
  change (timestamp b) with (now env).
  destruct (Z.gtb_spec (now env) (timestamp existing)); [|lia].
  rewrite deleteBackup_cases.
  replace (key, timestamp existing) with (key_of existing)
    by (unfold key_of; now rewrite Hck).
  rewrite Hdel. cbn [ret negb].
  rewrite saveBackupToDB_cases. change (key_of b) with (key, now env).
  rewrite Hput.
  eexists. split; [reflexivity|].
  cbn [store set_store add_event]. rewrite Hstore.
  split; [reflexivity|].
  intros x Hx [Hc Hi]. apply in_store_delete in Hx. destruct Hx as [Hx Hne].
  apply Hne. f_equal. apply Huniq; try assumption.
  - now rewrite Hc, Hck.
  - now rewrite Hi, Hidx.
Qed.

(** ** A cleanup that fails *)

Lemma failing_deletes_keep_store (env : Env) (e : Exn) (ks : list Key) :
  (forall k, db_fault env (OpDelete k) = TxFails e) ->
  forall w : World,
    store (snd (promise_all
                  (map (fun key => deleteBackup env (fst key) (snd key)) ks)
                  w)) = store w
    /\ (ks <> [] ->
        fst (promise_all
               (map (fun key => deleteBackup env (fst key) (snd key)) ks) w)
        = Throw e).
Proof.
  intro Hfail. induction ks as [|[ck ts] ks IH]; intro w.
  - split; [reflexivity|]. intro H. now contradiction H.
  - cbn [map promise_all fst snd]. rewrite deleteBackup_cases, Hfail.
    destruct (IH (add_event (EvDb (OpDelete (ck, ts))) w)) as [Hs _].
    split; [exact Hs|]. intros _. reflexivity.
Qed.

Lemma has_key_new_chat (key : string) (t : Z) (s : list Backup) :
  (forall x, In x s -> chatKey x <> key) -> has_key (key, t) s = false.
Proof.
  intro Hnew. unfold has_key.
  destruct (existsb _ s) eqn:E; [|reflexivity].
  apply existsb_exists in E. destruct E as [x [Hx Hk]].
  apply key_eqb_eq in Hk. exfalso. apply (Hnew x Hx).
  now inversion Hk.
Qed.

Lemma length_insert_by_key (b : Backup) (s : list Backup) :
  List.length (insert_by_key b s) = S (List.length s).
Proof.
  induction s as [|x r IH]; [reflexivity|]. cbn [insert_by_key].
  destruct (key_ltb _ _); cbn [List.length]; [reflexivity|now rewrite IH].
Qed.

(** X8. A cleanup that cannot delete reports a saved backup as failed.
    When the candidate has been saved and the store is then over the
    bound, but the deletions of the cleanup fail, the cycle throws the
    error of the deletion: the candidate stays in the store, nothing is
    deleted, and the store is left over the bound. *)
Theorem failed_cleanup_leaves_the_saved_backup
  (env : Env) (settings : Settings) (w w3 : World) (key preview : string)
  (raw : RawChat) (e : Exn) :
  chat_key_of (context (host w)) = Some key ->
  has_messages (context (host w)) = true ->
  message_preview (last_message (context (host w))) = Ret preview ->
  fetch_raw_chat env (context (host w)) (chat_info_of (host w))
    (add_events [EvGetContext; EvGetContext; EvGetContext] w)
  = (Ret raw, w3) ->
  raw_truthy raw = true ->
  (forall x, In x (store w) -> chatKey x <> key) ->
  0 <= maxTotalBackups settings <= Z.of_nat (List.length (store w)) ->
  db_fault env (OpGetAll key) = NoFault ->
  db_fault env (OpPut (key, now env)) = NoFault ->
  db_fault env OpGetAllKeys = NoFault ->
  (forall k, db_fault env (OpDelete k) = TxFails e) ->
  exists w' : World,
    executeBackupLogic_Core env settings w = (Throw e, w')
    /\ store w'
       = store_put (candidate env (host w) key preview raw) (store w)
    /\ In (candidate env (host w) key preview raw) (store w')
    /\ maxTotalBackups settings < Z.of_nat (List.length (store w')).
Proof.
  intros Hkey Hmsgs Hprev Hraw Htruthy Hnew Hbound Hread Hput Hkeys Hdel.
  rewrite (core_steps env settings w key Hkey Hmsgs), Hprev.
  cbn [add_events fold_left] in Hraw |- *. rewrite Hraw, Htruthy.
  pose proof (reads_only_fetch_raw_chat env (context (host w))
                (chat_info_of (host w))
                (add_event EvGetContext
                   (add_event EvGetContext (add_event EvGetContext w))))
    as [Hstore _].
  rewrite Hraw in Hstore. cbn [snd store add_event] in Hstore.
  set (b := candidate env (host w) key preview raw).
  unfold store_backup, bind. change (chatKey b) with key.
  rewrite getBackupsForChat_cases, Hread. rewrite Hstore.
  rewrite (store_by_chatKey_none _ _ Hnew). cbn [find ret negb].
  rewrite saveBackupToDB_cases. change (key_of b) with (key, now env).
  rewrite Hput.
  unfold cleanup_old_backups, bind. rewrite getAllBackupKeys_cases, Hkeys.
  cbn [store set_store add_event]. rewrite Hstore.
  assert (Hlen : List.length (store_put b (store w))
                 = S (List.length (store w))).
  { unfold store_put. change (key_of b) with (key, now env).
    rewrite (has_key_new_chat key (now env) (store w) Hnew).
    apply length_insert_by_key. }
  unfold store_keys at 1 3. rewrite !length_map, Hlen.
  destruct (Z.gtb_spec (Z.of_nat (S (List.length (store w))))
              (maxTotalBackups settings)); [|lia].
  match goal with
  | |- context [promise_all ?ms ?w0] =>
      match ms with
      | map _ ?ks =>
          destruct (failing_deletes_keep_store env e ks Hdel w0) as [Hs Hthrow]
      end
  end.
  match type of Hthrow with
  | ?ks <> [] -> _ =>
      assert (Hne : ks <> [])
  end.
  { intro E. apply (f_equal (@List.length Key)) in E.
    rewrite length_firstn in E. cbn [List.length] in E.
    pose proof (Permutation_length
                  (stable_sort_perm ts_le (map key_of (store_put b (store w)))))
      as Hp.
    unfold store_keys in E. rewrite Hp, !length_map, Hlen in E.
    lia. }
  specialize (Hthrow Hne).
  destruct (promise_all _ _) as [[l|e'] w4]; cbn [fst snd] in Hs, Hthrow;
    [discriminate|].
  inversion Hthrow; subst e'.
  eexists. split; [reflexivity|].
  cbn [store set_store add_event] in Hs. rewrite Hs.
  split; [reflexivity|]. split.
  - apply in_store_put. now left.
  - rewrite Hlen. lia.
Qed.

(** ** The coordinator *)

(** Every request fails: it is rejected, or answered with a status that
    is not ok. *)
Definition every_request_fails (env : Env) : Prop :=
  forall r : Request,
    match fetch env r with
    | FetchRejected _ => True
    | FetchResponse resp => resp_ok resp = false
    end.

Lemma fetch_raw_chat_fails (env : Env) (context : Context) (info : ChatInfo)
  (w : World) :
  every_request_fails env ->
  exists (e : Exn) (w' : World),
    fetch_raw_chat env context info w = (Throw e, w').
Proof.
  intro Hfail. unfold fetch_raw_chat.
  assert (Hreq : forall (r : Request) (w0 : World) (k : Response -> M RawChat),
    (forall resp, resp_ok resp = false ->
                  exists e w', k resp (add_event (EvFetch r) w0) = (Throw e, w')) ->
    exists e w', bind (js_fetch env r) k w0 = (Throw e, w')).
  { intros r w0 k Hk. unfold bind, js_fetch, bind. cbn [emit modify].
    specialize (Hfail r). destruct (fetch env r) as [e|resp].
    - eexists; eexists; reflexivity.
    - cbn [ret]. now apply Hk. }
  destruct (ci_isGroup info).
  - apply Hreq. intros resp Hno. rewrite Hno. cbn [negb].
    eexists; eexists; reflexivity.
  - unfold bind at 1. cbn [get_world].
    destruct (match characters (host w) with
              | Some cs =>
                  match characterId context with
                  | Some cid => nth_error cs cid
                  | None => None
                  end
              | None => None
              end) as [c|] eqn:Hc.
    + replace (match characters (host w), characterId context with
               | Some cs, Some cid => nth_error cs cid
               | _, _ => None
               end) with (Some c)
        by (destruct (characters (host w)); [destruct (characterId context)|];
            congruence).
      apply Hreq. intros resp Hno. rewrite Hno. cbn [negb].
      eexists; eexists; reflexivity.
    + replace (match characters (host w), characterId context with
               | Some cs, Some cid => nth_error cs cid
               | _, _ => None
               end) with (@None Character)
        by (destruct (characters (host w)); [destruct (characterId context)|];
            congruence).
      eexists; eexists; reflexivity.
Qed.

Lemma failed_request_cycle
  (env : Env) (w : World) (key : string) (settings : Settings) :
  isBackupInProgress w = false ->
  chat_key_of (context (host w)) = Some key ->
  has_messages (context (host w)) = true ->
  extension_settings w = Some settings ->
  every_request_fails env ->
  exists (wc : World) (e : Exn),
    performBackupConditional env w
    = (Ret (Some false),
       set_isBackupInProgress false
         (add_event (EvToast ToastError ("备份失败: " ++ err_or_unknown e)) wc))
    /\ store wc = store w.
Proof.
  intros Hidle Hkey Hmsgs Hset Hfail.
  destruct (cycle_runs_under_lock env w key settings Hidle Hkey Hmsgs Hset)
    as [w_in [_ [Hstore [Hhost [_ Hrun]]]]].
  rewrite Hrun. unfold backup_under_lock, finally, try_catch, bind.
  assert (Hcore : exists e wc,
    executeBackupLogic_Core env settings w_in = (Throw e, wc)
    /\ store wc = store w).
  { rewrite (core_steps env settings w_in key)
      by (rewrite Hhost; assumption).
    destruct (message_preview _) as [preview|e].
    - match goal with
      | |- context [fetch_raw_chat env ?c ?i ?w0] =>
          pose proof (reads_only_fetch_raw_chat env c i w0) as [Hs _];
          destruct (fetch_raw_chat_fails env c i w0 Hfail) as [e [w3 Hf]]
      end.
      rewrite Hf in Hs |- *. exists e, w3. split; [reflexivity|].
      cbn [snd] in Hs. rewrite Hs. rewrite store_add_events. exact Hstore.
    - eexists; eexists. split; [reflexivity|].
      rewrite store_add_events. exact Hstore. }
  destruct Hcore as [e [wc [Hcore Hwc]]]. rewrite Hcore.
  cbn [emit modify ret].
  exists wc, e. split; [reflexivity|exact Hwc].
Qed.

(** X9. When the chat cannot be fetched -- every request is rejected or
    answered with an error status -- a backup attempt on an active chat
    stores nothing: [performBackupConditional] resolves to [false], the
    store is as it was, the flag is released, and the last thing that
    happened is the error toast. *)
Theorem failed_request_stores_nothing
  (env : Env) (w : World) (key : string) (settings : Settings) :
  isBackupInProgress w = false ->
  chat_key_of (context (host w)) = Some key ->
  has_messages (context (host w)) = true ->
  extension_settings w = Some settings ->
  every_request_fails env ->
  exists (w' : World) (e : Exn),
    performBackupConditional env w = (Ret (Some false), w')
    /\ store w' = store w
    /\ isBackupInProgress w' = false
    /\ last (trace w') EvGetContext
       = EvToast ToastError ("备份失败: " ++ err_or_unknown e).
Proof.
  intros Hidle Hkey Hmsgs Hset Hfail.
  destruct (failed_request_cycle env w key settings Hidle Hkey Hmsgs Hset
              Hfail) as [wc [e [Hrun Hwc]]].
  rewrite Hrun. eexists; exists e. split; [reflexivity|].
  split; [exact Hwc|]. split; [reflexivity|].
  cbn [trace set_isBackupInProgress add_event]. apply last_last.
Qed.

(** X10. [performBackupConditional] never rejects: whatever the
    environment does, it resolves -- to [undefined] exactly when a backup
    was in progress, and otherwise to a boolean. *)
Theorem conditional_backup_always_resolves (env : Env) (w : World) :
  exists r : option bool,
    fst (performBackupConditional env w) = Ret r
    /\ (r = None <-> isBackupInProgress w = true).
Proof.
  unfold performBackupConditional, bind. cbn [get_world].
  destruct (isBackupInProgress w).
  { exists None. split; [reflexivity|tauto]. }
  assert (Hno : forall b : bool, Some b = None <-> false = true)
    by (intro; split; discriminate).
  rewrite getContext_eq, getCurrentChatKey_eq, !host_add_event.
  destruct (chat_key_of (context (host w))) as [key|];
    [|eexists; split; [reflexivity|apply Hno]].
  destruct (chat (context (host w))) as [[|m ms]|];
    try (eexists; split; [reflexivity|apply Hno]).
  cbn [get_world extension_settings add_event].
  destruct (extension_settings w) as [settings|];
    [|eexists; split; [reflexivity|apply Hno]].
  cbn [modify]. unfold backup_under_lock, finally, try_catch, bind.
  destruct (executeBackupLogic_Core env settings _) as [[success|e] wc].
  - destruct ((if success then updateBackupsList env else ret tt) wc)
      as [[u|e] wu]; cbn; eexists; (split; [reflexivity|apply Hno]).
  - cbn. eexists; split; [reflexivity|apply Hno].
Qed.

(** X11. A manual backup never rejects and always ends with a toast of
    its own: the success toast when the cycle stored a backup, the
    "skipped" toast in every other case.  In particular, when the cycle
    failed because the chat could not be fetched, the error toast is
    followed by the toast that says the backup was skipped because the
    chat is empty or unchanged. *)
Theorem manual_backup_reports (env : Env) (w : World) :
  performManualBackup env w
  = (Ret tt,
     add_event
       (match fst (performBackupConditional env w) with
        | Ret (Some true) => EvToast ToastSuccess "已手动备份当前聊天"
        | _ => EvToast ToastInfo "手动备份已跳过 (聊天为空或无新变化)"
        end)
       (snd (performBackupConditional env w)))
  /\ (forall (key : string) (settings : Settings),
        isBackupInProgress w = false ->
        chat_key_of (context (host w)) = Some key ->
        has_messages (context (host w)) = true ->
        extension_settings w = Some settings ->
        every_request_fails env ->
        exists (es : list Event) (e : Exn),
          trace (snd (performManualBackup env w))
          = (es ++ [EvToast ToastError ("备份失败: " ++ err_or_unknown e);
                    EvToast ToastInfo "手动备份已跳过 (聊天为空或无新变化)"])%list
          /\ store (snd (performManualBackup env w)) = store w).
Proof.
  assert (Heq : performManualBackup env w
    = (Ret tt,
       add_event
         (match fst (performBackupConditional env w) with
          | Ret (Some true) => EvToast ToastSuccess "已手动备份当前聊天"
          | _ => EvToast ToastInfo "手动备份已跳过 (聊天为空或无新变化)"
          end)
         (snd (performBackupConditional env w)))).
  { unfold performManualBackup, try_catch, bind.
    destruct (conditional_never_throws env w) as [r Hr].
    destruct (performBackupConditional env w) as [res wc].
    cbn [fst snd] in Hr |- *. subst res.
    destruct r as [[|]|]; reflexivity. }
  split; [exact Heq|].
  intros key settings Hidle Hkey Hmsgs Hset Hfail. rewrite Heq.
  destruct (failed_request_cycle env w key settings Hidle Hkey Hmsgs Hset
              Hfail) as [wc [e [Hrun Hwc]]].
  rewrite Hrun. cbn [fst snd trace store add_event set_isBackupInProgress].
  exists (trace wc), e. split; [|exact Hwc].
  now rewrite <- app_assoc.
Qed.

(** ** Debounced triggers, one event at a time *)

(** At most one timer is pending, and it is the one on record in
    [backupTimeout]. *)
Definition timer_on_record (w : World) : Prop :=
  match timers w with
  | [] => True
  | [t] => backupTimeout w = Some (timer_id t)
  | _ :: _ :: _ => False
  end.

Lemma cancel_on_record (w : World) :
  timer_on_record w -> cancel (backupTimeout w) (timers w) = [].
Proof.
  unfold timer_on_record, cancel.
  destruct (timers w) as [|t [|t' r]]; intro H.
  - now destruct (backupTimeout w).
  - rewrite H. cbn [filter]. now rewrite Nat.eqb_refl.
  - contradiction.
Qed.

Lemma debounced_trigger_keeps_record (w : World) :
  timer_on_record w -> timer_on_record (snd (performBackupDebounced w)).
Proof.
  intro Hinv. pose proof (cancel_on_record w Hinv) as Hc.
  destruct (chat_key_of (context (host w))) as [key|] eqn:Hkey.
  - destruct (extension_settings w) as [[n [delay|] dbg]|] eqn:Hset.
    + rewrite (debounce_schedules w key delay n dbg Hkey Hset).
      unfold timer_on_record. cbn [snd timers backupTimeout set_timers
        set_backupTimeout]. rewrite Hc. reflexivity.
    + rewrite debounce_only_cancels
        by (right; right; exists n, dbg; exact Hset).
      unfold timer_on_record. cbn [snd timers backupTimeout set_timers
        set_backupTimeout]. now rewrite Hc.
    + rewrite debounce_only_cancels by (right; left; exact Hset).
      unfold timer_on_record. cbn [snd timers backupTimeout set_timers
        set_backupTimeout]. now rewrite Hc.
  - rewrite debounce_only_cancels by (left; exact Hkey).
    unfold timer_on_record. cbn [snd timers backupTimeout set_timers
      set_backupTimeout]. now rewrite Hc.
Qed.

Lemma callback_keeps_timers (env : Env) (k : string) (w : World) :
  timers (snd (debounce_callback env k w)) = timers w.
Proof.
  unfold debounce_callback, debounce_callback_head, debounce_callback_tail,
    bind.
  rewrite getCurrentChatKey_eq.
  destruct (negb _); [reflexivity|]. cbn [ret].
  pose proof (conditional_keeps_timers env (add_event EvGetContext w)) as Hk.
  destruct (performBackupConditional env _) as [[r|e] w1];
    cbn [snd] in Hk |- *; exact Hk.
Qed.

Lemma elapsed_timer_keeps_record (env : Env) (id : nat) (w : World) :
  timer_on_record w -> timer_on_record (snd (fire_timer env id w)).
Proof.
  intro Hinv. unfold fire_timer, bind. cbn [get_world].
  destruct (find _ (timers w)) as [t|] eqn:Hf; [|exact Hinv].
  cbn [modify]. unfold timer_on_record.
  rewrite callback_keeps_timers. cbn [timers set_timers].
  unfold timer_on_record in Hinv.
  destruct (timers w) as [|t0 [|t1 r]]; [discriminate| |contradiction].
  cbn [find] in Hf. cbn [filter].
  destruct (timer_id t0 =? id)%nat; [exact I|discriminate].
Qed.

Lemma handled_event_keeps_record (env : Env) (e : HostEvent) (w : World) :
  timer_on_record w -> timer_on_record (snd (handle env e w)).
Proof.
  intro Hinv. destruct e as [| |h|id]; cbn [handle].
  - now apply debounced_trigger_keeps_record.
  - unfold try_catch, bind.
    pose proof (conditional_keeps_schedule env w) as Hk.
    unfold schedule_state in Hk.
    destruct (performBackupConditional env w) as [[r|e] w1];
      cbn [snd ret] in Hk |- *; unfold timer_on_record;
      injection Hk as Ht Hb _ _ _; rewrite Ht, Hb; exact Hinv.
  - exact Hinv.
  - now apply elapsed_timer_keeps_record.
Qed.

(** X12. As long as the callback of a timer runs in one piece, the
    debounce keeps at most one timer pending, and that timer is the one
    recorded in [backupTimeout]: this holds after every sequence of
    debounced events, immediate events, changes of chat and elapsing
    timers. *)
Theorem one_pending_timer_at_most (env : Env) (es : list HostEvent) :
  forall w : World,
    timer_on_record w ->
    timer_on_record (run_events env es w)
    /\ (List.length (timers (run_events env es w)) <= 1)%nat.
Proof.
  assert (Hlen : forall w, timer_on_record w ->
                           (List.length (timers w) <= 1)%nat).
  { intros w H. unfold timer_on_record in H.
    destruct (timers w) as [|t [|t' r]]; cbn; lia. }
  induction es as [|e es IH]; intros w Hinv; cbn [run_events].
  - split; [exact Hinv|now apply Hlen].
  - apply IH. now apply handled_event_keeps_record.
Qed.

(** ** The list of backups *)

Definition newest_first (a b : Backup) : Prop := timestamp b <= timestamp a.

Lemma insert_sorted_newest_first (x : Backup) (l : list Backup) :
  StronglySorted newest_first l ->
  StronglySorted newest_first (insert_sorted ts_ge x l).
Proof.
  induction 1 as [|y l Hl IH Hy]; cbn [insert_sorted].
  - repeat constructor.
  - unfold ts_ge. destruct (timestamp y <=? timestamp x) eqn:E.
    + apply Z.leb_le in E. constructor; [now constructor|].
      constructor; [exact E|].
      eapply Forall_impl; [|exact Hy]. unfold newest_first. intros; lia.
    + apply Z.leb_gt in E. constructor; [exact IH|].
      apply Forall_forall. intros z Hz.
      apply (Permutation_in _ (insert_sorted_perm ts_ge x l)) in Hz.
      destruct Hz as [<-|Hz]; [unfold newest_first; lia|].
      rewrite Forall_forall in Hy. now apply Hy.
Qed.

Lemma stable_sort_newest_first (l : list Backup) :
  StronglySorted newest_first (stable_sort ts_ge l).
Proof.
  induction l as [|x l IH]; [constructor|].
  now apply insert_sorted_newest_first.
Qed.

Lemma store_get_in (s : list Backup) (x : Backup) :
  store_wf s -> In x s -> store_get (key_of x) s = Some x.
Proof.
  unfold store_wf, store_get, store_keys.
  induction s as [|y r IH]; intros Hwf Hin; [contradiction|].
  cbn [map] in Hwf. inversion Hwf as [|k ks Hnot Hrest]; subst.
  cbn [find]. destruct (key_eqb (key_of y) (key_of x)) eqn:E.
  - destruct Hin as [->|Hin]; [reflexivity|].
    apply key_eqb_eq in E. exfalso. apply Hnot. rewrite E.
    now apply in_map.
  - destruct Hin as [->|Hin]; [now rewrite key_eqb_refl in E|].
    now apply IH.
Qed.

Lemma read_every_key (env : Env) (ks : list Key) :
  (forall k, db_fault env (OpGet k) = NoFault) ->
  forall w : World,
    promise_all (map (fun key => getBackupFromDB env (fst key) (snd key)) ks) w
    = (Ret (map (fun k => lookup k (store w)) ks),
       add_events (map (fun k => EvDb (OpGet k)) ks) w).
Proof.
  intro Hok. induction ks as [|[ck ts] ks IH]; intro w; [reflexivity|].
  cbn [map promise_all fst snd]. rewrite getBackupFromDB_cases, Hok.
  rewrite IH. reflexivity.
Qed.

Lemma valid_backups_found (s : list Backup) :
  valid_backups (map FFound s) = Ret s.
Proof.
  induction s as [|x r IH]; [reflexivity|]. cbn [map valid_backups].
  now rewrite IH.
Qed.

Lemma last_add_events (es : list Event) (e d : Event) (w : World) :
  last (trace (add_event e (add_events es w))) d = e.
Proof. cbn [trace add_event]. apply last_last. Qed.

(** X13. With the store answering, the list in the settings panel shows
    every stored backup exactly once, the newest first; an empty store
    shows the notice that there is no backup.  Drawing the list does not
    change the store. *)
Theorem list_shows_every_backup_newest_first (env : Env) (w : World) :
  list_container_present env = true ->
  (forall op, db_fault env op = NoFault) ->
  store_wf (store w) ->
  exists w' : World,
    updateBackupsList env w = (Ret tt, w')
    /\ store w' = store w
    /\ last (trace w') EvGetContext
       = EvRender match store w with
                  | [] => REmpty
                  | _ :: _ => RList (stable_sort ts_ge (store w))
                  end
    /\ Permutation (stable_sort ts_ge (store w)) (store w)
    /\ StronglySorted newest_first (stable_sort ts_ge (store w)).
Proof.
  intros Hc Hok Hwf. unfold updateBackupsList. rewrite Hc. cbn [negb].
  unfold try_catch, bind. cbn [emit modify].
  rewrite getAllBackupKeys_cases, Hok.
  rewrite (read_every_key env _ (fun k => Hok (OpGet k))).
  cbn [store add_event]. rewrite ?store_add_events. cbn [store add_event].
  assert (Hall : map (fun k => lookup k (store w)) (store_keys (store w))
                 = map FFound (store w)).
  { unfold store_keys. rewrite map_map. apply map_ext_in.
    intros x Hx. unfold lookup. now rewrite store_get_in. }
  rewrite Hall.
  destruct (store w) as [|x r] eqn:Hs.
  - cbn [map forallb emit modify]. eexists. split; [reflexivity|].
    split; [rewrite store_add_event, store_add_events; exact Hs|].
    split; [apply last_add_events|].
    split; [reflexivity|constructor].
  - cbn [map forallb andb]. rewrite <- (map_cons FFound x r).
    rewrite valid_backups_found. cbn [lift emit modify].
    eexists. split; [reflexivity|].
    split; [rewrite store_add_event, store_add_events; exact Hs|].
    split; [apply last_add_events|].
    split; [apply stable_sort_perm|apply stable_sort_newest_first].
Qed.

Lemma updateBackupsList_resolves (env : Env) (w : World) :
  fst (updateBackupsList env w) = Ret tt.
Proof.
  unfold updateBackupsList. destruct (list_container_present env);
    cbn [negb]; [|reflexivity].
  unfold bind at 1. cbn [emit modify]. unfold try_catch.
  match goal with |- fst (match ?m with _ => _ end) = _ => destruct m as [[[]|e] w1] end;
    reflexivity.
Qed.

(** X14. Drawing the list never rejects and never changes the store; a
    failure is drawn in the place of the list.  When the connection to
    the database cannot be opened the list shows the message of the
    error; when the transaction that reads the keys fails, the list
    shows the notice that there is no backup, whatever the store
    holds. *)
Theorem list_draws_its_failures (env : Env) (w : World) :
  fst (updateBackupsList env w) = Ret tt
  /\ store (snd (updateBackupsList env w)) = store w
  /\ (list_container_present env = true ->
      forall e : Exn,
        (db_fault env OpGetAllKeys = OpenFails e ->
         last (trace (snd (updateBackupsList env w))) EvGetContext
         = EvRender (RFailed (exn_msg e)))
        /\ (db_fault env OpGetAllKeys = TxFails e ->
            last (trace (snd (updateBackupsList env w))) EvGetContext
            = EvRender REmpty)).
Proof.
  split; [apply updateBackupsList_resolves|].
  split; [apply reads_only_updateBackupsList|].
  intros Hc e. unfold updateBackupsList. rewrite Hc. cbn [negb].
  unfold try_catch, bind. cbn [emit modify].
  rewrite getAllBackupKeys_cases.
  split; intro Hf; rewrite Hf; cbn [snd trace add_event map promise_all
    forallb ret emit modify]; apply last_last.
Qed.

(** ** The text of a previewed message *)

(** Text without the characters that [processMessage] looks for: no
    ['<'], no backquote, no ['*'], no line feed. *)
Definition plain_text (s : string) : bool :=
  lacks "<" s && lacks "`" s && lacks "*" s && lacks (ascii_of_nat 10) s.

Lemma string_app_nil_r (s : string) : s ++ "" = s.
Proof. induction s as [|c s IH]; [reflexivity|]. cbn [append]. now rewrite IH. Qed.

Lemma string_length_app (a b : string) :
  String.length (a ++ b) = (String.length a + String.length b)%nat.
Proof.
  induction a as [|x a IH]; [reflexivity|]. cbn [append String.length].
  now rewrite IH.
Qed.

Lemma plain_text_app (a b : string) :
  plain_text (a ++ b) = plain_text a && plain_text b.
Proof.
  unfold plain_text. rewrite !lacks_app.
  repeat match goal with |- context [lacks ?c ?s] =>
    generalize (lacks c s); intro end.
  repeat match goal with b : bool |- _ => destruct b end; reflexivity.
Qed.

(** A matcher that can only match at the character [c0]. *)
Definition opens_with (c0 : ascii) (m : string -> option (string * nat))
  : Prop :=
  forall (c : ascii) (r : string),
    Ascii.eqb c c0 = false -> m (String c r) = None.

Lemma replace_matches_app (m : string -> option (string * nat))
  (rep : string -> string) (c0 : ascii) (a t : string) :
  opens_with c0 m ->
  lacks c0 a = true ->
  replace_matches m rep (a ++ t) 0 = a ++ replace_matches m rep t 0.
Proof.
  intros Hm. induction a as [|c a IH]; intro Ha; [reflexivity|].
  cbn [lacks] in Ha. apply andb_true_iff in Ha. destruct Ha as [Hc Ha].
  apply negb_true_iff in Hc.
  cbn [append replace_matches]. rewrite (Hm c _ Hc). now rewrite IH.
Qed.

Lemma replace_matches_plain (m : string -> option (string * nat))
  (rep : string -> string) (c0 : ascii) (a : string) :
  opens_with c0 m ->
  lacks c0 a = true ->
  replace_matches m rep a 0 = a.
Proof.
  intros Hm Ha.
  pose proof (replace_matches_app m rep c0 a EmptyString Hm Ha) as H.
  rewrite string_app_nil_r in H. rewrite H. cbn [replace_matches].
  apply string_app_nil_r.
Qed.

Lemma replace_matches_skip (m : string -> option (string * nat))
  (rep : string -> string) (a t : string) :
  replace_matches m rep (a ++ t) (String.length a)
  = replace_matches m rep t 0.
Proof.
  induction a as [|c a IH]; [reflexivity|].
  cbn [append String.length replace_matches]. exact IH.
Qed.

Lemma prefix_head (c0 c : ascii) (o r : string) :
  Ascii.eqb c c0 = false -> prefix (String c0 o) (String c r) = false.
Proof.
  intro H. cbn [prefix]. destruct (Ascii.ascii_dec c0 c) as [->|_];
    [|reflexivity].
  now rewrite Ascii.eqb_refl in H.
Qed.

Lemma prefix_app (a t : string) : prefix a (a ++ t) = true.
Proof.
  induction a as [|c a IH]; [now destruct t|].
  cbn [append prefix]. destruct (Ascii.ascii_dec c c); [exact IH|congruence].
Qed.

Lemma string_drop_app (a t : string) :
  string_drop (String.length a) (a ++ t) = t.
Proof. induction a as [|c a IH]; [reflexivity|exact IH]. Qed.

Lemma match_delimited_opens (c0 : ascii) (o close : string)
  (cls : ascii -> bool) :
  opens_with c0 (match_delimited (String c0 o) close cls).
Proof.
  intros c r Hc. unfold match_delimited. now rewrite prefix_head.
Qed.

Lemma collapse_newlines_plain (s : string) :
  lacks (ascii_of_nat 10) s = true -> collapse_newlines s = s.
Proof.
  apply replace_matches_plain. intros c r Hc. cbn [newline_run].
  replace (nat_of_ascii c =? 10)%nat with false; [reflexivity|].
  symmetry. apply Nat.eqb_neq. intro E.
  assert (c = ascii_of_nat 10) by (rewrite <- E; now rewrite ascii_nat_embedding).
  subst c. discriminate.
Qed.

Lemma newlines_to_br_plain (s : string) :
  lacks (ascii_of_nat 10) s = true -> newlines_to_br s = s.
Proof.
  apply replace_matches_plain. intros c r Hc. cbn [newline_run].
  replace (nat_of_ascii c =? 10)%nat with false; [reflexivity|].
  symmetry. apply Nat.eqb_neq. intro E.
  assert (c = ascii_of_nat 10) by (rewrite <- E; now rewrite ascii_nat_embedding).
  subst c. discriminate.
Qed.

Lemma remove_delimited_plain (c0 : ascii) (o close : string)
  (cls : ascii -> bool) (s : string) :
  lacks c0 s = true -> remove_delimited (String c0 o) close cls s = s.
Proof.
  apply replace_matches_plain. apply match_delimited_opens.
Qed.

Lemma wrap_delimited_plain (c0 : ascii) (o tag : string) (s : string) :
  lacks c0 s = true -> wrap_delimited (String c0 o) tag s = s.
Proof.
  apply replace_matches_plain. apply match_delimited_opens.
Qed.

(** The passes that follow the two for [<think>] and [<thinking>] leave
    alone a text that has no backquote, no ['*'] and no line feed. *)
Lemma later_passes_plain (s : string) :
  lacks "`" s = true -> lacks "*" s = true ->
  lacks (ascii_of_nat 10) s = true ->
  newlines_to_br
    (collapse_newlines
       (wrap_delimited "*" "em"
          (wrap_delimited "**" "strong"
             (remove_delimited "`" "`" any_char
                (remove_delimited "```" "```" any_char s)))))
  = s.
Proof.
  intros Hq Hs Hn.
  rewrite (remove_delimited_plain "`" "``" "```" any_char s Hq).
  rewrite (remove_delimited_plain "`" "" "`" any_char s Hq).
  rewrite (wrap_delimited_plain "*" "*" "strong" s Hs).
  rewrite (wrap_delimited_plain "*" "" "em" s Hs).
  rewrite (collapse_newlines_plain s Hn).
  apply (newlines_to_br_plain s Hn).
Qed.

Lemma plain_text_parts (s : string) :
  plain_text s = true ->
  lacks "<" s = true /\ lacks "`" s = true /\ lacks "*" s = true
  /\ lacks (ascii_of_nat 10) s = true.
Proof.
  unfold plain_text. rewrite !andb_true_iff. tauto.
Qed.

(** X15. A message without markup is previewed as it is: when the text
    has no ['<'], no backquote, no ['*'] and no line feed,
    [processMessage] returns it unchanged; an empty text is previewed as
    the placeholder for an empty message. *)
Theorem plain_message_is_previewed_as_is (s : string) :
  plain_text s = true ->
  processMessage (Some (JStr s)) = Ret (if (s =? "")%string then "(空消息)" else s).
Proof.
  intro Hp. unfold processMessage. cbn [truthy].
  destruct (s =? "")%string eqn:E; cbn [negb]; [reflexivity|].
  f_equal. apply plain_text_parts in Hp.
  destruct Hp as [Hlt [Hq [Hs Hn]]].
  unfold process_text.
  rewrite (remove_delimited_plain "<" "think>" "</think>" any_char s Hlt).
  rewrite (remove_delimited_plain "<" "thinking>" "</thinking>"
             space_backslash_or_S s Hlt).
  now apply later_passes_plain.
Qed.

Lemma lazy_until_eq (cls : ascii -> bool) (close s : string) :
  lazy_until cls close s
  = if prefix close s then Some (EmptyString, String.length close)
    else
      match s with
      | EmptyString => None
      | String c r =>
          if cls c then
            match lazy_until cls close r with
            | Some (body, n) => Some (String c body, S n)
            | None => None
            end
          else None
      end.
Proof. destruct s; reflexivity. Qed.

Lemma lazy_until_finds (cls : ascii -> bool) (c0 : ascii) (o b t : string) :
  (forall c, cls c = true) ->
  lacks c0 b = true ->
  lazy_until cls (String c0 o) (b ++ String c0 o ++ t)
  = Some (b, (String.length b + String.length (String c0 o))%nat).
Proof.
  intros Hcls. set (tail := String c0 o ++ t).
  induction b as [|x b IH]; intro Hb.
  - change ("" ++ tail) with tail. rewrite lazy_until_eq.
    unfold tail. now rewrite prefix_app.
  - cbn [lacks] in Hb. apply andb_true_iff in Hb. destruct Hb as [Hx Hb].
    apply negb_true_iff in Hx.
    change (String x b ++ tail) with (String x (b ++ tail)).
    rewrite lazy_until_eq, (prefix_head c0 x o _ Hx), Hcls.
    now rewrite (IH Hb).
Qed.

Lemma lazy_until_stops (cls : ascii -> bool) (c0 : ascii) (o b t : string) :
  lacks c0 b = true ->
  existsb (fun c => negb (cls c)) (list_ascii_of_string b) = true ->
  lazy_until cls (String c0 o) (b ++ t) = None.
Proof.
  induction b as [|x b IH]; intros Hb Hout; [discriminate|].
  cbn [lacks] in Hb. apply andb_true_iff in Hb. destruct Hb as [Hx Hb].
  apply negb_true_iff in Hx.
  change (String x b ++ t) with (String x (b ++ t)).
  rewrite lazy_until_eq, (prefix_head c0 x o _ Hx).
  cbn [list_ascii_of_string existsb] in Hout.
  destruct (cls x); [|reflexivity]. cbn [negb orb] in Hout.
  now rewrite (IH Hb Hout).
Qed.

Lemma remove_delimited_block (c0 c1 : ascii) (o close a b t : string)
  (cls : ascii -> bool) :
  (forall c, cls c = true) ->
  lacks c0 a = true ->
  lacks c1 b = true ->
  remove_delimited (String c0 o) (String c1 close) cls
    (a ++ String c0 o ++ b ++ String c1 close ++ t)
  = a ++ remove_delimited (String c0 o) (String c1 close) cls t.
Proof.
  intros Hcls Ha Hb. unfold remove_delimited.
  rewrite (replace_matches_app _ _ c0 a _ (match_delimited_opens _ _ _ _) Ha).
  f_equal.
  set (body := b ++ String c1 close ++ t).
  assert (Hm : match_delimited (String c0 o) (String c1 close) cls
                 (String c0 o ++ body)
               = Some (b, (String.length (String c0 o)
                           + (String.length b
                              + String.length (String c1 close)))%nat)).
  { unfold match_delimited. rewrite prefix_app, string_drop_app.
    unfold body. now rewrite (lazy_until_finds cls c1 close b t Hcls Hb). }
  change (String c0 o ++ body) with (String c0 (o ++ body)) in Hm |- *.
  cbn [replace_matches]. rewrite Hm. cbn [append].
  replace (String.length (String c0 o)
           + (String.length b + String.length (String c1 close)) - 1)%nat
    with (String.length (o ++ b ++ String c1 close)).
  - replace (o ++ body) with ((o ++ b ++ String c1 close) ++ t)
      by (unfold body; now rewrite !string_app_assoc).
    apply replace_matches_skip.
  - rewrite !string_length_app. cbn [String.length]. lia.
Qed.

(** X16. A [<think>] block is taken out of the preview: for a message
    [before<think>hidden</think>after], where [before] and [after] are
    plain text and [hidden] is any text without ['<'], what is previewed
    is [before] followed by [after]. *)
Theorem think_block_is_removed (before hidden after : string) :
  plain_text before = true ->
  lacks "<" hidden = true ->
  plain_text after = true ->
  process_text (before ++ "<think>" ++ hidden ++ "</think>" ++ after)
  = before ++ after.
Proof.
  intros Hb Hh Ha.
  pose proof (plain_text_parts _ Hb) as [Hb1 _].
  pose proof (plain_text_parts _ Ha) as [Ha1 _].
  assert (Hp : plain_text (before ++ after) = true)
    by (rewrite plain_text_app, Hb, Ha; reflexivity).
  apply plain_text_parts in Hp. destruct Hp as [Hlt [Hq [Hs Hn]]].
  unfold process_text.
  rewrite (remove_delimited_block "<" "<" "think>" "/think>" before hidden
             after any_char (fun _ => eq_refl) Hb1 Hh).
  rewrite (remove_delimited_plain "<" "think>" "</think>" any_char after Ha1).
  rewrite (remove_delimited_plain "<" "thinking>" "</thinking>"
             space_backslash_or_S _ Hlt).
  now apply later_passes_plain.
Qed.

Lemma replace_matches_unmatched (m : string -> option (string * nat))
  (rep : string -> string) (c : ascii) (r : string) :
  m (String c r) = None ->
  replace_matches m rep (String c r) 0
  = String c (replace_matches m rep r 0).
Proof. intro H. cbn [replace_matches]. now rewrite H. Qed.

Lemma existsb_weaken {A : Type} (p q : A -> bool) (l : list A) :
  (forall x, p x = true -> q x = true) ->
  existsb p l = true -> existsb q l = true.
Proof.
  intros Hpq H. apply existsb_exists in H. destruct H as [x [Hin Hx]].
  apply existsb_exists. exists x. split; [exact Hin | now apply Hpq].
Qed.

(** X17. A [<thinking>] block is not taken out.  The pattern for it
    lets only white space, backslashes and the letter [S] stand between
    the two tags, so a block [<thinking>hidden</thinking>] whose text
    has an ASCII character that is none of these -- any other letter, a
    digit, a punctuation mark -- stays in the preview, tags included. *)
Theorem thinking_block_is_kept (before hidden after : string) :
  plain_text before = true ->
  plain_text hidden = true ->
  existsb (fun c => (nat_of_ascii c <? 128)%nat
                    && negb (space_backslash_or_S c))
          (list_ascii_of_string hidden) = true ->
  plain_text after = true ->
  process_text (before ++ "<thinking>" ++ hidden ++ "</thinking>" ++ after)
  = before ++ "<thinking>" ++ hidden ++ "</thinking>" ++ after.
Proof.
  intros Hb Hh Hout Ha.
  apply (existsb_weaken _ (fun c => negb (space_backslash_or_S c))) in Hout;
    [|intros x Hx; apply andb_true_iff in Hx; exact (proj2 Hx)].
  pose proof (plain_text_parts _ Hb) as [Hb1 [Hb2 [Hb3 Hb4]]].
  pose proof (plain_text_parts _ Hh) as [Hh1 [Hh2 [Hh3 Hh4]]].
  pose proof (plain_text_parts _ Ha) as [Ha1 [Ha2 [Ha3 Ha4]]].
  set (s := before ++ "<thinking>" ++ hidden ++ "</thinking>" ++ after).
  assert (Hkeep : forall (o close : string) (cls : ascii -> bool),
    match_delimited (String "<" o) close cls
      ("<thinking>" ++ hidden ++ "</thinking>" ++ after) = None ->
    match_delimited (String "<" o) close cls ("</thinking>" ++ after) = None ->
    remove_delimited (String "<" o) close cls s = s).
  { intros o close cls H1 H2. unfold s, remove_delimited.
    rewrite (replace_matches_app _ _ "<" before _
               (match_delimited_opens _ _ _ _) Hb1).
    f_equal.
    change ("<thinking>" ++ hidden ++ "</thinking>" ++ after)
      with (String "<" ("thinking>" ++ hidden ++ "</thinking>" ++ after))
      in H1 |- *.
    rewrite (replace_matches_unmatched _ _ _ _ H1). f_equal.
    replace ("thinking>" ++ hidden ++ "</thinking>" ++ after)
      with (("thinking>" ++ hidden) ++ "</thinking>" ++ after)
      by apply string_app_assoc.
    rewrite (replace_matches_app _ _ "<" ("thinking>" ++ hidden) _
               (match_delimited_opens _ _ _ _))
      by (rewrite lacks_app, Hh1; reflexivity).
    f_equal.
    change ("</thinking>" ++ after)
      with (String "<" ("/thinking>" ++ after)) in H2 |- *.
    rewrite (replace_matches_unmatched _ _ _ _ H2). f_equal.
    apply (replace_matches_plain _ _ "<");
      [apply match_delimited_opens|].
    rewrite lacks_app, Ha1. reflexivity. }
  unfold process_text. fold s.
  rewrite (Hkeep "think>" "</think>" any_char) by reflexivity.
  rewrite (Hkeep "thinking>" "</thinking>" space_backslash_or_S).
  - apply later_passes_plain; unfold s;
      rewrite !lacks_app, ?Hb2, ?Hb3, ?Hb4, ?Hh2, ?Hh3, ?Hh4,
        ?Ha2, ?Ha3, ?Ha4; reflexivity.
  - unfold match_delimited.
    rewrite (prefix_app "<thinking>"), (string_drop_app "<thinking>").
    now rewrite (lazy_until_stops space_backslash_or_S "<" "/thinking>"
                   hidden _ Hh1 Hout).
  - reflexivity.
Qed.

(** ** Preview *)

Lemma reads_only_previewBackup (env : Env) (ck : string) (ts : Z) :
  reads_only (previewBackup env ck ts).
Proof.
  unfold previewBackup.
  apply reads_only_try_catch.
  2:{ intro e. apply reads_only_bind;
        [apply reads_only_emit; reflexivity|intro; apply reads_only_ret]. }
  apply reads_only_bind; [apply reads_only_getBackupFromDB|intro backup].
  destruct backup as [b| |].
  2,3: apply reads_only_bind;
    [apply reads_only_emit; reflexivity|intro; apply reads_only_ret].
  apply reads_only_bind; [apply reads_only_lift|intro msgs].
  destruct (_ =? _)%nat.
  - apply reads_only_bind;
      [apply reads_only_emit; reflexivity|intro; apply reads_only_ret].
  - apply reads_only_bind; [apply reads_only_lift|intro boxes].
    apply reads_only_bind; [apply reads_only_lift|intro; apply reads_only_ret].
Qed.

Lemma length_last_two {A : Type} (l : list A) :
  List.length (last_two l) = Nat.min 2 (List.length l).
Proof. unfold last_two. rewrite length_skipn. lia. Qed.

Lemma length_map_res {A B : Type} (f : A -> Res B) (l : list A) :
  forall l', map_res f l = Ret l' -> List.length l' = List.length l.
Proof.
  induction l as [|x r IH]; intros l' H; cbn [map_res] in H.
  - inversion H. reflexivity.
  - destruct (f x) as [y|e]; [|discriminate]. cbn [rbind] in H.
    destruct (map_res f r) as [ys|e]; [|discriminate]. cbn [rbind] in H.
    inversion H. cbn [List.length]. f_equal. now apply IH.
Qed.

(** What [previewBackup] hands to the popup for the messages [msgs] of
    a backup. *)
Lemma preview_of_messages
  (env : Env) (w : World) (b : Backup) (msgs : list JValue)
  (boxes : list (string * string)) (answer : PopupResult) :
  db_fault env (OpGet (key_of b)) = NoFault ->
  store_get (key_of b) (store w) = Some b ->
  (isGroup b = true /\ rawChatData b = Some (JArr msgs))
  \/ (isGroup b = false
      /\ exists first, rawChatData b = Some (JArr (first :: msgs))) ->
  msgs <> [] ->
  map_res preview_box (last_two msgs) = Ret boxes ->
  popup_confirm env = Ret answer ->
  exists w' : World,
    previewBackup env (chatKey b) (timestamp b) w
    = (Ret (Some (mkPreview
                    (entityName b ++ " - " ++ chatName b ++ " 预览")
                    boxes
                    ("显示最后 "
                       ++ string_of_nat (Nat.min 2 (List.length msgs))
                       ++ " 条消息，共 "
                       ++ string_of_nat (List.length msgs) ++ " 条"))),
       w')
    /\ store w' = store w
    /\ List.length boxes = Nat.min 2 (List.length msgs).
Proof.
  intros Hok Hget Hraw Hne Hboxes Hpop.
  assert (Hmsgs : messages_to_preview b = Ret msgs).
  { unfold messages_to_preview.
    destruct Hraw as [[Hg Hr]|[Hg [first Hr]]]; rewrite Hg, Hr.
    - reflexivity.
    - destruct msgs as [|m r]; [contradiction|reflexivity]. }
  pose proof (reads_only_previewBackup env (chatKey b) (timestamp b) w)
    as [Hstore _].
  unfold previewBackup, try_catch, bind in Hstore |- *.
  rewrite getBackupFromDB_cases in Hstore |- *.
  fold (key_of b) in Hstore |- *. rewrite Hok in Hstore |- *.
  cbn [store add_event] in Hstore |- *. rewrite Hget in Hstore |- *.
  cbn [lift] in Hstore |- *. rewrite Hmsgs in Hstore |- *.
  destruct msgs as [|m r] eqn:Em; [contradiction|]. rewrite <- Em in *.
  replace (List.length msgs =? 0)%nat with false in Hstore |- *
    by (rewrite Em; reflexivity).
  rewrite Hboxes, Hpop in Hstore |- *. cbn [ret snd] in Hstore |- *.
  rewrite length_last_two.
  eexists. split; [reflexivity|]. split; [exact Hstore|].
  rewrite (length_map_res _ _ _ Hboxes). apply length_last_two.
Qed.

(** [slice(-2)] of a list that ends in two elements is these two, and of
    a list of one element is the list. *)
Lemma last_two_of_longer {A : Type} (earlier : list A) (x y : A) :
  last_two (earlier ++ [x; y])%list = [x; y].
Proof.
  unfold last_two. rewrite length_app. cbn [List.length].
  replace (List.length earlier + 2 - 2)%nat with (List.length earlier + 0)%nat
    by lia.
  rewrite skipn_app, Nat.add_0_r, skipn_all.
  replace (List.length earlier - List.length earlier)%nat with 0%nat by lia.
  reflexivity.
Qed.

Lemma map_res_boxes {A B : Type} (f : A -> Res B) (l : list A) (l' : list B) :
  Forall2 (fun x y => f x = Ret y) l l' -> map_res f l = Ret l'.
Proof.
  induction 1 as [|x y l l' Hxy _ IH]; [reflexivity|].
  cbn [map_res]. rewrite Hxy. cbn [rbind]. rewrite IH. reflexivity.
Qed.

(** X18. The preview shows the last two messages of the backup, or the
    only one.  Let the messages of the backup be [earlier] followed by
    [shown], where [shown] holds two messages, or one and [earlier] is
    empty; for a group backup the messages are the payload, for a
    character backup the payload without its first element, the
    metadata record.  Then the popup holds a box for each message of
    [shown], in their order, and none for a message of [earlier], and
    its footer tells the number of messages shown and the number of all
    messages, the metadata record not counted.  The store is as it
    was. *)
Theorem preview_shows_the_last_two_messages
  (env : Env) (w : World) (b : Backup) (earlier shown : list JValue)
  (boxes : list (string * string)) (answer : PopupResult) :
  db_fault env (OpGet (key_of b)) = NoFault ->
  store_get (key_of b) (store w) = Some b ->
  (isGroup b = true /\ rawChatData b = Some (JArr (earlier ++ shown)))
  \/ (isGroup b = false
      /\ exists first, rawChatData b = Some (JArr (first :: earlier ++ shown))) ->
  List.length shown = 2%nat \/ (List.length shown = 1%nat /\ earlier = []) ->
  Forall2 (fun msg box => preview_box msg = Ret box) shown boxes ->
  popup_confirm env = Ret answer ->
  exists w' : World,
    previewBackup env (chatKey b) (timestamp b) w
    = (Ret (Some (mkPreview
                    (entityName b ++ " - " ++ chatName b ++ " 预览")
                    boxes
                    ("显示最后 " ++ string_of_nat (List.length shown)
                       ++ " 条消息，共 "
                       ++ string_of_nat (List.length earlier
                                         + List.length shown)
                       ++ " 条"))),
       w')
    /\ store w' = store w.
Proof.
  intros Hok Hget Hraw Hshown Hboxes Hpop.
  assert (Hlast : last_two (earlier ++ shown)%list = shown).
  { destruct Hshown as [H2|[H1 ->]].
    - destruct shown as [|x [|y [|z r]]]; try discriminate.
      apply last_two_of_longer.
    - destruct shown as [|x [|y r]]; try discriminate. reflexivity. }
  assert (Hne : (earlier ++ shown)%list <> []).
  { destruct shown as [|x r]; [destruct Hshown as [H|[H _]]; discriminate|].
    intro E. apply app_eq_nil in E. destruct E. discriminate. }
  destruct (preview_of_messages env w b (earlier ++ shown)%list
              boxes answer Hok Hget Hraw Hne) as [w' [Hrun [Hstore _]]];
    [rewrite Hlast; now apply map_res_boxes|exact Hpop|].
  exists w'. split; [|exact Hstore].
  rewrite Hrun, length_app. do 5 f_equal.
  assert (Hmin : Nat.min 2 (List.length earlier + List.length shown)
                 = List.length shown).
  { destruct Hshown as [H2|[H1 ->]];
      [rewrite H2|rewrite H1; cbn [List.length]]; lia. }
  now rewrite Hmin.
Qed.

(** X19. The preview never rejects and never changes the store, and it
    never ends silently: either the popup was shown, or the last thing
    that happened is a toast.  A backup that cannot be read gets the
    error toast; a character backup that holds nothing after the
    metadata record gets the toast that there is nothing to preview.
    The preview button does what [previewBackup] does and nothing
    more. *)
Theorem preview_ends_in_popup_or_toast
  (env : Env) (ck : string) (ts : Z) (w : World) :
  (exists (r : option Preview) (w' : World),
     previewBackup env ck ts w = (Ret r, w')
     /\ store w' = store w
     /\ (r = None ->
         exists lvl msg, last (trace w') EvGetContext = EvToast lvl msg))
  /\ (forall e,
        db_fault env (OpGet (ck, ts)) = TxFails e
        \/ (db_fault env (OpGet (ck, ts)) = NoFault
            /\ store_get (ck, ts) (store w) = None) ->
        previewBackup env ck ts w
        = (Ret None,
           add_events [EvDb (OpGet (ck, ts));
                       EvToast ToastError "找不到指定的备份进行预览"] w))
  /\ (forall (b : Backup) (first : JValue),
        db_fault env (OpGet (ck, ts)) = NoFault ->
        store_get (ck, ts) (store w) = Some b ->
        isGroup b = false ->
        rawChatData b = Some (JArr [first]) ->
        previewBackup env ck ts w
        = (Ret None,
           add_events [EvDb (OpGet (ck, ts));
                       EvToast ToastInfo "此备份没有聊天消息内容可供预览"] w))
  /\ on_preview_click env ck ts w = previewBackup env ck ts w.
Proof.
  split; [|split; [|split; [|unfold on_preview_click; apply finally_nothing]]].
  - pose proof (reads_only_previewBackup env ck ts w) as [Hstore _].
    assert (Htoast : forall lvl msg w0 d,
      last (trace (add_event (EvToast lvl msg) w0)) d = EvToast lvl msg)
      by (intros; cbn [trace add_event]; apply last_last).
    unfold previewBackup, try_catch, bind in Hstore |- *.
    destruct (getBackupFromDB env ck ts w) as [[[b| |]|e] w1];
      cbn [emit modify ret lift snd] in Hstore |- *;
      try (eexists; eexists; split; [reflexivity|];
           split; [exact Hstore|]; intros _; eexists; eexists;
           apply Htoast).
    destruct (messages_to_preview b) as [msgs|e];
      cbn [emit modify ret lift snd] in Hstore |- *;
      try (eexists; eexists; split; [reflexivity|];
           split; [exact Hstore|]; intros _; eexists; eexists;
           apply Htoast).
    destruct (List.length msgs =? 0)%nat;
      cbn [emit modify ret lift snd] in Hstore |- *;
      try (eexists; eexists; split; [reflexivity|];
           split; [exact Hstore|]; intros _; eexists; eexists;
           apply Htoast).
    destruct (map_res preview_box (last_two msgs)) as [boxes|e];
      cbn [emit modify ret lift snd] in Hstore |- *;
      try (eexists; eexists; split; [reflexivity|];
           split; [exact Hstore|]; intros _; eexists; eexists;
           apply Htoast).
    destruct (popup_confirm env) as [p|e];
      cbn [emit modify ret lift snd] in Hstore |- *;
      try (eexists; eexists; split; [reflexivity|];
           split; [exact Hstore|]; intros _; eexists; eexists;
           apply Htoast).
    eexists; eexists. split; [reflexivity|]. split; [exact Hstore|].
    discriminate.
  - intros e [Hf|[Hf Hget]]; unfold previewBackup, try_catch, bind;
      rewrite getBackupFromDB_cases, Hf; [reflexivity|].
    now rewrite Hget.
  - intros b first Hf Hget Hg Hraw. unfold previewBackup, try_catch, bind.
    rewrite getBackupFromDB_cases, Hf, Hget.
    unfold messages_to_preview. rewrite Hg, Hraw. reflexivity.
Qed.

(** ** Restore *)

Lemma bind_ret_inv {A B : Type} (m : M A) (f : A -> M B) (w w' : World)
  (b : B) :
  bind m f w = (Ret b, w') ->
  exists (a : A) (w1 : World), m w = (Ret a, w1) /\ f a w1 = (Ret b, w').
Proof.
  unfold bind. destruct (m w) as [[a|e] w1]; intro H; [|discriminate].
  now exists a, w1.
Qed.

Lemma trace_grows {A : Type} (m : M A) (w w' : World) (r : Res A) :
  reads_only m -> m w = (r, w') ->
  exists es : list Event, trace w' = (trace w ++ es)%list.
Proof.
  intros Hm H. destruct (Hm w) as [_ [es [Ht _]]]. rewrite H in Ht.
  now exists es.
Qed.

Lemma host_call_ret_inv (env : Env) (c : HostCall) (r : Res unit)
  (w w' : World) (u : unit) :
  host_call env c r w = (Ret u, w') ->
  trace w' = (trace w ++ [EvHostCall c])%list /\ r = Ret tt.
Proof.
  unfold host_call, bind. cbn [emit modify lift].
  destruct r as [[]|e]; intro H; inversion H. now split.
Qed.

(** X20. [restoreBackup] reports success only after the host has loaded
    the restored chat.  When it resolves to [true], the host was asked
    to open the new chat -- [openCharacterChat] for a character,
    [select_group_chats] with the new chat for a group -- and did not
    reject; the success toast was shown after that; the backup manager
    popup is closed; and the store is as it was. *)
Theorem restore_success_means_chat_was_opened
  (env : Env) (backupData : Backup) (w w' : World) :
  restoreBackup env backupData w = (Ret true, w') ->
  exists (newChatId : string) (target : option string)
         (before after : list Event),
    trace w'
    = (trace w ++ before
         ++ [EvHostCall (if isGroup backupData
                         then HSelectGroupChats target (Some newChatId)
                         else HOpenCharacterChat newChatId);
             EvToast ToastSuccess "聊天备份已成功恢复！"]
         ++ after)%list
    /\ (if isGroup backupData
        then select_group_chats env target (Some newChatId)
        else openCharacterChat env newChatId) = Ret tt
    /\ backupManagerPopup w' = false
    /\ store w' = store w.
Proof.
  intro H.
  pose proof (reads_only_restoreBackup env backupData w) as [Hstore _].
  rewrite H in Hstore. cbn [snd] in Hstore.
  unfold restoreBackup in H.
  destruct (negb (truthy (rawChatData backupData))
            && negb (truthy (groupMetadata backupData))).
  { unfold bind in H. cbn [emit modify ret] in H. discriminate. }
  apply bind_ret_inv in H. destruct H as [u0 [w0 [H0 H]]].
  cbn [emit modify] in H0. inversion H0; subst u0 w0; clear H0.
  apply bind_ret_inv in H. destruct H as [confirmSave [w1 [H1 H]]].
  cbn [lift] in H1. inversion H1 as [[Hconfirm Hw1]]; subst w1; clear H1.
  assert (Hbody : exists w2 es0,
    trace w2 = (trace w ++ es0)%list
    /\ try_catch
         (initialContext <- getContext ;;
          switched <- switch_to_target env backupData initialContext ;;
          match switched with
          | inl _ => ret false
          | inr targetEntityId =>
              j <- lift (build_jsonl backupData) ;;
              let timestamp := replace_colon_dot (iso_now env) in
              let restoredFilename :=
                replace_spaces (entityName backupData) false
                  ++ "_restored_" ++ timestamp ++ ".jsonl" in
              newChatIdAfterImport <-
                (if isGroup backupData then
                   import_group_chat env restoredFilename (jsonlString j)
                                     targetEntityId
                 else
                   save_character_chat env restoredFilename j targetEntityId) ;;
              (if negb (newChatIdAfterImport =? "")%string then
                 try_catch
                   (if isGroup backupData then
                      host_call env
                        (HSelectGroupChats targetEntityId
                                           (Some newChatIdAfterImport))
                        (select_group_chats env targetEntityId
                                            (Some newChatIdAfterImport))
                    else
                      host_call env (HOpenCharacterChat newChatIdAfterImport)
                                (openCharacterChat env newChatIdAfterImport))
                   (fun loadError =>
                      throw_error ("加载恢复的聊天失败: " ++ err_text loadError))
               else throw_error "未能获取新创建/导入聊天的ID") ;;;
              emit (EvToast ToastSuccess "聊天备份已成功恢复！") ;;;
              try_catch (updateBackupsList env) (fun _ => ret tt) ;;;
              w <- get_world ;;
              (if backupManagerPopup w then
                 emit EvPopupClose ;;;
                 modify (set_backupManagerPopup false)
               else ret tt) ;;;
              ret true
          end)
         (fun error =>
            emit (EvToast ToastError ("恢复失败: " ++ err_or_unknown error)) ;;;
            ret false) w2
       = (Ret true, w')).
  { destruct confirmSave; try (cbn [ret] in H; discriminate).
    - apply bind_ret_inv in H. destruct H as [u [w2 [Hsave H]]].
      apply host_call_ret_inv in Hsave. destruct Hsave as [Ht _].
      exists w2. eexists. split; [|exact H].
      rewrite Ht. cbn [trace add_event]. rewrite <- app_assoc. reflexivity.
    - apply bind_ret_inv in H. destruct H as [u [w2 [Hsave H]]].
      cbn [ret] in Hsave. inversion Hsave; subst.
      exists (add_event EvPopupConfirm w), [EvPopupConfirm].
      split; [reflexivity|exact H]. }
  clear H. destruct Hbody as [w2 [es0 [Ht2 H]]].
  unfold try_catch at 1 in H.
  match type of H with
  | (let (_, _) := ?m w2 in _) = _ =>
      destruct (m w2) as [[r|e] w3] eqn:Hm
  end.
  2:{ unfold bind in H. cbn [emit modify ret] in H. discriminate. }
  inversion H; subst r w3; clear H.
  apply bind_ret_inv in Hm. destruct Hm as [ctx [w3 [Hctx Hm]]].
  pose proof (trace_grows _ _ _ _ reads_only_getContext Hctx) as [es1 Ht3].
  apply bind_ret_inv in Hm. destruct Hm as [switched [w4 [Hsw Hm]]].
  pose proof (trace_grows _ _ _ _
                (reads_only_switch_to_target env backupData ctx) Hsw)
    as [es2 Ht4].
  destruct switched as [u|target]; [cbn [ret] in Hm; discriminate|].
  apply bind_ret_inv in Hm. destruct Hm as [j [w5 [Hj Hm]]].
  cbn [lift] in Hj. inversion Hj as [[Hjsonl Hw5]]. subst w5. clear Hj.
  cbv zeta in Hm.
  apply bind_ret_inv in Hm. destruct Hm as [newChatId [w6 [Hsend Hm]]].
  assert (Ht6 : exists es3, trace w6 = (trace w4 ++ es3)%list).
  { destruct (isGroup backupData).
    - exact (trace_grows _ _ _ _
               (reads_only_import_group_chat env _ _ _) Hsend).
    - exact (trace_grows _ _ _ _
               (reads_only_save_character_chat env _ _ _) Hsend). }
  destruct Ht6 as [es3 Ht6].
  apply bind_ret_inv in Hm. destruct Hm as [u1 [w7 [Hopen Hm]]].
  destruct (negb (newChatId =? "")%string);
    [|unfold throw_error in Hopen; cbn [throw] in Hopen; discriminate].
  unfold try_catch in Hopen.
  match type of Hopen with
  | (let (_, _) := ?m w6 in _) = _ =>
      destruct (m w6) as [[u2|e] w8] eqn:Hcall
  end.
  2:{ unfold throw_error in Hopen. cbn [throw] in Hopen. discriminate. }
  inversion Hopen; subst u2 w8; clear Hopen.
  assert (Hcalled :
    trace w7
    = (trace w6
         ++ [EvHostCall (if isGroup backupData
                         then HSelectGroupChats target (Some newChatId)
                         else HOpenCharacterChat newChatId)])%list
    /\ (if isGroup backupData
        then select_group_chats env target (Some newChatId)
        else openCharacterChat env newChatId) = Ret tt).
  { destruct (isGroup backupData);
      apply host_call_ret_inv in Hcall; exact Hcall. }
  destruct Hcalled as [Ht7 Hanswer].
  apply bind_ret_inv in Hm. destruct Hm as [u3 [w8 [Htoast Hm]]].
  cbn [emit modify] in Htoast. inversion Htoast; subst u3 w8; clear Htoast.
  apply bind_ret_inv in Hm. destruct Hm as [u4 [w9 [Hlist Hm]]].
  assert (Ht9 : exists es4,
    trace w9
    = (trace (add_event (EvToast ToastSuccess "聊天备份已成功恢复！") w7)
         ++ es4)%list).
  { refine (trace_grows _ _ _ _ _ Hlist).
    apply reads_only_try_catch;
      [apply reads_only_updateBackupsList|intro; apply reads_only_ret]. }
  destruct Ht9 as [es4 Ht9].
  apply bind_ret_inv in Hm. destruct Hm as [w10 [w11 [Hget Hm]]].
  cbn [get_world] in Hget. inversion Hget; subst w10 w11; clear Hget.
  apply bind_ret_inv in Hm. destruct Hm as [u5 [w12 [Hclose Hm]]].
  cbn [ret] in Hm. inversion Hm; subst w12; clear Hm.
  assert (Hend : backupManagerPopup w' = false
                 /\ exists es5, trace w' = (trace w9 ++ es5)%list).
  { destruct (backupManagerPopup w9) eqn:Hp.
    - unfold bind in Hclose. cbn [emit modify] in Hclose.
      inversion Hclose. split; [reflexivity|].
      exists [EvPopupClose]. reflexivity.
    - cbn [ret] in Hclose. inversion Hclose; subst.
      split; [exact Hp|]. exists []. now rewrite app_nil_r. }
  destruct Hend as [Hpopup [es5 Ht']].
  exists newChatId, target, (es0 ++ es1 ++ es2 ++ es3)%list,
    (es4 ++ es5)%list.
  split; [|split; [exact Hanswer|split; [exact Hpopup|exact Hstore]]].
  rewrite Ht', Ht9. cbn [trace add_event].
  rewrite Ht7, Ht6, Ht4, Ht3, Ht2.
  rewrite <- !app_assoc. reflexivity.
Qed.

(** The data check at the head of [restoreBackup]. *)
Definition has_data (b : Backup) : bool :=
  truthy (rawChatData b) || truthy (groupMetadata b).

Lemma has_data_guard (b : Backup) :
  negb (truthy (rawChatData b)) && negb (truthy (groupMetadata b))
  = negb (has_data b).
Proof. unfold has_data. now rewrite negb_orb. Qed.

Lemma try_catch_resolves {A : Type} (m : M A) (h : Exn -> M A) (w : World) :
  (forall e w0, exists a, fst (h e w0) = Ret a) ->
  exists a, fst (try_catch m h w) = Ret a.
Proof.
  intro Hh. unfold try_catch. destruct (m w) as [[a|e] w1].
  - now exists a.
  - apply Hh.
Qed.

(** X21. [restoreBackup] rejects only through the two calls that stand
    before its [try]: the confirmation popup and the save of the current
    chat.  When both resolve, it resolves, whatever fails later on --
    the switch to the entity, the rebuilding of the file, the request,
    the loading of the new chat.  A backup without data is refused with
    an error toast before the popup; a cancelled popup, or an answer
    that is none of the three expected, ends the restore with nothing
    done. *)
Theorem restore_rejects_only_before_its_try
  (env : Env) (backupData : Backup) (w : World) :
  (has_data backupData = false ->
   restoreBackup env backupData w
   = (Ret false, add_event (EvToast ToastError "备份数据无效或不完整") w))
  /\ (has_data backupData = true ->
      (forall e, popup_confirm env = Throw e ->
                 restoreBackup env backupData w
                 = (Throw e, add_event EvPopupConfirm w))
      /\ (popup_confirm env = Ret PopCancelled
          \/ popup_confirm env = Ret PopOther ->
          restoreBackup env backupData w
          = (Ret false, add_event EvPopupConfirm w))
      /\ (forall e, popup_confirm env = Ret PopAffirmative ->
                    saveChatConditional env = Throw e ->
                    fst (restoreBackup env backupData w) = Throw e)
      /\ (forall answer, popup_confirm env = Ret answer ->
                         saveChatConditional env = Ret tt ->
                         exists r : bool,
                           fst (restoreBackup env backupData w) = Ret r)).
Proof.
  unfold restoreBackup. rewrite has_data_guard. split.
  - intros ->. reflexivity.
  - intros ->. cbn [negb]. unfold bind at 1. cbn [emit modify].
    unfold bind at 1. cbn [lift].
    split; [|split; [|split]].
    + intros e ->. reflexivity.
    + intros [-> | ->]; reflexivity.
    + intros e -> Hsave. unfold bind at 1, host_call, bind.
      cbn [emit modify lift]. now rewrite Hsave.
    + intros answer -> Hsave.
      assert (Hh : forall (e : Exn) (w0 : World),
        exists a : bool,
          fst ((emit (EvToast ToastError ("恢复失败: " ++ err_or_unknown e)) ;;;
                ret false) w0) = Ret a)
        by (intros; exists false; reflexivity).
      destruct answer; try (exists false; reflexivity).
      * unfold bind at 1, host_call, bind at 1 2.
        cbn [emit modify lift]. rewrite Hsave.
        apply try_catch_resolves, Hh.
      * unfold bind at 1. cbn [ret].
        apply try_catch_resolves, Hh.
Qed.

(** ** The buttons of a list item *)

(** X22. The delete button removes the chosen backup and nothing else.
    A confirmed click on a store that answers takes exactly the record
    under the key of the button out of the store and shows the success
    toast, also when no such record was there; when the deletion fails
    the store is as it was, the error is shown and the item stays in the
    list; a click that is not confirmed does nothing.  The handler never
    rejects. *)
Theorem delete_button_removes_one_backup
  (env : Env) (confirmed : bool) (ck : string) (ts : Z) (w : World) :
  exists (removed : bool) (w' : World),
    on_delete_click env confirmed ck ts w = (Ret removed, w')
    /\ (confirmed = false -> removed = false /\ w' = w)
    /\ (confirmed = true ->
        db_fault env (OpDelete (ck, ts)) = NoFault ->
        removed = true
        /\ (forall x, In x (store w') <-> In x (store w) /\ key_of x <> (ck, ts))
        /\ last (trace w') EvGetContext = EvToast ToastSuccess "备份已删除")
    /\ (confirmed = true ->
        db_fault env (OpDelete (ck, ts)) <> NoFault ->
        removed = false
        /\ store w' = store w
        /\ exists msg, last (trace w') EvGetContext = EvToast ToastError msg).
Proof.
  unfold on_delete_click. destruct confirmed.
  - unfold try_catch, bind. rewrite deleteBackup_cases.
    destruct (db_fault env (OpDelete (ck, ts))) as [|e|e];
      cbn [emit modify ret]; eexists; eexists;
      (split; [reflexivity|]); (split; [discriminate|]);
      split; intros _ Hf; try discriminate; try (now contradiction Hf).
    + split; [reflexivity|]. split.
      * intro x. cbn [store add_event set_store]. apply in_store_delete.
      * cbn [trace add_event set_store]. apply last_last.
    + split; [reflexivity|]. split; [reflexivity|]. eexists.
      cbn [trace add_event]. apply last_last.
    + split; [reflexivity|]. split; [reflexivity|]. eexists.
      cbn [trace add_event]. apply last_last.
  - exists false, w. split; [reflexivity|]. split; [now split|].
    split; discriminate.
Qed.

Lemma reads_only_on_restore_click (env : Env) (ck : string) (ts : Z) :
  reads_only (on_restore_click env ck ts).
Proof.
  unfold on_restore_click.
  apply reads_only_finally; [|apply reads_only_ret].
  apply reads_only_try_catch; [|intro; apply reads_only_emit; reflexivity].
  apply reads_only_bind; [apply reads_only_getBackupFromDB|intro backup].
  destruct backup as [b| |]; try (apply reads_only_emit; reflexivity).
  apply reads_only_bind;
    [apply reads_only_restoreBackup|intro; apply reads_only_ret].
Qed.

(** X23. The restore button never rejects and never changes the store:
    whatever [restoreBackup] or the store does, the handler resolves,
    having shown an error toast for what went wrong.  When no backup is
    found under the key of the button, the toast that says so is all
    that happens. *)
Theorem restore_button_never_rejects
  (env : Env) (ck : string) (ts : Z) (w : World) :
  fst (on_restore_click env ck ts w) = Ret tt
  /\ store (snd (on_restore_click env ck ts w)) = store w
  /\ (forall e,
        db_fault env (OpGet (ck, ts)) = TxFails e
        \/ (db_fault env (OpGet (ck, ts)) = NoFault
            /\ store_get (ck, ts) (store w) = None) ->
        on_restore_click env ck ts w
        = (Ret tt,
           add_events [EvDb (OpGet (ck, ts));
                       EvToast ToastError "找不到指定的备份进行恢复"] w))
  /\ (forall e,
        db_fault env (OpGet (ck, ts)) = OpenFails e ->
        on_restore_click env ck ts w
        = (Ret tt,
           add_event (EvToast ToastError ("恢复过程中出错: " ++ err_text e)) w)).
Proof.
  split; [|split; [apply reads_only_on_restore_click|split]].
  - unfold on_restore_click. rewrite finally_nothing. unfold try_catch, bind.
    destruct (getBackupFromDB env ck ts w) as [[[b| |]|e] w1];
      try reflexivity.
    destruct (restoreBackup env b w1) as [[r|e] w2]; reflexivity.
  - intros e [Hf|[Hf Hget]]; unfold on_restore_click;
      rewrite finally_nothing; unfold try_catch, bind;
      rewrite getBackupFromDB_cases, Hf; [reflexivity|].
    now rewrite Hget.
  - intros e Hf. unfold on_restore_click. rewrite finally_nothing.
    unfold try_catch, bind. now rewrite getBackupFromDB_cases, Hf.
Qed.
(** ** Settings *)

(** X24. The configured values stay in range.  Provided the defaults are
    in range, [initSettings] leaves a bound of at least one backup and a
    delay of at least 300 ms whatever the saved settings hold, and the
    two inputs of the settings form always store a bound between 1 and
    10 and a delay between 300 and 10000 ms, taking a value in range as
    it was typed. *)
Theorem settings_stay_in_range
  (defaults : Settings) (default_delay : Z)
  (stored : option StoredSettings) (total delay : option Z) :
  1 <= maxTotalBackups defaults ->
  backupDebounceDelay defaults = Some default_delay ->
  300 <= default_delay ->
  1 <= maxTotalBackups (initSettings defaults stored)
  /\ (exists d, backupDebounceDelay (initSettings defaults stored) = Some d
                /\ 300 <= d)
  /\ 1 <= on_max_total_input defaults total <= 10
  /\ 300 <= on_debounce_delay_input default_delay delay <= 10000
  /\ (forall t, 1 <= t <= 10 -> on_max_total_input defaults (Some t) = t)
  /\ (forall d, 300 <= d <= 10000 ->
                on_debounce_delay_input default_delay (Some d) = d).
Proof.
  intros Hmax Hdelay Hd300.
  split; [now apply initSettings_bound|].
  split.
  { unfold initSettings. cbn [backupDebounceDelay]. rewrite Hdelay.
    eexists. split; [reflexivity|]. unfold number_at_least.
    destruct stored as [[mx [v|] dbg]|]; cbn [stored_backupDebounceDelay].
    - destruct v; try exact Hd300.
      destruct (Z.ltb_spec z 300); [exact Hd300|assumption].
    - exact Hd300.
    - destruct (Z.ltb_spec default_delay 300); [exact Hd300|assumption]. }
  split; [apply on_max_total_input_bound|].
  split.
  { unfold on_debounce_delay_input. destruct delay as [d|]; [|lia].
    destruct (Z.leb_spec 300 d), (Z.leb_spec d 10000); cbn [andb]; lia. }
  split.
  - intros t [H1 H2]. unfold on_max_total_input.
    destruct (Z.leb_spec 1 t), (Z.leb_spec t 10); cbn [andb]; lia.
  - intros d [H1 H2]. unfold on_debounce_delay_input.
    destruct (Z.leb_spec 300 d), (Z.leb_spec d 10000); cbn [andb]; lia.
Qed.

Lemma settings_eq (s1 s2 : Settings) :
  maxTotalBackups s1 = maxTotalBackups s2 ->
  backupDebounceDelay s1 = backupDebounceDelay s2 ->
  debug s1 = debug s2 ->
  s1 = s2.
Proof. destruct s1, s2; cbn; congruence. Qed.

(** X25. [initSettings] keeps every saved value that is valid and is
    idempotent.  A saved bound of at least one is kept as it is -- also
    above the maximum of ten that the settings form enforces -- and so
    is a saved delay of at least 300 ms; running [initSettings] again on
    the settings it has left changes nothing. *)
Theorem init_settings_keeps_valid_values
  (defaults : Settings) (stored : option StoredSettings) :
  (forall s z, stored = Some s ->
               stored_maxTotalBackups s = Some (JNum z) -> 1 <= z ->
               maxTotalBackups (initSettings defaults stored) = z)
  /\ (forall s z, stored = Some s ->
                  stored_backupDebounceDelay s = Some (JNum z) -> 300 <= z ->
                  backupDebounceDelay (initSettings defaults stored) = Some z)
  /\ initSettings defaults
       (Some (stored_of (initSettings defaults stored)))
     = initSettings defaults stored.
Proof.
  split; [|split].
  - intros s z -> Hs Hz. unfold initSettings. cbn [maxTotalBackups].
    rewrite Hs. unfold number_at_least.
    destruct (Z.ltb_spec z 1); [lia|reflexivity].
  - intros s z -> Hs Hz. unfold initSettings. cbn [backupDebounceDelay].
    rewrite Hs. unfold number_at_least.
    destruct (backupDebounceDelay defaults);
      destruct (Z.ltb_spec z 300); try lia; reflexivity.
  - apply settings_eq; unfold initSettings, stored_of, number_at_least;
      cbn [maxTotalBackups backupDebounceDelay debug stored_maxTotalBackups
           stored_backupDebounceDelay stored_debug truthy].
    + destruct stored as [[[v|] dl dbg]|]; cbn [stored_maxTotalBackups];
        try destruct v;
        repeat match goal with
               | |- context [?a <? ?b] => destruct (Z.ltb_spec a b)
               end; try reflexivity; lia.
    + destruct (backupDebounceDelay defaults) as [d|];
        destruct stored as [[mx [v|] dbg]|];
        cbn [stored_backupDebounceDelay]; try destruct v;
        repeat match goal with
               | |- context [?a <? ?b] => destruct (Z.ltb_spec a b)
               end; try reflexivity; try lia.
    + destruct stored as [[mx dl [v|]]|]; cbn [stored_debug];
        try destruct v; reflexivity.
Qed.

(** ** The chat a backup belongs to *)

Lemma chat_info_entity (h : Host) :
  (ci_isGroup (chat_info_of h), ci_entityId (chat_info_of h))
  = if truthy_str (groupId (context h)) then (true, groupId (context h))
    else
      match characterId (context h) with
      | Some cid => (false, Some (string_of_nat cid))
      | None => (false, None)
      end.
Proof.
  unfold chat_info_of, getCurrentChatInfo, bind. rewrite getContext_eq.
  cbn [get_world host add_event context].
  destruct (truthy_str _); [reflexivity|].
  destruct (characterId _); reflexivity.
Qed.

(** X26. The key and the description of the current chat agree, and a
    backup restored into the chat it was taken from needs no switch.
    Whenever [getCurrentChatKey] gives a key, [getCurrentChatInfo] gives
    an entity id: the group id for a key that starts with [group_], the
    index of the character for a key that starts with [char_].  A backup
    that carries this entity id and group flag is recognised by
    [restoreBackup] as belonging to the current context: the step that
    switches to the target entity calls nothing and changes nothing. *)
Theorem backup_of_current_chat_needs_no_switch
  (env : Env) (w : World) (key : string) (b : Backup) :
  chat_key_of (context (host w)) = Some key ->
  entityId b = ci_entityId (chat_info_of (host w)) ->
  isGroup b = ci_isGroup (chat_info_of (host w)) ->
  entityId b <> None
  /\ (if isGroup b
      then prefix "group_" key = true
           /\ entityId b = groupId (context (host w))
      else prefix "char_" key = true
           /\ exists cid, characterId (context (host w)) = Some cid
                          /\ entityId b = Some (string_of_nat cid))
  /\ switch_to_target env b (context (host w)) w
     = (Ret (inr (entityId b)), w).
Proof.
  intros Hkey Hid Hgrp. unfold switch_to_target.
  pose proof (chat_info_entity (host w)) as Hinfo.
  rewrite <- Hid, <- Hgrp in Hinfo. clear Hid Hgrp.
  revert Hkey. unfold chat_key_of.
  destruct (truthy_str (groupId (context (host w)))) eqn:Hg.
  - inversion Hinfo as [[Hgrp Hid]]. rewrite Hgrp, Hid.
    intro H. inversion H; subst key.
    destruct (groupId (context (host w))) as [g|]; [|discriminate].
    rewrite String.eqb_refl. cbn [negb].
    split; [discriminate|]. split; [|reflexivity].
    split; [exact (prefix_app "group_" _)|reflexivity].
  - destruct (characterId (context (host w))) as [cid|]; [|discriminate].
    inversion Hinfo as [[Hgrp Hid]]. rewrite Hgrp, Hid.
    destruct (truthy_str (chatId (context (host w)))); [|discriminate].
    intro H. inversion H; subst key.
    rewrite String.eqb_refl. cbn [negb].
    split; [discriminate|]. split; [|reflexivity].
    split; [exact (prefix_app "char_" _)|]. now exists cid.
Qed.

(** Text of ASCII characters only. *)
Definition ascii_text (s : string) : bool :=
  forallb (fun c => (nat_of_ascii c <? 128)%nat) (list_ascii_of_string s).

Lemma substring_splits (n : nat) :
  forall s : string,
    exists rest : string,
      s = substring 0 n s ++ rest
      /\ String.length (substring 0 n s) = Nat.min n (String.length s).
Proof.
  induction n as [|n IH]; intros [|c s].
  - exists "". split; reflexivity.
  - exists (String c s). split; reflexivity.
  - exists "". split; reflexivity.
  - destruct (IH s) as [rest [Hs Hl]]. exists rest.
    cbn [substring append String.length]. split; [now rewrite <- Hs|].
    rewrite Hl. reflexivity.
Qed.

(** X27. The preview line of a backup is the head of the last message.
    For a last message whose text is ASCII and not empty,
    [message_preview] gives the first hundred characters of the text,
    the whole text when it is shorter: never an empty line, never more
    than a hundred characters.  It gives the placeholder for an empty
    message when the message or its text is missing, [null] or empty.
    A [mes] that is anything else -- a number, a boolean, an array, an
    object -- has no [substring] to call and makes the cycle throw. *)
Theorem preview_line_is_short_and_not_empty (lastMessage : option JValue) :
  (forall s, js_prop_opt lastMessage "mes" = Some (JStr s) ->
             s <> "" ->
             ascii_text s = true ->
             exists p rest : string,
               message_preview lastMessage = Ret p
               /\ s = p ++ rest
               /\ String.length p = Nat.min 100 (String.length s)
               /\ p <> "")
  /\ (js_prop_opt lastMessage "mes" = None
      \/ js_prop_opt lastMessage "mes" = Some JNull
      \/ js_prop_opt lastMessage "mes" = Some (JStr "") ->
      message_preview lastMessage = Ret "(空消息)")
  /\ (forall v, js_prop_opt lastMessage "mes" = Some v ->
                v <> JNull -> (forall s, v <> JStr s) ->
                exists e, message_preview lastMessage = Throw e).
Proof.
  unfold message_preview. split; [|split].
  - intros s -> Hne _.
    destruct (substring_splits 100 s) as [rest [Hs Hl]].
    assert (Hp : substring 0 100 s <> "").
    { destruct s as [|c s]; [contradiction|]. cbn. discriminate. }
    exists (substring 0 100 s), rest.
    destruct (String.eqb_spec (substring 0 100 s) "") as [E|E];
      [contradiction|].
    repeat split; assumption.
  - intros [-> | [-> | ->]]; reflexivity.
  - intros v -> Hnn Hns. destruct v as [|b|z|s|l|fs];
      try (eexists; reflexivity); [contradiction|].
    exfalso. now apply (Hns s).
Qed.

(** ** One backup per chat and last-message index *)

Lemma unique_index_subset (s s' : list Backup) :
  (forall x, In x s' -> In x s) -> unique_index s -> unique_index s'.
Proof. intros Hsub Hu x y Hx Hy. apply Hu; now apply Hsub. Qed.

Lemma unique_index_put (b : Backup) (s : list Backup) :
  unique_index s ->
  (forall y, In y s -> same_slot b y = false) ->
  unique_index (store_put b s).
Proof.
  intros Hu Hfree x y Hx Hy Hc Hi.
  apply in_store_put in Hx. apply in_store_put in Hy.
  destruct Hx as [->|[Hx _]], Hy as [->|[Hy _]].
  - reflexivity.
  - exfalso. specialize (Hfree y Hy).
    assert (same_slot b y = true) by (apply same_slot_true; now split).
    congruence.
  - exfalso. specialize (Hfree x Hx).
    assert (same_slot b x = true) by (apply same_slot_true; now split).
    congruence.
  - now apply Hu.
Qed.

Lemma store_backup_keeps_unique_index (env : Env) (settings : Settings)
  (b : Backup) (w : World) :
  db_fault env (OpGetAll (chatKey b)) = NoFault ->
  unique_index (store w) ->
  unique_index (store (snd (store_backup env settings b w))).
Proof.
  intros Hread Hu. unfold store_backup, bind.
  rewrite getBackupsForChat_cases, Hread.
  fold (dedup_match b (store w)).
  assert (Hsave : forall w1 : World,
    unique_index (store w1) ->
    (forall y, In y (store w1) -> same_slot b y = false) ->
    unique_index
      (store (snd ((u <- saveBackupToDB env b ;;
                    v <- cleanup_old_backups env settings ;;
                    ret true) w1)))).
  { intros w1 Hu1 Hfree. unfold bind. rewrite saveBackupToDB_cases.
    destruct (db_fault env (OpPut (key_of b))) as [|e|e];
      cbn [snd store add_event]; try exact Hu1.
    match goal with
    | |- context [cleanup_old_backups env settings ?w2] =>
        destruct (cleanup_old_backups env settings w2) as [r w3] eqn:Hc
    end.
    assert (Hsub : forall x, In x (store w3)
                             -> In x (store_put b (store w1))).
    { intros x Hx.
      exact (cleanup_only_removes env settings _ _ _ x Hc Hx). }
    assert (Hu3 : unique_index (store w3)).
    { apply (unique_index_subset _ _ Hsub). now apply unique_index_put. }
    destruct r; exact Hu3. }
  destruct (dedup_match b (store w)) as [existing|] eqn:Hm.
  - apply dedup_match_some in Hm. destruct Hm as [Hin Hslot].
    destruct (timestamp b >? timestamp existing); [|exact Hu].
    rewrite deleteBackup_cases.
    destruct (db_fault env (OpDelete (chatKey b, timestamp existing)))
      as [|e|e]; cbn [snd store add_event ret negb]; try exact Hu.
    apply Hsave; cbn [store set_store add_event].
    + apply (unique_index_subset (store w)); [|exact Hu].
      intros x Hx. now apply in_store_delete in Hx.
    + intros y Hy. apply in_store_delete in Hy. destruct Hy as [Hy Hne].
      destruct (same_slot b y) eqn:Hs; [|reflexivity].
      exfalso. apply Hne.
      apply same_slot_true in Hs. apply same_slot_true in Hslot.
      destruct Hs as [Hc Hi], Hslot as [Hc' Hi'].
      assert (y = existing)
        by (apply Hu; try assumption; congruence).
      subst y. unfold key_of. now rewrite Hc'.
  - cbn [ret negb]. apply Hsave; [exact Hu|].
    cbn [store add_event]. now apply dedup_match_none.
Qed.

Lemma core_keeps_one_per_index (env : Env) (settings : Settings) (w : World) :
  (forall ck, db_fault env (OpGetAll ck) = NoFault) ->
  unique_index (store w) ->
  unique_index (store (snd (executeBackupLogic_Core env settings w))).
Proof.
  intros Hread Hu.
  destruct (chat_key_of (context (host w))) as [key|] eqn:Hkey;
    [|now rewrite core_skips_without_key].
  destruct (has_messages (context (host w))) eqn:Hmsgs;
    [|now rewrite (core_skips_empty_chat env settings w key)].
  destruct (executeBackupLogic_Core env settings w) as [res w'] eqn:Hrun.
  destruct (core_builds_candidate env settings w w' key res Hkey Hmsgs Hrun)
    as [[b [w1 [_ [_ [_ [Hstore Hsb]]]]]] | [e [_ Hsame]]].
  - rewrite <- Hstore in Hu.
    pose proof (store_backup_keeps_unique_index env settings b w1
                  (Hread (chatKey b)) Hu) as Hp.
    now rewrite Hsb in Hp.
  - cbn [snd]. now rewrite Hsame.
Qed.

Lemma conditional_keeps_one_per_index (env : Env) (w : World) :
  (forall ck, db_fault env (OpGetAll ck) = NoFault) ->
  unique_index (store w) ->
  unique_index (store (snd (performBackupConditional env w))).
Proof.
  intros Hread Hu. unfold performBackupConditional, bind. cbn [get_world].
  destruct (isBackupInProgress w); [exact Hu|].
  rewrite getContext_eq, getCurrentChatKey_eq, !host_add_event.
  destruct (chat_key_of (context (host w))) as [key|]; [|exact Hu].
  destruct (chat (context (host w))) as [[|m ms]|]; try exact Hu.
  cbn [get_world extension_settings add_event].
  destruct (extension_settings w) as [settings|]; [|exact Hu].
  cbn [modify]. unfold backup_under_lock, finally, try_catch, bind.
  match goal with
  | |- context [executeBackupLogic_Core env settings ?w0] =>
      pose proof (core_keeps_one_per_index env settings w0 Hread Hu) as Hc;
      destruct (executeBackupLogic_Core env settings w0) as [res wc]
  end.
  cbn [snd] in Hc.
  destruct res as [[|]|e]; cbn; try exact Hc.
  pose proof (reads_only_updateBackupsList env wc) as [Hs _].
  destruct (updateBackupsList env wc) as [[u|e] wu]; cbn in *;
    now rewrite Hs.
Qed.

Lemma debounced_trigger_keeps_store (w : World) :
  store (snd (performBackupDebounced w)) = store w.
Proof.
  destruct (chat_key_of (context (host w))) as [key|] eqn:Hkey.
  - destruct (extension_settings w) as [[n [delay|] dbg]|] eqn:Hset.
    + now rewrite (debounce_schedules w key delay n dbg Hkey Hset).
    + now rewrite debounce_only_cancels
        by (right; right; exists n, dbg; exact Hset).
    + now rewrite debounce_only_cancels by (right; left; exact Hset).
  - now rewrite debounce_only_cancels by (left; exact Hkey).
Qed.

Lemma handled_event_keeps_one_per_index (env : Env) (e : HostEvent)
  (w : World) :
  (forall ck, db_fault env (OpGetAll ck) = NoFault) ->
  unique_index (store w) ->
  unique_index (store (snd (handle env e w))).
Proof.
  intros Hread Hu. destruct e as [| |h|id]; cbn [handle].
  - now rewrite debounced_trigger_keeps_store.
  - unfold try_catch, bind.
    pose proof (conditional_keeps_one_per_index env w Hread Hu) as Hc.
    destruct (performBackupConditional env w) as [[r|e] w1]; exact Hc.
  - exact Hu.
  - unfold fire_timer, bind. cbn [get_world].
    destruct (find _ (timers w)) as [t|]; [|exact Hu].
    cbn [modify]. unfold debounce_callback, debounce_callback_head,
      debounce_callback_tail, bind.
    rewrite getCurrentChatKey_eq.
    destruct (negb _); [exact Hu|]. cbn [ret].
    match goal with
    | |- context [performBackupConditional env ?w0] =>
        pose proof (conditional_keeps_one_per_index env w0 Hread Hu) as Hc;
        destruct (performBackupConditional env w0) as [[r|e] w1]
    end; exact Hc.
Qed.

(** X28. The store never holds two backups of the same chat at the same
    last-message index.  As long as the reads of the chat index succeed,
    this holds after every sequence of immediate and debounced events,
    changes of chat and elapsing timers -- also when a request, a save,
    a deletion or the cleanup fails on the way. *)
Theorem one_backup_per_chat_and_index (env : Env) (es : list HostEvent) :
  (forall ck, db_fault env (OpGetAll ck) = NoFault) ->
  forall w : World,
    unique_index (store w) ->
    unique_index (store (run_events env es w)).
Proof.
  intro Hread. induction es as [|e es IH]; intros w Hu; cbn [run_events];
    [exact Hu|].
  apply IH. now apply handled_event_keeps_one_per_index.
Qed.

Lemma one_backup_per_chat_and_index_witness :
  unique_index
    (store (run_events (sample_env sample_chat_file 2000)
              [ImmediateEvent; DebouncedEvent; TimerElapsed 0; ImmediateEvent]
              (sample_world [sample_stored] false 3))).
Proof.
  apply (one_backup_per_chat_and_index (sample_env sample_chat_file 2000)
           [ImmediateEvent; DebouncedEvent; TimerElapsed 0; ImmediateEvent]).
  - intro ck. reflexivity.
  - intros x y [<-|[]] [<-|[]] _ _. reflexivity.
Defined.

(** ** Witnesses *)


(** An environment like [sample_env] with the store failing as [fault]
    says. *)
Definition faulty_env (body : JValue) (t : Z) (fault : DbOp -> Fault) : Env :=
  mkEnv t "2024-01-01T00:00:00.000Z"
        (fun _ => FetchResponse (mkResponse true 200 (Ret body)))
        fault
        (Ret PopCustom2) (Ret tt)
        (fun _ _ => Ret tt) (fun _ => Ret tt) (fun _ => Ret tt)
        (fun _ h => h) true.

Definition storage_error : Exn := mkExn KStorage "transaction error".

Lemma saved_backup_is_read_back_witness :
  fst (getBackupFromDB (sample_env sample_chat_file 2000) "char_0_chatA" 1000
         (snd (saveBackupToDB (sample_env sample_chat_file 2000)
                 sample_stored (sample_world [] false 3))))
  = Ret (FFound sample_stored).
Proof.
  destruct (saved_backup_is_read_back (sample_env sample_chat_file 2000)
              sample_stored (sample_world [] false 3))
    as [w1 [Hsave [Hget _]]]; [reflexivity|intro; reflexivity|].
  rewrite Hsave. exact Hget.
Defined.

Lemma deleted_backup_is_gone_witness :
  fst (getBackupFromDB (sample_env sample_chat_file 2000) "char_0_chatA" 1000
         (snd (deleteBackup (sample_env sample_chat_file 2000)
                 "char_0_chatA" 1000 (sample_world [sample_stored] false 3))))
  = Ret FUndefined.
Proof.
  destruct (deleted_backup_is_gone (sample_env sample_chat_file 2000)
              "char_0_chatA" 1000 (sample_world [sample_stored] false 3))
    as [w1 [Hdel [Hget _]]]; [reflexivity|intro; reflexivity|].
  rewrite Hdel. exact Hget.
Defined.

Lemma reads_swallow_transaction_errors_only_witness :
  fst (getAllBackupKeys
         (faulty_env sample_chat_file 2000 (fun _ => TxFails storage_error))
         (sample_world [sample_stored] false 3)) = Ret []
  /\ getAllBackupKeys
       (faulty_env sample_chat_file 2000 (fun _ => OpenFails storage_error))
       (sample_world [sample_stored] false 3)
     = (Throw storage_error, sample_world [sample_stored] false 3).
Proof.
  split.
  - apply (reads_swallow_transaction_errors_only
             (faulty_env sample_chat_file 2000 (fun _ => TxFails storage_error))
             "char_0_chatA" 1000 (sample_world [sample_stored] false 3)
             storage_error).
    reflexivity.
  - apply (reads_swallow_transaction_errors_only
             (faulty_env sample_chat_file 2000
                (fun _ => OpenFails storage_error))
             "char_0_chatA" 1000 (sample_world [sample_stored] false 3)
             storage_error).
    reflexivity.
Defined.





Definition save_fails_env : Env :=
  faulty_env sample_chat_file 2000
    (fun op => match op with
               | OpPut _ => TxFails storage_error
               | _ => NoFault
               end).

Lemma superseded_backup_is_lost_when_save_fails_witness :
  exists w' : World,
    executeBackupLogic_Core save_fails_env (sample_settings 3)
      (world_with_chat_length 2 [sample_stored])
    = (Throw storage_error, w')
    /\ store w' = store_delete (key_of sample_stored) [sample_stored]
    /\ forall x : Backup,
         In x (store w') ->
         ~ (chatKey x = "char_0_chatA"
            /\ lastMessageId x
               = last_message_index
                   (context (host (world_with_chat_length 2 [sample_stored])))).
Proof.
  apply (superseded_backup_is_lost_when_save_fails save_fails_env
           (sample_settings 3) (world_with_chat_length 2 [sample_stored])
           (snd (fetch_raw_chat save_fails_env
                   (context (host (world_with_chat_length 2 [sample_stored])))
                   (chat_info_of
                      (host (world_with_chat_length 2 [sample_stored])))
                   (add_events [EvGetContext; EvGetContext; EvGetContext]
                      (world_with_chat_length 2 [sample_stored]))))
           "char_0_chatA" "hi" (RawChar sample_chat_file) sample_stored
           storage_error); try reflexivity.
  - intros x y [<-|[]] [<-|[]] _ _. reflexivity.
  - now left.
Defined.

Definition delete_fails_env : Env :=
  faulty_env sample_chat_file 2000
    (fun op => match op with
               | OpDelete _ => TxFails storage_error
               | _ => NoFault
               end).

Lemma failed_cleanup_leaves_the_saved_backup_witness :
  exists w' : World,
    executeBackupLogic_Core delete_fails_env (sample_settings 1)
      (world_with_chat_length 2 [later_backup_of_other_chat])
    = (Throw storage_error, w')
    /\ 1 < Z.of_nat (List.length (store w')).
Proof.
  destruct (failed_cleanup_leaves_the_saved_backup delete_fails_env
              (sample_settings 1)
              (world_with_chat_length 2 [later_backup_of_other_chat])
              (snd (fetch_raw_chat delete_fails_env
                      (context (host (world_with_chat_length 2
                                        [later_backup_of_other_chat])))
                      (chat_info_of
                         (host (world_with_chat_length 2
                                  [later_backup_of_other_chat])))
                      (add_events [EvGetContext; EvGetContext; EvGetContext]
                         (world_with_chat_length 2
                            [later_backup_of_other_chat]))))
              "char_0_chatA" "hi" (RawChar sample_chat_file) storage_error)
    as [w' [Hrun [_ [_ Hover]]]]; try reflexivity.
  - intros x [<-|[]]. discriminate.
  - cbn. lia.
  - exists w'. split; [exact Hrun|exact Hover].
Defined.

Lemma failed_request_stores_nothing_witness :
  exists (w' : World) (e : Exn),
    performBackupConditional (offline_env 2000) (sample_world [] false 3)
    = (Ret (Some false), w')
    /\ store w' = []
    /\ isBackupInProgress w' = false
    /\ last (trace w') EvGetContext
       = EvToast ToastError ("备份失败: " ++ err_or_unknown e).
Proof.
  apply (failed_request_stores_nothing (offline_env 2000)
           (sample_world [] false 3) "char_0_chatA" (sample_settings 3));
    try reflexivity.
  intro r. exact I.
Defined.

Lemma manual_backup_reports_witness :
  exists (es : list Event) (e : Exn),
    trace (snd (performManualBackup (offline_env 2000)
                  (sample_world [] false 3)))
    = (es ++ [EvToast ToastError ("备份失败: " ++ err_or_unknown e);
              EvToast ToastInfo "手动备份已跳过 (聊天为空或无新变化)"])%list
    /\ store (snd (performManualBackup (offline_env 2000)
                     (sample_world [] false 3))) = [].
Proof.
  destruct (manual_backup_reports (offline_env 2000)
              (sample_world [] false 3)) as [_ H].
  apply (H "char_0_chatA" (sample_settings 3)); try reflexivity.
  intro r. exact I.
Defined.

Lemma one_pending_timer_at_most_witness :
  (List.length
     (timers (run_events (sample_env sample_chat_file 2000)
                [DebouncedEvent; DebouncedEvent; ImmediateEvent;
                 DebouncedEvent]
                (sample_world [] false 3))) <= 1)%nat.
Proof.
  apply (one_pending_timer_at_most (sample_env sample_chat_file 2000)
           [DebouncedEvent; DebouncedEvent; ImmediateEvent; DebouncedEvent]
           (sample_world [] false 3)).
  exact I.
Defined.

Definition two_backups : list Backup :=
  [sample_stored; later_backup_of_other_chat].

Lemma list_shows_every_backup_newest_first_witness :
  exists w' : World,
    updateBackupsList (faulty_env sample_chat_file 6000 (fun _ => NoFault))
      (sample_world two_backups false 3) = (Ret tt, w')
    /\ store w' = two_backups
    /\ last (trace w') EvGetContext
       = EvRender (RList [later_backup_of_other_chat; sample_stored])
    /\ Permutation [later_backup_of_other_chat; sample_stored] two_backups
    /\ StronglySorted newest_first
         [later_backup_of_other_chat; sample_stored].
Proof.
  apply (list_shows_every_backup_newest_first
           (faulty_env sample_chat_file 6000 (fun _ => NoFault))
           (sample_world two_backups false 3)).
  - reflexivity.
  - intro op. reflexivity.
  - unfold store_wf. vm_compute.
    repeat constructor; cbn [In]; intuition discriminate.
Defined.

Lemma list_draws_its_failures_witness :
  last (trace (snd (updateBackupsList
                      (faulty_env sample_chat_file 5000
                         (fun _ => TxFails storage_error))
                      (sample_world two_backups false 3)))) EvGetContext
  = EvRender REmpty.
Proof.
  destruct (list_draws_its_failures
              (faulty_env sample_chat_file 5000
                 (fun _ => TxFails storage_error))
              (sample_world two_backups false 3)) as [_ [_ H]].
  apply (H eq_refl storage_error). reflexivity.
Defined.

Lemma plain_message_is_previewed_as_is_witness :
  processMessage (Some (JStr "see you at 5pm")) = Ret "see you at 5pm".
Proof.
  apply (plain_message_is_previewed_as_is "see you at 5pm"). reflexivity.
Defined.

Lemma think_block_is_removed_witness :
  process_text ("Hello " ++ "<think>" ++ "plan: *greet*" ++ "</think>"
                  ++ "there")
  = "Hello " ++ "there".
Proof.
  apply (think_block_is_removed "Hello " "plan: *greet*" "there");
    reflexivity.
Defined.

Lemma thinking_block_is_kept_witness :
  process_text ("Hello " ++ "<thinking>" ++ "plan" ++ "</thinking>"
                  ++ "there")
  = "Hello " ++ "<thinking>" ++ "plan" ++ "</thinking>" ++ "there".
Proof.
  apply (thinking_block_is_kept "Hello " "plan" "there"); reflexivity.
Defined.

(** A backup of a chat of three messages. *)
Definition three_message_backup : Backup :=
  mkBackup 1000 "char_0_chatA" "Alice" "chatA" (Some "0") false 2 "bye"
    (Some (JArr [JObj [("chat_metadata", JObj [("x", JNum 1)])];
                 sample_message "hi";
                 JObj [("name", JStr "Bob"); ("mes", JStr "**yo**")];
                 JObj [("mes", JStr "bye")]]))
    None.

Lemma preview_shows_the_last_two_messages_witness :
  exists w' : World,
    previewBackup (sample_env sample_chat_file 5000) "char_0_chatA" 1000
      (sample_world [three_message_backup] false 3)
    = (Ret (Some (mkPreview
                    ("Alice" ++ " - " ++ "chatA" ++ " 预览")
                    [("Bob", "<strong>yo</strong>"); ("未知", "bye")]
                    ("显示最后 " ++ string_of_nat 2
                       ++ " 条消息，共 " ++ string_of_nat (1 + 2) ++ " 条"))),
       w')
    /\ store w' = [three_message_backup].
Proof.
  apply (preview_shows_the_last_two_messages
           (sample_env sample_chat_file 5000)
           (sample_world [three_message_backup] false 3) three_message_backup
           [sample_message "hi"]
           [JObj [("name", JStr "Bob"); ("mes", JStr "**yo**")];
            JObj [("mes", JStr "bye")]]
           [("Bob", "<strong>yo</strong>"); ("未知", "bye")] PopCustom2);
    try reflexivity.
  - right. split; [reflexivity|]. eexists. reflexivity.
  - now left.
  - repeat constructor.
Defined.

Lemma preview_ends_in_popup_or_toast_witness :
  previewBackup (sample_env sample_chat_file 5000) "char_0_chatA" 7
    (sample_world [sample_stored] false 3)
  = (Ret None,
     add_events [EvDb (OpGet ("char_0_chatA", 7));
                 EvToast ToastError "找不到指定的备份进行预览"]
       (sample_world [sample_stored] false 3)).
Proof.
  destruct (preview_ends_in_popup_or_toast
              (sample_env sample_chat_file 5000) "char_0_chatA" 7
              (sample_world [sample_stored] false 3)) as [_ [H _]].
  apply (H storage_error). right. split; reflexivity.
Defined.

Lemma restore_success_means_chat_was_opened_witness :
  exists (newChatId : string) (target : option string)
         (before after : list Event),
    trace (snd (restoreBackup (sample_env sample_chat_file 5000)
                  sample_stored (sample_world [sample_stored] false 3)))
    = (trace (sample_world [sample_stored] false 3) ++ before
         ++ [EvHostCall (if isGroup sample_stored
                         then HSelectGroupChats target (Some newChatId)
                         else HOpenCharacterChat newChatId);
             EvToast ToastSuccess "聊天备份已成功恢复！"]
         ++ after)%list
    /\ (if isGroup sample_stored
        then select_group_chats (sample_env sample_chat_file 5000) target
               (Some newChatId)
        else openCharacterChat (sample_env sample_chat_file 5000) newChatId)
       = Ret tt
    /\ backupManagerPopup
         (snd (restoreBackup (sample_env sample_chat_file 5000)
                 sample_stored (sample_world [sample_stored] false 3)))
       = false
    /\ store (snd (restoreBackup (sample_env sample_chat_file 5000)
                     sample_stored (sample_world [sample_stored] false 3)))
       = store (sample_world [sample_stored] false 3).
Proof.
  apply (restore_success_means_chat_was_opened
           (sample_env sample_chat_file 5000) sample_stored
           (sample_world [sample_stored] false 3)).
  vm_compute. reflexivity.
Defined.

(** An environment like [sample_env] in which the user cancels the
    confirmation. *)
Definition cancelling_env : Env :=
  mkEnv 5000 "2024-01-01T00:00:00.000Z"
        (fun _ => FetchResponse (mkResponse true 200 (Ret sample_chat_file)))
        (fun _ => NoFault)
        (Ret PopCancelled) (Ret tt)
        (fun _ _ => Ret tt) (fun _ => Ret tt) (fun _ => Ret tt)
        (fun _ h => h) true.

Lemma restore_rejects_only_before_its_try_witness :
  restoreBackup cancelling_env sample_stored
    (sample_world [sample_stored] false 3)
  = (Ret false, add_event EvPopupConfirm (sample_world [sample_stored] false 3))
  /\ exists r : bool,
       fst (restoreBackup (offline_env 5000) sample_stored
              (sample_world [sample_stored] false 3)) = Ret r.
Proof.
  split.
  - destruct (restore_rejects_only_before_its_try cancelling_env
                sample_stored (sample_world [sample_stored] false 3))
      as [_ H].
    destruct (H eq_refl) as [_ [Hcancel _]]. apply Hcancel. now left.
  - destruct (restore_rejects_only_before_its_try (offline_env 5000)
                sample_stored (sample_world [sample_stored] false 3))
      as [_ H].
    destruct (H eq_refl) as [_ [_ [_ Hres]]].
    apply (Hres PopCustom2); reflexivity.
Defined.

Lemma delete_button_removes_one_backup_witness :
  exists (removed : bool) (w' : World),
    on_delete_click (sample_env sample_chat_file 5000) true "char_0_chatA"
      1000 (sample_world two_backups false 3) = (Ret removed, w')
    /\ removed = true
    /\ (forall x, In x (store w')
                  <-> In x two_backups /\ key_of x <> ("char_0_chatA", 1000))
    /\ last (trace w') EvGetContext = EvToast ToastSuccess "备份已删除".
Proof.
  destruct (delete_button_removes_one_backup
              (sample_env sample_chat_file 5000) true "char_0_chatA" 1000
              (sample_world two_backups false 3))
    as [removed [w' [Hrun [_ [Hok _]]]]].
  exists removed, w'. split; [exact Hrun|].
  apply Hok; reflexivity.
Defined.

Lemma restore_button_never_rejects_witness :
  on_restore_click (sample_env sample_chat_file 5000) "char_0_chatA" 7
    (sample_world [sample_stored] false 3)
  = (Ret tt,
     add_events [EvDb (OpGet ("char_0_chatA", 7));
                 EvToast ToastError "找不到指定的备份进行恢复"]
       (sample_world [sample_stored] false 3)).
Proof.
  destruct (restore_button_never_rejects
              (sample_env sample_chat_file 5000) "char_0_chatA" 7
              (sample_world [sample_stored] false 3)) as [_ [_ [H _]]].
  apply (H storage_error). right. split; reflexivity.
Defined.

Lemma settings_stay_in_range_witness :
  1 <= maxTotalBackups
         (initSettings (sample_settings 3)
            (Some (mkStoredSettings (Some (JNum 0)) (Some (JStr "fast"))
                                    None)))
  /\ 1 <= on_max_total_input (sample_settings 3) (Some 25) <= 10
  /\ 300 <= on_debounce_delay_input 1000 None <= 10000.
Proof.
  assert (Hmax : 1 <= maxTotalBackups (sample_settings 3)) by (cbn; lia).
  assert (Hlow : 300 <= 1000) by lia.
  destruct (settings_stay_in_range (sample_settings 3) 1000
              (Some (mkStoredSettings (Some (JNum 0)) (Some (JStr "fast"))
                                      None))
              (Some 25) None Hmax eq_refl Hlow)
    as [H1 [_ [H2 [H3 _]]]].
  split; [exact H1|]. split; [exact H2|exact H3].
Defined.

Lemma init_settings_keeps_valid_values_witness :
  maxTotalBackups
    (initSettings (sample_settings 3)
       (Some (mkStoredSettings (Some (JNum 50)) None None)))
  = 50.
Proof.
  destruct (init_settings_keeps_valid_values (sample_settings 3)
              (Some (mkStoredSettings (Some (JNum 50)) None None)))
    as [H _].
  apply (H (mkStoredSettings (Some (JNum 50)) None None));
    [reflexivity|reflexivity|lia].
Defined.

Lemma backup_of_current_chat_needs_no_switch_witness :
  switch_to_target (sample_env sample_chat_file 5000) sample_stored
    (context (host (sample_world [sample_stored] false 3)))
    (sample_world [sample_stored] false 3)
  = (Ret (inr (entityId sample_stored)), sample_world [sample_stored] false 3).
Proof.
  apply (backup_of_current_chat_needs_no_switch
           (sample_env sample_chat_file 5000)
           (sample_world [sample_stored] false 3) "char_0_chatA"
           sample_stored); reflexivity.
Defined.

(** A text of 120 characters: twelve times the ten digits. *)
Definition long_text : string :=
  String.concat "" (repeat "0123456789" 12).

Lemma preview_line_is_short_and_not_empty_witness :
  (exists p rest : string,
     message_preview (Some (sample_message long_text)) = Ret p
     /\ long_text = p ++ rest
     /\ String.length p = Nat.min 100 (String.length long_text)
     /\ p <> "")
  /\ message_preview (Some (JObj [("name", JStr "Alice")])) = Ret "(空消息)".
Proof.
  split.
  - destruct (preview_line_is_short_and_not_empty
                (Some (sample_message long_text))) as [H _].
    apply (H long_text); [reflexivity|discriminate|reflexivity].
  - destruct (preview_line_is_short_and_not_empty
                (Some (JObj [("name", JStr "Alice")]))) as [_ [H _]].
    apply H. now left.
Defined.

Lemma record_lost_by_resuming_callback_witness :
  timers
    (fst (run_fine (sample_env sample_chat_file 2000)
            [FDebounced; FTimerStarts 0; FDebounced; FCallbackResumes;
             FDebounced]
            (sample_world [] false 3, 0%nat)))
  = [mkTimer 1 "char_0_chatA" 1000; mkTimer 2 "char_0_chatA" 1000]
  /\ backupTimeout
       (fst (run_fine (sample_env sample_chat_file 2000)
               [FDebounced; FTimerStarts 0; FDebounced; FCallbackResumes;
                FDebounced]
               (sample_world [] false 3, 0%nat)))
     = Some 2%nat
  /\ snd (run_fine (sample_env sample_chat_file 2000)
            [FDebounced; FTimerStarts 0; FDebounced; FCallbackResumes;
             FDebounced]
            (sample_world [] false 3, 0%nat)) = 0%nat.
Proof.
  apply (record_lost_by_resuming_callback (sample_env sample_chat_file 2000)
           (sample_world [] false 3) "char_0_chatA" 1000 3 false);
    reflexivity.
Defined.
